(** * sync_monitors.py: Traefik / Docker to Uptime Kuma reconciliation

    A shallow embedding of [docker/auto-monitor/sync_monitors.py].

    - Python [str] values are [string]s (byte sequences; the helpers below
      give the behaviour of the Python built-ins on ASCII text).
    - The Uptime Kuma client ([uptime_kuma_api.UptimeKumaApi]) and the two
      discovery endpoints are external to the script.  They are represented
      by a simulated service: a [World] holding the monitors, tags and Docker
      hosts of the service, a script of upcoming failures, and a log of the
      calls received.
    - Code that talks to the service lives in a state monad over [World]
      with three outcomes: normal return, a Python [Exception] (caught by
      [except Exception]) and [SystemExit] (raised by [sys.exit], which
      [except Exception] does not catch).
    - [time.sleep] has no observable effect here and is left out; of the
      [print] calls, the ones that report a failure or a skip are kept as
      structured [Output] lines.
    - [main] and the functions it calls before the synchronisation run in
      a [Process]: the environment variables, the environment file, the
      standard input and the terminal, around the [World]. *)

From Stdlib Require Import List String Ascii ZArith Bool Lia Sorted OrderedTypeEx.
From Stdlib Require Import DecimalString DecimalNat Permutation.
Import ListNotations.
Local Open Scope string_scope.
Local Open Scope Z_scope.

(* ====================================================================== *)
(** ** Python string built-ins *)
(* ====================================================================== *)

Module PyStr.

(** [c.lower()] on one ASCII character. *)
Definition lower_ascii (c : ascii) : ascii :=
  let n := nat_of_ascii c in
  if (65 <=? n)%nat && (n <=? 90)%nat then ascii_of_nat (n + 32) else c.

(** [s.lower()]. *)
Fixpoint lower (s : string) : string :=
  match s with
  | EmptyString => EmptyString
  | String c s' => String (lower_ascii c) (lower s')
  end.

(** Characters removed by [str.strip()] with no argument. *)
Definition is_space (c : ascii) : bool :=
  let n := nat_of_ascii c in
  (n =? 32)%nat || ((9 <=? n)%nat && (n <=? 13)%nat)
  || ((28 <=? n)%nat && (n <=? 31)%nat).

(** [s.lstrip()]. *)
Fixpoint lstrip (s : string) : string :=
  match s with
  | EmptyString => EmptyString
  | String c s' => if is_space c then lstrip s' else s
  end.

(** [s.rstrip()]. *)
Fixpoint rstrip (s : string) : string :=
  match s with
  | EmptyString => EmptyString
  | String c s' =>
      match rstrip s' with
      | EmptyString => if is_space c then EmptyString else String c EmptyString
      | r => String c r
      end
  end.

(** [s.strip()]. *)
Definition strip (s : string) : string := rstrip (lstrip s).

(** [s.lstrip(ch)] for a one-character argument. *)
Fixpoint lstrip_char (ch : ascii) (s : string) : string :=
  match s with
  | EmptyString => EmptyString
  | String c s' => if Ascii.eqb c ch then lstrip_char ch s' else s
  end.

(** [s.startswith(p)]. *)
Definition startswith (s p : string) : bool := String.prefix p s.

(** [sub in s]. *)
Fixpoint contains (sub s : string) : bool :=
  String.prefix sub s
  || match s with
     | EmptyString => false
     | String _ s' => contains sub s'
     end.

(** [s[n:]]. *)
Fixpoint drop (n : nat) (s : string) : string :=
  match n, s with
  | O, _ => s
  | S n', String _ s' => drop n' s'
  | S _, EmptyString => EmptyString
  end.

(** [s.replace(old, new)] for a non-empty [old]: leftmost occurrences,
    not overlapping. *)
Fixpoint replace_from (skip : nat) (old new s : string) : string :=
  match s with
  | EmptyString => EmptyString
  | String c s' =>
      match skip with
      | S k => replace_from k old new s'
      | O =>
          if String.prefix old s
          then new ++ replace_from (Nat.pred (String.length old)) old new s'
          else String c (replace_from O old new s')
      end
  end.

Definition replace (old new s : string) : string := replace_from O old new s.

(** Python truthiness of a [str]. *)
Definition truthy (s : string) : bool :=
  match s with EmptyString => false | _ => true end.

End PyStr.

(* ====================================================================== *)
(** ** [urllib.parse.urlparse(url).netloc] *)
(* ====================================================================== *)

(** The network location of a URL whose scheme is followed by [//]: the
    text after the [//] up to the first [/], [?] or [#]. *)
Fixpoint until_path (s : string) : string :=
  match s with
  | EmptyString => EmptyString
  | String c s' =>
      if Ascii.eqb c "/" || Ascii.eqb c "?" || Ascii.eqb c "#"
      then EmptyString
      else String c (until_path s')
  end.

(** [urlparse(url).netloc] for the URLs the script hands to it, which all
    start with [http://] or [https://]. *)
Definition netloc (url : string) : string :=
  if PyStr.startswith url "http://" then until_path (PyStr.drop 7 url)
  else if PyStr.startswith url "https://" then until_path (PyStr.drop 8 url)
  else EmptyString.

(* ====================================================================== *)
(** ** [fnmatch.fnmatch] *)
(* ====================================================================== *)

Module Fnmatch.

(** What [fnmatch.translate] turns a pattern into. *)
Inductive token :=
| Star                                   (* [*]: any run of characters *)
| AnyChar                                (* [?]: one character *)
| Lit (c : ascii)                        (* the character itself *)
| Class (negated : bool) (stuff : list ascii).   (* [[seq]] / [[!seq]] *)

(** Is the bracket opened just before [s] closed?  A [!] right after
    the bracket and a [[]]] right after that do not close it. *)
Fixpoint has_bracket (s : string) : bool :=
  match s with
  | EmptyString => false
  | String c s' => Ascii.eqb c "]" || has_bracket s'
  end.

Definition closes (s : string) : bool :=
  let s1 := match s with
            | String c s' => if Ascii.eqb c "!" then s' else s
            | EmptyString => s
            end in
  let s2 := match s1 with
            | String c s' => if Ascii.eqb c "]" then s' else s1
            | EmptyString => s1
            end in
  has_bracket s2.

Inductive scan :=
| Outside
| Opened
| Members (negated first : bool) (acc : list ascii).

Fixpoint translate (st : scan) (pat : string) : list token :=
  match pat with
  | EmptyString => []
  | String c rest =>
      match st with
      | Outside =>
          if Ascii.eqb c "*" then Star :: translate Outside rest
          else if Ascii.eqb c "?" then AnyChar :: translate Outside rest
          else if Ascii.eqb c "["
               then if closes rest then translate Opened rest
                    else Lit c :: translate Outside rest
          else Lit c :: translate Outside rest
      | Opened =>
          if Ascii.eqb c "!" then translate (Members true true []) rest
          else translate (Members false false [c]) rest
      | Members negated first acc =>
          if Ascii.eqb c "]" && negb first
          then Class negated (rev acc) :: translate Outside rest
          else translate (Members negated false (c :: acc)) rest
      end
  end.

Definition ascii_le (a b : ascii) : bool :=
  (nat_of_ascii a <=? nat_of_ascii b)%nat.

(** Membership in a bracket expression: [x-y] is a range, anything else
    stands for itself. *)
Fixpoint in_class (stuff : list ascii) (c : ascii) : bool :=
  match stuff with
  | [] => false
  | x :: rest =>
      match rest with
      | h :: y :: rest' =>
          if Ascii.eqb h "-"
          then (ascii_le x c && ascii_le c y) || in_class rest' c
          else Ascii.eqb c x || in_class rest c
      | _ => Ascii.eqb c x || in_class rest c
      end
  end.

Fixpoint matches (ts : list token) (s : string) {struct ts} : bool :=
  match ts with
  | [] => match s with EmptyString => true | _ => false end
  | Star :: ts' =>
      (fix star (s : string) : bool :=
         matches ts' s
         || match s with
            | EmptyString => false
            | String _ s' => star s'
            end) s
  | AnyChar :: ts' =>
      match s with
      | String _ s' => matches ts' s'
      | EmptyString => false
      end
  | Lit c :: ts' =>
      match s with
      | String d s' => Ascii.eqb c d && matches ts' s'
      | EmptyString => false
      end
  | Class negated stuff :: ts' =>
      match s with
      | String d s' => xorb negated (in_class stuff d) && matches ts' s'
      | EmptyString => false
      end
  end.

(** [fnmatch.fnmatch(name, pat)] on a POSIX system, where
    [os.path.normcase] is the identity. *)
Definition fnmatch (name pat : string) : bool :=
  matches (translate Outside pat) name.

End Fnmatch.

(* ====================================================================== *)
(** ** [should_ignore] (lines 74-91) *)
(* ====================================================================== *)

(** The host component of an identifier (line 80). *)
Definition hostname_of (url : string) : string :=
  if PyStr.startswith url "http://" || PyStr.startswith url "https://"
  then netloc url else url.

(** The loop over [ignore_patterns] (lines 82-89). *)
Fixpoint should_ignore_loop (url hostname : string) (ignore_patterns : list string)
  : bool :=
  match ignore_patterns with
  | [] => false
  | pattern :: rest =>
      let pattern := PyStr.strip pattern in
      if negb (PyStr.truthy pattern) then should_ignore_loop url hostname rest
      else if Fnmatch.fnmatch (PyStr.lower hostname) (PyStr.lower pattern)
              || Fnmatch.fnmatch (PyStr.lower url) (PyStr.lower pattern)
           then true
           else should_ignore_loop url hostname rest
  end.

Definition should_ignore (url : string) (ignore_patterns : list string) : bool :=
  match ignore_patterns with
  | [] => false
  | _ =>
      let hostname := hostname_of url in
      should_ignore_loop url hostname ignore_patterns
  end.

(* ====================================================================== *)
(** ** Data returned by the external services *)
(* ====================================================================== *)

(** [uptime_kuma_api.MonitorType]. *)
Inductive MonitorType := HTTP | PORT | PING | KEYWORD | DNS | DOCKER | PUSH.

Definition MonitorType_eqb (a b : MonitorType) : bool :=
  match a, b with
  | HTTP, HTTP | PORT, PORT | PING, PING | KEYWORD, KEYWORD
  | DNS, DNS | DOCKER, DOCKER | PUSH, PUSH => true
  | _, _ => false
  end.

(** An entry of a monitor's ["tags"] list. *)
Record TagRef := mkTagRef {
  tagref_tag_id : Z;
  tagref_value : string
}.

(** A monitor as [get_monitors] returns it.  [monitor_url] is [None] when
    the monitor has no ["url"]; [monitor_docker_host] likewise. *)
Record Monitor := mkMonitor {
  monitor_id : Z;
  monitor_name : string;
  monitor_type : MonitorType;
  monitor_url : option string;
  monitor_docker_host : option Z;
  monitor_tags : list TagRef
}.

(** A tag as [get_tags] and [add_tag] return it. *)
Record Tag := mkTag {
  tagrec_id : Z;
  tagrec_name : string;
  tagrec_color : string
}.

(** A Docker host as [get_docker_hosts] returns it. *)
Record DockerHost := mkDockerHost {
  dockerhost_id : Z;
  dockerhost_name : string
}.

(** The keyword arguments of [add_monitor] (lines 404-415 and 580-585). *)
Record MonitorConfig := mkMonitorConfig {
  cfg_type : MonitorType;
  cfg_name : string;
  cfg_url : option string;
  cfg_method : option string;
  cfg_interval : option Z;
  cfg_retryInterval : option Z;
  cfg_maxretries : option Z;
  cfg_accepted_statuscodes : list string;
  cfg_maxredirects : option Z;
  cfg_timeout : option Z;
  cfg_docker_container : option string;
  cfg_docker_host : option Z
}.

(** One entry of the ["routers"] mapping of Traefik's [/api/rawdata];
    [None] stands for an absent key. *)
Record Router := mkRouter {
  entryPoints : option (list string);
  rule : option string
}.

(** One element of Docker's [/containers/json]. *)
Record Container := mkContainer {
  Names : option (list string)
}.

(** The body of an HTTP reply, as [response.json()] sees it. *)
Inductive Body :=
| NotJson
| RawData (routers : option (list (string * Router)))
| Containers (containers : list Container).

(** What [requests.get] gives: an exception, or a reply with a status. *)
Inductive Response :=
| ConnectionError (e : string)
| Reply (status : Z) (body : Body).

(** A [(url, group)] entry of [traefik_servers] or [docker_servers]. *)
Record Server := mkServer {
  server_url : string;
  server_group : string
}.

(** Python truthiness of an identifier that may be [None]: [None] and [0]
    are falsy. *)
Definition truthy_id (i : option Z) : bool :=
  match i with
  | Some z => negb (z =? 0)
  | None => false
  end.

Definition option_Z_eqb (a b : option Z) : bool :=
  match a, b with
  | Some x, Some y => x =? y
  | None, None => true
  | _, _ => false
  end.

Definition option_string_eqb (a b : option string) : bool :=
  match a, b with
  | Some x, Some y => String.eqb x y
  | None, None => true
  | _, _ => false
  end.

(* ====================================================================== *)
(** ** The simulated service *)
(* ====================================================================== *)

(** Calls received by the Uptime Kuma client, in the order they are made.
    A call is logged whether it succeeds or not. *)
Inductive Call :=
| CConnect (url : string)
| CDisconnect
| CLogin (username password : string)
| CGetMonitors
| CDeleteMonitor (id : Z)
| CAddMonitor (cfg : MonitorConfig)
| CGetTags
| CAddTag (name color : string)
| CAddMonitorTag (tag_id : option Z) (monitor_id : Z) (value : string)
| CDeleteMonitorTag (tag_id : Z) (monitor_id : Z) (value : string)
| CGetDockerHosts.

(** The [print] lines that report a failure, a skip or the final count. *)
Inductive Output :=
| ErrorFetchingTraefik (traefik_url e : string)          (* line 38 *)
| ErrorFetchingDocker (docker_url e : string)            (* line 63 *)
| WarnCreateTag (tag_name e : string)                    (* line 117 *)
| WarnDockerHostNotFound (docker_host_name : string)     (* line 129 *)
| WarnGetDockerHosts (e : string)                        (* line 137 *)
| WarnAddTag (tag_id : option Z) (e : string)            (* line 157 *)
| SessionExpired                                         (* line 167 *)
| NoteDisconnect (e : string)                            (* line 177 *)
| ReauthFailed (e : string)                              (* lines 189-198 *)
| RemoveFailed (monitor_id : Z) (e : string)             (* line 240 *)
| WarnNoTraefikTag                                       (* line 259 *)
| NoHosts (traefik_url : string)                         (* line 275 *)
| FailedAfterReauth (e : string)                         (* lines 342, 513 *)
| WarnRemoveTag (e : string)                             (* lines 345, 516 *)
| CreateFailed (e : string)                              (* lines 431, 600 *)
| NoContainers (docker_url : string)                     (* line 448 *)
| DockerHostMissing (docker_host : string)               (* line 467 *)
| SyncComplete (total_created : Z)                       (* line 603 *)
| ErrorLine (e : string).                                (* line 607 *)

(** The state of everything outside the script.

    - [srv_monitors], [srv_tags], [srv_docker_hosts]: the service's data;
      [srv_next_id] is the identifier the service gives to the next monitor
      or tag it creates.
    - [net]: what [requests.get] answers for each URL.
    - [faults]: the fate of the coming client calls, one entry per call:
      [Some e] makes the call raise [Exception(e)] without touching the
      service, [None] lets it through.  Once the script is used up every
      call goes through.
    - [calls]: the calls made so far; [stdout]: the lines printed so far. *)
Record World := mkWorld {
  srv_monitors : list Monitor;
  srv_tags : list Tag;
  srv_docker_hosts : list DockerHost;
  srv_next_id : Z;
  net : string -> Response;
  faults : list (option string);
  calls : list Call;
  stdout : list Output
}.

Definition set_monitors (ms : list Monitor) (w : World) : World :=
  mkWorld ms (srv_tags w) (srv_docker_hosts w) (srv_next_id w) (net w)
          (faults w) (calls w) (stdout w).

Definition set_tags (ts : list Tag) (w : World) : World :=
  mkWorld (srv_monitors w) ts (srv_docker_hosts w) (srv_next_id w) (net w)
          (faults w) (calls w) (stdout w).

Definition set_next_id (n : Z) (w : World) : World :=
  mkWorld (srv_monitors w) (srv_tags w) (srv_docker_hosts w) n (net w)
          (faults w) (calls w) (stdout w).

Definition set_faults (fs : list (option string)) (w : World) : World :=
  mkWorld (srv_monitors w) (srv_tags w) (srv_docker_hosts w) (srv_next_id w)
          (net w) fs (calls w) (stdout w).

Definition log_call (c : Call) (w : World) : World :=
  mkWorld (srv_monitors w) (srv_tags w) (srv_docker_hosts w) (srv_next_id w)
          (net w) (faults w) (calls w ++ [c]) (stdout w).

Definition log_output (o : Output) (w : World) : World :=
  mkWorld (srv_monitors w) (srv_tags w) (srv_docker_hosts w) (srv_next_id w)
          (net w) (faults w) (calls w) (stdout w ++ [o]).

(* ====================================================================== *)
(** ** The monad of the script *)
(* ====================================================================== *)

(** How a piece of Python code ends. *)
Inductive Outcome (A : Type) : Type :=
| Return (a : A)            (* normal completion *)
| Raise (e : string)        (* an [Exception] whose [str] is [e] *)
| SysExit (code : Z).       (* [sys.exit(code)] *)

Arguments Return {A} a.
Arguments Raise {A} e.
Arguments SysExit {A} code.

Definition M (A : Type) : Type := World -> Outcome A * World.

Definition ret {A} (a : A) : M A := fun w => (Return a, w).

Definition bind {A B} (m : M A) (k : A -> M B) : M B := fun w =>
  match m w with
  | (Return a, w') => k a w'
  | (Raise e, w') => (Raise e, w')
  | (SysExit c, w') => (SysExit c, w')
  end.

Notation "x <- m ;; k" := (bind m (fun x => k))
  (at level 61, m at next level, right associativity).
Notation "m ;; k" := (bind m (fun _ => k))
  (at level 61, right associativity).

(** [sys.exit(code)]. *)
Definition sys_exit {A} (code : Z) : M A := fun w => (SysExit code, w).

(** [print(...)]. *)
Definition print (o : Output) : M unit := fun w => (Return tt, log_output o w).

(** [try: body / except Exception as e: handler e].  [SystemExit] is not an
    [Exception] and passes through. *)
Definition try_except {A} (body : M A) (handler : string -> M A) : M A := fun w =>
  match body w with
  | (Raise e, w') => handler e w'
  | r => r
  end.

(** [try: body / finally: fin], for a [fin] that completes normally. *)
Definition try_finally {A} (body : M A) (fin : M unit) : M A := fun w =>
  match body w with
  | (r, w') =>
      match fin w' with
      | (Return _, w'') => (r, w'')
      | (Raise e, w'') => (Raise e, w'')
      | (SysExit c, w'') => (SysExit c, w'')
      end
  end.

(** [try: body / except: pass]. *)
Definition try_pass (body : M unit) : M unit := fun w =>
  match body w with
  | (_, w') => (Return tt, w')
  end.

(** How one iteration of a Python [for] body ends. *)
Inductive Ctl (R : Type) : Type :=
| Continue               (* fell off the end of the body, or [continue] *)
| Break                  (* [break] *)
| ReturnOf (r : R).      (* [return r] from the enclosing function *)

Arguments Continue {R}.
Arguments Break {R}.
Arguments ReturnOf {R} r.

(** [for x in xs: body x].  The result is [Some r] when the body returned
    [r] from the enclosing function and [None] when the loop ended. *)
Fixpoint for_in {A R} (xs : list A) (body : A -> M (Ctl R)) : M (option R) :=
  match xs with
  | [] => ret None
  | x :: xs' =>
      c <- body x ;;
      match c with
      | Continue => for_in xs' body
      | Break => ret None
      | ReturnOf r => ret (Some r)
      end
  end.

(** A [for] loop with no [break] or [return] in its body. *)
Fixpoint for_each {A} (xs : list A) (body : A -> M unit) : M unit :=
  match xs with
  | [] => ret tt
  | x :: xs' => body x ;; for_each xs' body
  end.

(** A [for] loop whose body updates local variables [s]. *)
Fixpoint for_fold {A S} (xs : list A) (s : S) (body : A -> S -> M S) : M S :=
  match xs with
  | [] => ret s
  | x :: xs' => s' <- body x s ;; for_fold xs' s' body
  end.

(** The exit status of the process for the outcome of its main function:
    an uncaught exception ends the interpreter with status 1. *)
Definition exit_status {A} (o : Outcome A) : Z :=
  match o with
  | Return _ => 0
  | Raise _ => 1
  | SysExit c => c
  end.

(* ====================================================================== *)
(** ** The client calls *)
(* ====================================================================== *)

(** A client call: it is logged, then the next entry of the fault script
    decides whether it raises or reaches the service. *)
Definition api_call {A} (c : Call) (op : M A) : M A := fun w =>
  let w1 := log_call c w in
  match faults w1 with
  | Some e :: rest => (Raise e, set_faults rest w1)
  | None :: rest => op (set_faults rest w1)
  | [] => op w1
  end.

(** [UptimeKumaApi(url)] and [api.sio.connect(url, wait_timeout=10)]. *)
Definition api_connect (url : string) : M unit :=
  api_call (CConnect url) (ret tt).

(** [api.disconnect()]. *)
Definition api_disconnect : M unit :=
  api_call CDisconnect (ret tt).

(** [api.login(username, password)]. *)
Definition api_login (username password : string) : M unit :=
  api_call (CLogin username password) (ret tt).

(** [api.get_monitors()]. *)
Definition api_get_monitors : M (list Monitor) :=
  api_call CGetMonitors (fun w => (Return (srv_monitors w), w)).

(** [api.delete_monitor(id)]. *)
Definition api_delete_monitor (id : Z) : M unit :=
  api_call (CDeleteMonitor id) (fun w =>
    (Return tt,
     set_monitors (filter (fun m => negb (monitor_id m =? id)) (srv_monitors w)) w)).

(** [api.add_monitor] with the keyword arguments [cfg]; the result is the
    ["monitorID"] of the reply. *)
Definition api_add_monitor (cfg : MonitorConfig) : M (option Z) :=
  api_call (CAddMonitor cfg) (fun w =>
    let id := srv_next_id w in
    let m := mkMonitor id (cfg_name cfg) (cfg_type cfg) (cfg_url cfg)
                       (cfg_docker_host cfg) [] in
    (Return (Some id),
     set_next_id (id + 1) (set_monitors (srv_monitors w ++ [m]) w))).

(** [api.get_tags()]. *)
Definition api_get_tags : M (list Tag) :=
  api_call CGetTags (fun w => (Return (srv_tags w), w)).

(** [api.add_tag(name=..., color=...)]. *)
Definition api_add_tag (name color : string) : M Tag :=
  api_call (CAddTag name color) (fun w =>
    let t := mkTag (srv_next_id w) name color in
    (Return t, set_next_id (srv_next_id w + 1) (set_tags (srv_tags w ++ [t]) w))).

(** The service attaches [t] to the monitor [id]. *)
Definition attach_tag (id : Z) (t : TagRef) (m : Monitor) : Monitor :=
  if monitor_id m =? id
  then mkMonitor (monitor_id m) (monitor_name m) (monitor_type m) (monitor_url m)
                 (monitor_docker_host m) (monitor_tags m ++ [t])
  else m.

Definition TagRef_eqb (a b : TagRef) : bool :=
  (tagref_tag_id a =? tagref_tag_id b) && String.eqb (tagref_value a) (tagref_value b).

(** The service detaches [t] from the monitor [id]. *)
Definition detach_tag (id : Z) (t : TagRef) (m : Monitor) : Monitor :=
  if monitor_id m =? id
  then mkMonitor (monitor_id m) (monitor_name m) (monitor_type m) (monitor_url m)
                 (monitor_docker_host m)
                 (filter (fun r => negb (TagRef_eqb r t)) (monitor_tags m))
  else m.

(** [api.add_monitor_tag(tag_id=..., monitor_id=..., value=...)].  The
    client refuses a missing [tag_id]. *)
Definition api_add_monitor_tag (tag_id : option Z) (monitor_id : Z) (value : string)
  : M unit :=
  api_call (CAddMonitorTag tag_id monitor_id value) (fun w =>
    match tag_id with
    | Some t =>
        (Return tt,
         set_monitors (map (attach_tag monitor_id (mkTagRef t value)) (srv_monitors w)) w)
    | None => (Raise "tag_id is required", w)
    end).

(** [api.delete_monitor_tag(tag_id=..., monitor_id=..., value=...)]. *)
Definition api_delete_monitor_tag (tag_id : Z) (monitor_id : Z) (value : string)
  : M unit :=
  api_call (CDeleteMonitorTag tag_id monitor_id value) (fun w =>
    (Return tt,
     set_monitors (map (detach_tag monitor_id (mkTagRef tag_id value)) (srv_monitors w)) w)).

(** [api.get_docker_hosts()]. *)
Definition api_get_docker_hosts : M (list DockerHost) :=
  api_call CGetDockerHosts (fun w => (Return (srv_docker_hosts w), w)).


(** [raise Exception(e)]. *)
Definition raise {A} (e : string) : M A := fun w => (Raise e, w).

(** [requests.get(url)]: a connection failure raises. *)
Definition requests_get (url : string) : M (Z * Body) := fun w =>
  match net w url with
  | ConnectionError e => (Raise e, w)
  | Reply status body => (Return (status, body), w)
  end.

(** [response.raise_for_status()]. *)
Definition raise_for_status (response : Z * Body) : M unit :=
  let status := fst response in
  if (400 <=? status) && (status <? 600) then raise "HTTPError" else ret tt.

(** [response.json()]. *)
Definition response_json (response : Z * Body) : M Body :=
  match snd response with
  | NotJson => raise "JSONDecodeError"
  | body => ret body
  end.

(* ====================================================================== *)
(** ** [extract_hosts_from_traefik] (lines 16-39) *)
(* ====================================================================== *)

(** The longest run of characters other than a backtick at the head of
    [s], and what follows it: the group [[^`]+] of the expression. *)
Fixpoint span_name (s : string) : string * string :=
  match s with
  | EmptyString => (EmptyString, EmptyString)
  | String c s' =>
      if Ascii.eqb c "`" then (EmptyString, s)
      else let (name, rest) := span_name s' in (String c name, rest)
  end.

(** A match of [Host\(`([^`]+)`\)] that starts at the head of [s]. *)
Definition match_host_here (s : string) : option string :=
  if String.prefix "Host(`" s
  then let (name, rest) := span_name (PyStr.drop 6 s) in
       if PyStr.truthy name && String.prefix "`)" rest then Some name else None
  else None.

(** [re.search(r"Host\(`([^`]+)`\)", rule)], giving [match.group(1)]:
    the leftmost position where the expression matches. *)
Fixpoint re_search_host (rule : string) : option string :=
  match match_host_here rule with
  | Some hostname => Some hostname
  | None =>
      match rule with
      | EmptyString => None
      | String _ rule' => re_search_host rule'
      end
  end.

(** [set.add] on a set of strings. *)
Definition set_add (x : string) (s : list string) : list string :=
  if existsb (String.eqb x) s then s else s ++ [x].

(** [x in s]. *)
Definition set_mem (x : string) (s : list string) : bool :=
  existsb (String.eqb x) s.

(** [sorted] on strings. *)
Fixpoint insert_sorted (x : string) (l : list string) : list string :=
  match l with
  | [] => [x]
  | y :: l' => if String.leb x y then x :: l else y :: insert_sorted x l'
  end.

Definition sorted (l : list string) : list string :=
  fold_right insert_sorted [] l.

(** The body of the loop over [routers.items()] (lines 26-34). *)
Definition add_router_host (hosts : list string) (item : string * Router)
  : list string :=
  let router_config := snd item in
  if existsb (String.eqb "https")
             (match entryPoints router_config with Some l => l | None => [] end)
  then
    let rule := match rule router_config with Some r => r | None => "" end in
    match re_search_host rule with
    | Some hostname => set_add ("https://" ++ hostname) hosts
    | None => hosts
    end
  else hosts.

Definition extract_hosts_from_traefik (traefik_url : string) : M (list string) :=
  try_except
    (response <- requests_get (traefik_url ++ "/api/rawdata") ;;
     raise_for_status response ;;
     data <- response_json response ;;
     routers <- match data with
                | RawData (Some routers) => ret routers
                | RawData None => ret []
                | _ => raise "AttributeError"
                end ;;
     let hosts := fold_left add_router_host routers [] in
     ret (sorted hosts))
    (fun e => print (ErrorFetchingTraefik traefik_url e) ;; ret []).

(* ====================================================================== *)
(** ** [extract_containers_from_docker] (lines 41-64) *)
(* ====================================================================== *)

(** The body of the loop over [containers] (lines 54-59). *)
Definition add_container_name (container_names : list string) (container : Container)
  : list string :=
  match Names container with
  | Some (first :: _) => container_names ++ [PyStr.lstrip_char "/" first]
  | _ => container_names
  end.

Definition extract_containers_from_docker (docker_url : string) : M (list string) :=
  try_except
    (let api_url := PyStr.replace "tcp://" "http://" docker_url in
     response <- requests_get (api_url ++ "/containers/json") ;;
     raise_for_status response ;;
     data <- response_json response ;;
     containers <- match data with
                   | Containers containers => ret containers
                   | _ => raise "AttributeError"
                   end ;;
     let container_names := fold_left add_container_name containers [] in
     ret (sorted container_names))
    (fun e => print (ErrorFetchingDocker docker_url e) ;; ret []).

(* ====================================================================== *)
(** ** The retry helpers (lines 93-158) *)
(* ====================================================================== *)

(** The test [["not logged in" in error_msg or "unauthorized" in error_msg]]
    of lines 113, 133, 152, 337 and 508. *)
Definition session_expired (error_msg : string) : bool :=
  PyStr.contains "not logged in" error_msg || PyStr.contains "unauthorized" error_msg.

(** [max_retries = 2] and [range(max_retries)]. *)
Definition max_retries : nat := 2.
Definition attempts : list nat := seq 0 max_retries.

Definition is_some {A} (o : option A) : bool :=
  match o with Some _ => true | None => false end.

Definition call_opt (f : option (M unit)) : M unit :=
  match f with Some m => m | None => ret tt end.

(** The [try] block of [get_or_create_tag] (lines 98-110): the lookup by
    name and, when the tag is absent, its creation. *)
Definition lookup_or_create_tag (tag_name : string) : M (option Z) :=
  tags <- api_get_tags ;;
  match find (fun tag => String.eqb (tagrec_name tag) tag_name) tags with
  | Some tag => ret (Some (tagrec_id tag))
  | None =>
      new_tag <- api_add_tag tag_name "#4299e1" ;;
      let tag_id := tagrec_id new_tag in
      ret (Some tag_id)
  end.

(** [get_or_create_tag] (lines 93-118). *)
Definition get_or_create_tag (tag_name : string) (ensure_auth_fn : option (M unit))
  : M (option Z) :=
  r <- for_in attempts (fun attempt =>
         try_except
           (tag_id <- lookup_or_create_tag tag_name ;;
            ret (ReturnOf tag_id))
           (fun e =>
              let error_msg := PyStr.lower e in
              if session_expired error_msg
                 && ((attempt <? max_retries - 1)%nat && is_some ensure_auth_fn)
              then call_opt ensure_auth_fn ;; ret Continue
              else print (WarnCreateTag tag_name e) ;; ret (ReturnOf None))) ;;
  match r with
  | Some tag_id => ret tag_id
  | None => ret None
  end.

(** The [try] block of [get_docker_host_id] (lines 125-130). *)
Definition lookup_docker_host (docker_host_name : string) : M (option Z) :=
  docker_hosts <- api_get_docker_hosts ;;
  match find (fun host => String.eqb (dockerhost_name host) docker_host_name)
             docker_hosts with
  | Some host => ret (Some (dockerhost_id host))
  | None =>
      print (WarnDockerHostNotFound docker_host_name) ;;
      ret None
  end.

(** [get_docker_host_id] (lines 120-138). *)
Definition get_docker_host_id (docker_host_name : string)
           (ensure_auth_fn : option (M unit)) : M (option Z) :=
  r <- for_in attempts (fun attempt =>
         try_except
           (docker_host_id <- lookup_docker_host docker_host_name ;;
            ret (ReturnOf docker_host_id))
           (fun e =>
              let error_msg := PyStr.lower e in
              if session_expired error_msg
                 && ((attempt <? max_retries - 1)%nat && is_some ensure_auth_fn)
              then call_opt ensure_auth_fn ;; ret Continue
              else print (WarnGetDockerHosts e) ;; ret (ReturnOf None))) ;;
  match r with
  | Some docker_host_id => ret docker_host_id
  | None => ret None
  end.

(** The body of the loop over [tag_ids] in [add_tags_to_monitor]
    (lines 143-158). *)
Definition add_tag_to_monitor (monitor_id : Z) (ensure_auth_fn : option (M unit))
           (tag_id : option Z) : M unit :=
  if negb (truthy_id tag_id) then ret tt
  else
    for_in (R := unit) attempts (fun attempt =>
      try_except
        (api_add_monitor_tag tag_id monitor_id "" ;;
         ret Break)
        (fun e =>
           let error_msg := PyStr.lower e in
           if session_expired error_msg
              && ((attempt <? max_retries - 1)%nat && is_some ensure_auth_fn)
           then call_opt ensure_auth_fn ;; ret Continue
           else
             (if (attempt =? max_retries - 1)%nat
              then print (WarnAddTag tag_id e) else ret tt) ;;
             ret Break)) ;;
    ret tt.

(** [add_tags_to_monitor] (lines 140-158). *)
Definition add_tags_to_monitor (monitor_id : Z) (tag_ids : list (option Z))
           (ensure_auth_fn : option (M unit)) : M unit :=
  for_each tag_ids (add_tag_to_monitor monitor_id ensure_auth_fn).

(* ====================================================================== *)
(** ** [sync_monitors] (lines 160-615) *)
(* ====================================================================== *)

(** The closure [ensure_authenticated] (lines 165-199). *)
Definition ensure_authenticated (uptime_url username password : string) : M unit :=
  print SessionExpired ;;
  try_except api_disconnect (fun e => print (NoteDisconnect e)) ;;
  try_except
    (api_connect uptime_url ;;
     api_login username password)
    (fun e => print (ReauthFailed e) ;; sys_exit 1).

(** [monitor.get("url", "")] followed by the test [if url]. *)
Definition truthy_url (monitor : Monitor) : option string :=
  match monitor_url monitor with
  | Some url => if PyStr.truthy url then Some url else None
  | None => None
  end.

(** The monitors selected for removal (lines 221-229). *)
Definition monitors_to_remove (ignore_patterns : list string) (monitors : list Monitor)
  : list Monitor :=
  filter (fun monitor =>
            match truthy_url monitor with
            | Some url => should_ignore url ignore_patterns
            | None => false
            end) monitors.

(** The body of the deletion loop (lines 233-240). *)
Definition delete_one (monitor : Monitor) : M unit :=
  let monitor_id := monitor_id monitor in
  try_except (api_delete_monitor monitor_id)
             (fun e => print (RemoveFailed monitor_id e)).

(** Removal of the monitors that match an ignore pattern (lines 217-245);
    the result is the value of [monitors] afterwards. *)
Definition prune_monitors (ignore_patterns : list string) (monitors : list Monitor)
  : M (list Monitor) :=
  match ignore_patterns with
  | [] => ret monitors
  | _ =>
      match monitors_to_remove ignore_patterns monitors with
      | [] => ret monitors
      | to_remove =>
          for_each to_remove delete_one ;;
          api_get_monitors
      end
  end.

(** The set [existing_urls] (lines 247-251). *)
Definition collect_existing_urls (monitors : list Monitor) : list string :=
  fold_left (fun existing_urls monitor =>
               match truthy_url monitor with
               | Some url => set_add url existing_urls
               | None => existing_urls
               end) monitors [].

(** The hosts left after the ignore filter (lines 280-292). *)
Definition filter_hosts (ignore_patterns : list string) (hosts : list string)
  : list string :=
  match ignore_patterns with
  | [] => hosts
  | _ => filter (fun host => negb (should_ignore host ignore_patterns)) hosts
  end.

(** [missing_hosts] (line 395). *)
Definition missing_hosts (hosts existing_urls : list string) : list string :=
  filter (fun h => negb (set_mem h existing_urls)) hosts.

(** The removal of one tag with its retry (lines 330-347 and 501-518).
    The result tells whether [failed = True] was executed. *)
Definition remove_tag (ensure_authenticated : M unit) (monitor_id : Z) (tag : TagRef)
  : M bool :=
  r <- for_in attempts (fun attempt =>
         try_except
           (api_delete_monitor_tag (tagref_tag_id tag) monitor_id (tagref_value tag) ;;
            ret Break)
           (fun e =>
              let error_msg := PyStr.lower e in
              if session_expired error_msg
              then if (attempt <? max_retries - 1)%nat
                   then ensure_authenticated ;; ret Continue
                   else print (FailedAfterReauth e) ;; ret (ReturnOf tt)
              else print (WarnRemoveTag e) ;; ret (ReturnOf tt))) ;;
  ret (is_some r).

(** The removal of all the tags of a monitor (lines 328-347 and 499-518);
    the result is the value of [failed] after the loop. *)
Definition remove_all_tags (ensure_authenticated : M unit) (monitor_id : Z)
           (monitor_tags : list TagRef) : M bool :=
  for_fold monitor_tags false (fun tag failed =>
    f <- remove_tag ensure_authenticated monitor_id tag ;;
    ret (failed || f)).

(** Reset mode for one monitor (lines 323-364 and 494-535); [tags_to_add]
    is [[tag_id, traefik_tag_id]] or [[tag_id, docker_tag_id]]. *)
Definition reset_monitor_tags (ensure_authenticated : M unit)
           (monitor_to_check : Monitor) (tags_to_add : list (option Z)) : M unit :=
  let monitor_id := monitor_id monitor_to_check in
  let monitor_tags := monitor_tags monitor_to_check in
  if (0 <? List.length monitor_tags)%nat
  then
    failed <- remove_all_tags ensure_authenticated monitor_id monitor_tags ;;
    if negb failed
    then add_tags_to_monitor monitor_id tags_to_add (Some ensure_authenticated)
    else ret tt
  else add_tags_to_monitor monitor_id tags_to_add (Some ensure_authenticated).

(** The tags a monitor lacks in normal mode (lines 367-374 and 538-545). *)
Definition missing_tags (monitor_tags : list TagRef) (tag_id kind_tag_id : option Z)
  : list (option Z) :=
  let has_group_tag :=
    existsb (fun tag => option_Z_eqb (Some (tagref_tag_id tag)) tag_id) monitor_tags in
  let has_kind_tag :=
    existsb (fun tag => option_Z_eqb (Some (tagref_tag_id tag)) kind_tag_id) monitor_tags in
  (if negb has_group_tag && truthy_id tag_id then [tag_id] else [])
  ++ (if negb has_kind_tag && truthy_id kind_tag_id then [kind_tag_id] else []).

(** Normal mode for one monitor (lines 365-381 and 536-552). *)
Definition check_monitor_tags (ensure_authenticated : M unit)
           (monitor_to_check : Monitor) (tag_id kind_tag_id : option Z) : M unit :=
  let monitor_id := monitor_id monitor_to_check in
  match missing_tags (monitor_tags monitor_to_check) tag_id kind_tag_id with
  | [] => ret tt
  | tags_to_add => add_tags_to_monitor monitor_id tags_to_add (Some ensure_authenticated)
  end.

(** The tag update of one monitor, in either mode. *)
Definition update_monitor_tags (reset_tags : bool) (ensure_authenticated : M unit)
           (monitor_to_check : Monitor) (tag_id kind_tag_id : option Z) : M unit :=
  if reset_tags
  then reset_monitor_tags ensure_authenticated monitor_to_check [tag_id; kind_tag_id]
  else check_monitor_tags ensure_authenticated monitor_to_check tag_id kind_tag_id.

(** The monitor configuration of lines 404-415. *)
Definition http_monitor_config (host : string) : MonitorConfig :=
  let hostname := netloc host in
  mkMonitorConfig HTTP hostname (Some host) (Some "GET") (Some 60) (Some 60)
                  (Some 0) ["200-299"] (Some 10) (Some 48) None None.

(** The monitor configuration of lines 580-585. *)
Definition docker_monitor_config (container_name : string) (docker_host_id : option Z)
  : MonitorConfig :=
  mkMonitorConfig DOCKER container_name None None None None None [] None None
                  (Some container_name) docker_host_id.

(** Creation of one monitor with its tags (lines 402-431 and 578-600).
    [created] is what the [try] block does to the local variables once the
    monitor is there. *)
Definition create_monitor {S} (ensure_authenticated : M unit) (cfg : MonitorConfig)
           (tags_to_add : list (option Z)) (created : S) (unchanged : S) : M S :=
  try_except
    (monitor_id <- api_add_monitor cfg ;;
     (match monitor_id with
      | Some id =>
          if truthy_id monitor_id
          then add_tags_to_monitor id tags_to_add (Some ensure_authenticated)
          else ret tt
      | None => ret tt
      end) ;;
     ret created)
    (fun e => print (CreateFailed e) ;; ret unchanged).

(** One iteration of the loop over [traefik_servers] (lines 263-431).  The
    local variables that survive an iteration are [existing_urls] and
    [total_created]. *)
Definition process_traefik (ignore_patterns : list string) (reset_tags : bool)
           (ensure_authenticated : M unit) (monitors : list Monitor)
           (traefik_tag_id : option Z) (traefik_info : Server)
           (vars : list string * Z) : M (list string * Z) :=
  let traefik_url := server_url traefik_info in
  let group_name := server_group traefik_info in
  hosts <- extract_hosts_from_traefik traefik_url ;;
  match hosts with
  | [] => print (NoHosts traefik_url) ;; ret vars
  | _ =>
      let hosts := filter_hosts ignore_patterns hosts in
      tag_id <- (if PyStr.truthy group_name
                 then get_or_create_tag group_name (Some ensure_authenticated)
                 else ret None) ;;
      (if truthy_id tag_id
       then
         let existing_hosts_for_this_traefik :=
           filter (fun h => set_mem h (fst vars)) hosts in
         for_each existing_hosts_for_this_traefik (fun host =>
           match find (fun monitor => option_string_eqb (monitor_url monitor) (Some host))
                      monitors with
           | Some monitor_to_check =>
               update_monitor_tags reset_tags ensure_authenticated monitor_to_check
                                   tag_id traefik_tag_id
           | None => ret tt
           end)
       else ret tt) ;;
      for_fold (missing_hosts hosts (fst vars)) vars (fun host vars =>
        let existing_urls := fst vars in
        let total_created := snd vars in
        create_monitor ensure_authenticated (http_monitor_config host)
                       [tag_id; traefik_tag_id]
                       (set_add host existing_urls, total_created + 1)
                       vars)
  end.

(** The test of lines 483-485. *)
Definition is_docker_monitor (container_name : string) (docker_host_id : option Z)
           (monitor : Monitor) : bool :=
  MonitorType_eqb (monitor_type monitor) DOCKER
  && String.eqb (monitor_name monitor) container_name
  && option_Z_eqb (monitor_docker_host monitor) docker_host_id.

(** The set [existing_docker_monitors] (lines 566-570). *)
Definition existing_docker_monitors (docker_host_id : option Z) (monitors : list Monitor)
  : list string :=
  fold_left (fun existing monitor =>
               if MonitorType_eqb (monitor_type monitor) DOCKER
                  && option_Z_eqb (monitor_docker_host monitor) docker_host_id
               then set_add (monitor_name monitor) existing
               else existing) monitors [].

(** [missing_containers] (line 572). *)
Definition missing_containers (containers : list string) (docker_host_id : option Z)
           (monitors : list Monitor) : list string :=
  filter (fun c => negb (set_mem c (existing_docker_monitors docker_host_id monitors)))
         containers.

(** One iteration of the loop over [docker_servers] (lines 434-600).  The
    local variable that survives an iteration is [total_created]. *)
Definition process_docker (reset_tags : bool) (ensure_authenticated : M unit)
           (monitors : list Monitor) (docker_info : Server) (total_created : Z)
  : M Z :=
  let docker_url := server_url docker_info in
  let group_name := server_group docker_info in
  let docker_host := group_name ++ "-docker" in
  containers <- extract_containers_from_docker docker_url ;;
  match containers with
  | [] => print (NoContainers docker_url) ;; ret total_created
  | _ =>
      tag_id <- (if PyStr.truthy group_name
                 then get_or_create_tag group_name (Some ensure_authenticated)
                 else ret None) ;;
      docker_tag_id <- get_or_create_tag "docker" (Some ensure_authenticated) ;;
      docker_host_id <- get_docker_host_id docker_host (Some ensure_authenticated) ;;
      if negb (truthy_id docker_host_id)
      then print (DockerHostMissing docker_host) ;; ret total_created
      else
        (if truthy_id tag_id || truthy_id docker_tag_id
         then
           for_each containers (fun container_name =>
             match find (is_docker_monitor container_name docker_host_id) monitors with
             | Some monitor_to_check =>
                 update_monitor_tags reset_tags ensure_authenticated monitor_to_check
                                     tag_id docker_tag_id
             | None => ret tt
             end)
         else ret tt) ;;
        for_fold (missing_containers containers docker_host_id monitors) total_created
          (fun container_name total_created =>
             create_monitor ensure_authenticated
                            (docker_monitor_config container_name docker_host_id)
                            [tag_id; docker_tag_id]
                            (total_created + 1)
                            total_created)
  end.

(** The part of the [try] block that follows the pruning (lines 247-604):
    the loops over the Traefik and the Docker servers. *)
Definition sync_groups (traefik_servers docker_servers : list Server)
           (ignore_patterns : list string) (reset_tags : bool)
           (ensure_authenticated : M unit) (monitors : list Monitor) : M unit :=
  let existing_urls := collect_existing_urls monitors in
  traefik_tag_id <- get_or_create_tag "traefik" (Some ensure_authenticated) ;;
  (if negb (truthy_id traefik_tag_id) then print WarnNoTraefikTag else ret tt) ;;
  vars <- for_fold traefik_servers (existing_urls, 0)
            (process_traefik ignore_patterns reset_tags ensure_authenticated
                             monitors traefik_tag_id) ;;
  total_created <- for_fold docker_servers (snd vars)
                     (process_docker reset_tags ensure_authenticated monitors) ;;
  print (SyncComplete total_created).

(** The [try] block of [sync_monitors] (lines 202-604). *)
Definition sync_body (uptime_url : string) (traefik_servers docker_servers : list Server)
           (username password : string) (ignore_patterns : list string)
           (reset_tags : bool) : M unit :=
  let ensure_authenticated := ensure_authenticated uptime_url username password in
  api_login username password ;;
  monitors <- api_get_monitors ;;
  monitors <- prune_monitors ignore_patterns monitors ;;
  sync_groups traefik_servers docker_servers ignore_patterns reset_tags
              ensure_authenticated monitors.

Definition sync_monitors (uptime_url : string) (traefik_servers docker_servers : list Server)
           (username password : string) (ignore_patterns : list string)
           (reset_tags : bool) : M unit :=
  api_connect uptime_url ;;
  try_finally
    (try_except
       (sync_body uptime_url traefik_servers docker_servers username password
                  ignore_patterns reset_tags)
       (fun e => print (ErrorLine e) ;; sys_exit 1))
    (try_pass api_disconnect).

(* ====================================================================== *)
(** ** The process around the script *)
(* ====================================================================== *)

(** The command line as [parser.parse_args()] returns it (lines 664-686):
    an option that was not given is [None]; [--env-file] defaults to
    [.env]. *)
Record Args := mkArgs {
  args_uptime_url : option string;
  args_username : option string;
  args_password : option string;
  args_env_file : string
}.

(** The dictionary that [load_config_from_env] builds, and the one that
    [main] uses when there is no environment file (lines 621-628, 659 and
    693-701). *)
Record Config := mkConfig {
  config_uptime_url : option string;
  config_username : option string;
  config_password : option string;
  config_traefik_servers : list Server;
  config_docker_servers : list Server;
  config_ignore_patterns : list string;
  config_reset_tags : bool
}.

(** What [main] and [get_uptime_credentials] write to the terminal: the
    two configuration errors and the prompts of [input]. *)
Inductive Notice :=
| Prompt (text : string)                                 (* lines 69, 71 *)
| ErrorUrlRequired                                       (* line 714 *)
| ErrorNoServer.                                         (* lines 718-720 *)

(** The state of the process and of what surrounds it.

    - [environ]: [os.environ], the first binding of a name being its value;
    - [dotenv]: the variables of the [.env] file that [load_dotenv()]
      finds, none when it finds no file;
    - [path_exists]: [os.path.exists];
    - [stdin]: the lines waiting on standard input;
    - [terminal]: the notices written so far;
    - [world]: the service, the network and the client's log. *)
Record Process := mkProcess {
  environ : list (string * string);
  dotenv : list (string * string);
  path_exists : string -> bool;
  stdin : list string;
  terminal : list Notice;
  world : World
}.

Definition set_environ (e : list (string * string)) (p : Process) : Process :=
  mkProcess e (dotenv p) (path_exists p) (stdin p) (terminal p) (world p).

Definition set_stdin (lines : list string) (p : Process) : Process :=
  mkProcess (environ p) (dotenv p) (path_exists p) lines (terminal p) (world p).

Definition set_world (w : World) (p : Process) : Process :=
  mkProcess (environ p) (dotenv p) (path_exists p) (stdin p) (terminal p) w.

Definition notify (n : Notice) (p : Process) : Process :=
  mkProcess (environ p) (dotenv p) (path_exists p) (stdin p) (terminal p ++ [n])
            (world p).

(** Code of the process: as [M], over [Process]. *)
Definition PM (A : Type) : Type := Process -> Outcome A * Process.

(** A computation on the service, run inside the process. *)
Definition on_world {A} (m : M A) : PM A := fun p =>
  let (o, w) := m (world p) in (o, set_world w p).

(** [x or y] on values that may be [None]: [x] when it is truthy. *)
Definition py_or (x y : option string) : option string :=
  match x with
  | Some s => if PyStr.truthy s then x else y
  | None => y
  end.

(** Python truthiness of a [str] that may be [None]. *)
Definition truthy_opt (x : option string) : bool :=
  match x with
  | Some s => PyStr.truthy s
  | None => false
  end.

(** [str(i)] for a natural number [i]. *)
Definition str_of_nat (i : nat) : string :=
  NilEmpty.string_of_uint (Nat.to_uint i).

(** [s.split(",")]. *)
Fixpoint split_commas (s : string) : list string :=
  match s with
  | EmptyString => [EmptyString]
  | String c s' =>
      if Ascii.eqb c ","
      then EmptyString :: split_commas s'
      else match split_commas s' with
           | piece :: pieces => String c piece :: pieces
           | [] => [String c EmptyString]
           end
  end.

(** [os.getenv(key)]. *)
Fixpoint getenv (environ : list (string * string)) (key : string) : option string :=
  match environ with
  | [] => None
  | (name, value) :: rest => if String.eqb name key then Some value else getenv rest key
  end.

(** [os.getenv(key, default)]. *)
Definition getenv_default (environ : list (string * string)) (key default : string)
  : string :=
  match getenv environ key with
  | Some value => value
  | None => default
  end.

(** [load_dotenv()]: the variables of the file become environment
    variables, except those that the environment already has. *)
Definition load_dotenv (p : Process) : Process :=
  set_environ
    (environ p
     ++ filter (fun kv => negb (is_some (getenv (environ p) (fst kv)))) (dotenv p))
    p.

(* ====================================================================== *)
(** ** [get_uptime_credentials] (lines 66-72) *)
(* ====================================================================== *)

(** [input(prompt)]: the prompt is written, then a line is read; at the
    end of the input, [EOFError]. *)
Definition input (prompt : string) : PM string := fun p =>
  let p1 := notify (Prompt prompt) p in
  match stdin p1 with
  | line :: rest => (Return line, set_stdin rest p1)
  | [] => (Raise "EOF when reading a line", p1)
  end.

Definition get_uptime_credentials (username password : option string)
  : PM (string * string) := fun p =>
  let (r1, p1) := match username with
                  | Some u => if PyStr.truthy u then (Return u, p)
                              else input "Uptime Kuma username: " p
                  | None => input "Uptime Kuma username: " p
                  end in
  match r1 with
  | Return username =>
      let (r2, p2) := match password with
                      | Some pw => if PyStr.truthy pw then (Return pw, p1)
                                   else input "Uptime Kuma password: " p1
                      | None => input "Uptime Kuma password: " p1
                      end in
      match r2 with
      | Return password => (Return (username, password), p2)
      | Raise e => (Raise e, p2)
      | SysExit c => (SysExit c, p2)
      end
  | Raise e => (Raise e, p1)
  | SysExit c => (SysExit c, p1)
  end.

(* ====================================================================== *)
(** ** [load_config_from_env] (lines 617-661) *)
(* ====================================================================== *)

(** The loops of lines 631-639 and 642-650, which differ in the prefix of
    the variable names ([TRAEFIK_], [DOCKER_]) and in the default group
    ([Traefik i], [Docker i]).  [while True] has no bound: [fuel] is the
    number of iterations allowed, and the result is [None] when they
    do not suffice. *)
Fixpoint load_servers (environ : list (string * string)) (prefix label : string)
         (fuel : nat) (i : nat) (servers : list Server) : option (list Server) :=
  match fuel with
  | O => None
  | S fuel' =>
      let url := getenv environ (prefix ++ str_of_nat i ++ "_URL") in
      if negb (truthy_opt url) then Some servers
      else
        let url := match url with Some u => u | None => "" end in
        let group := getenv_default environ (prefix ++ str_of_nat i ++ "_GROUP")
                                    (label ++ str_of_nat i) in
        load_servers environ prefix label fuel' (S i)
                     (servers ++ [mkServer url group])
  end.

(** The comprehension of line 655. *)
Definition parse_ignore_patterns (ignore_patterns_str : string) : list string :=
  map PyStr.strip
      (filter (fun p => PyStr.truthy (PyStr.strip p)) (split_commas ignore_patterns_str)).

(** What the function reads from the environment once [load_dotenv] has
    run (lines 621-661). *)
Definition read_config (environ : list (string * string)) (fuel : nat) : option Config :=
  match load_servers environ "TRAEFIK_" "Traefik " fuel 1 [] with
  | None => None
  | Some traefik_servers =>
      match load_servers environ "DOCKER_" "Docker " fuel 1 [] with
      | None => None
      | Some docker_servers =>
          let ignore_patterns_str := getenv_default environ "IGNORE_PATTERNS" "" in
          let ignore_patterns :=
            if PyStr.truthy ignore_patterns_str
            then parse_ignore_patterns ignore_patterns_str
            else [] in
          let reset_tags_str := PyStr.lower (getenv_default environ "RESET_TAGS" "false") in
          let reset_tags :=
            existsb (String.eqb reset_tags_str) ["true"; "1"; "yes"] in
          Some (mkConfig (getenv environ "UPTIME_KUMA_URL")
                         (getenv environ "UPTIME_KUMA_USERNAME")
                         (getenv environ "UPTIME_KUMA_PASSWORD")
                         traefik_servers docker_servers ignore_patterns reset_tags)
      end
  end.

Definition load_config_from_env (fuel : nat) (p : Process) : option Config * Process :=
  let p := load_dotenv p in
  (read_config (environ p) fuel, p).

(* ====================================================================== *)
(** ** [main] (lines 663-743) *)
(* ====================================================================== *)

(** The configuration when there is no environment file (lines 693-701). *)
Definition empty_config : Config :=
  mkConfig None None None [] [] [] false.

(** [main], from the parsed command line on.  The result is [None] when
    [fuel] does not suffice for the loops of [load_config_from_env]. *)
Definition main (fuel : nat) (args : Args) (p : Process)
  : option (Outcome unit * Process) :=
  let (loaded, p) := if path_exists p (args_env_file args)
                     then load_config_from_env fuel p
                     else (Some empty_config, p) in
  match loaded with
  | None => None
  | Some config =>
      let uptime_url := py_or (args_uptime_url args) (config_uptime_url config) in
      let username := py_or (args_username args) (config_username config) in
      let password := py_or (args_password args) (config_password config) in
      let traefik_servers := config_traefik_servers config in
      let docker_servers := config_docker_servers config in
      let ignore_patterns := config_ignore_patterns config in
      let reset_tags := config_reset_tags config in
      Some
        match uptime_url with
        | Some uptime_url =>
            if negb (PyStr.truthy uptime_url)
            then (SysExit 1, notify ErrorUrlRequired p)
            else
              match traefik_servers, docker_servers with
              | [], [] => (SysExit 1, notify ErrorNoServer p)
              | _, _ =>
                  match get_uptime_credentials username password p with
                  | (Return (username, password), p) =>
                      on_world (sync_monitors uptime_url traefik_servers docker_servers
                                              username password ignore_patterns
                                              reset_tags) p
                  | (Raise e, p) => (Raise e, p)
                  | (SysExit c, p) => (SysExit c, p)
                  end
              end
        | None => (SysExit 1, notify ErrorUrlRequired p)
        end
  end.

(* ====================================================================== *)
(** * Vocabulary of the statements *)
(* ====================================================================== *)

Local Open Scope list_scope.

(** ** Properties of computations *)

(** Every run of [m] takes the world to one related by [R]. *)
Definition steps (R : World -> World -> Prop) {A} (m : M A) : Prop :=
  forall w, R w (snd (m w)).

(** [m] never ends in an uncaught [Exception]. *)
Definition no_raise {A} (m : M A) : Prop :=
  forall w e, fst (m w) <> Raise e.

(** [m] never ends the process. *)
Definition no_exit {A} (m : M A) : Prop :=
  forall w c, fst (m w) <> SysExit c.

(** [w'] is [w] after some more calls, all of which satisfy [P]. *)
Definition extends (P : Call -> Prop) (w w' : World) : Prop :=
  exists l, calls w' = calls w ++ l /\ Forall P l.

(** Every call [m] makes satisfies [P]. *)
Definition emits (P : Call -> Prop) {A} (m : M A) : Prop :=
  steps (extends P) m.

(** ** Kinds of calls and of printed lines *)

(** The calls of [ensure_authenticated]. *)
Definition is_reauth_call (uptime_url username password : string) (c : Call) : Prop :=
  c = CDisconnect \/ c = CConnect uptime_url \/ c = CLogin username password.

(** The call attaches a tag identifier that is present (neither [None]
    nor [0]) and is one of [tag_ids], to the monitor [monitor_id]. *)
Definition adds_present_tag (monitor_id : Z) (tag_ids : list (option Z)) (c : Call)
  : Prop :=
  exists t, c = CAddMonitorTag (Some t) monitor_id ""
            /\ t <> 0 /\ In (Some t) tag_ids.

(** The call that removes [tag] from the monitor [monitor_id]. *)
Definition removal_call (monitor_id : Z) (tag : TagRef) : Call :=
  CDeleteMonitorTag (tagref_tag_id tag) monitor_id (tagref_value tag).

(** The monitor [m] once the service has detached [tags] from the
    monitor [id]. *)
Definition without_tags (id : Z) (tags : list TagRef) (m : Monitor) : Monitor :=
  fold_left (fun m tag => detach_tag id tag m) tags m.

(** The service has the same monitors in [w'] as in [w], as far as their
    URLs go. *)
Definition same_urls (w w' : World) : Prop :=
  map monitor_url (srv_monitors w') = map monitor_url (srv_monitors w).

(** Every call but the creation and the deletion of a monitor. *)
Definition housekeeping (c : Call) : Prop :=
  match c with
  | CAddMonitor _ | CDeleteMonitor _ => False
  | _ => True
  end.

(** The lines that report a tag removal as failed (lines 342 and 345). *)
Definition is_removal_failure (o : Output) : Prop :=
  match o with
  | FailedAfterReauth _ | WarnRemoveTag _ => True
  | _ => False
  end.

(** The lines printed by the deletions of the pruning: one per deletion
    that the fault script makes fail. *)
Fixpoint removal_failures (to_remove : list Monitor) (fs : list (option string))
  : list Output :=
  match to_remove, fs with
  | m :: ms, Some e :: fs' => RemoveFailed (monitor_id m) e :: removal_failures ms fs'
  | m :: ms, None :: fs' => removal_failures ms fs'
  | _, _ => []
  end.

(** ** Retries *)

(** The shape of a retry: when the first [attempt] raises a session error,
    [reauth] runs and [attempt] runs once more; the outcome of that second
    attempt settles the operation, a failure being turned into a normal
    result by [abandon].  The operation ends the process only when the
    re-authentication does, with status 1. *)
Definition retries_once {T R} (op : M R) (attempt : M T) (reauth : M unit)
           (ok : T -> R) (abandon : string -> M R) : Prop :=
  forall w e1 w1,
    attempt w = (Raise e1, w1) ->
    session_expired (PyStr.lower e1) = true ->
    match reauth w1 with
    | (Return _, w2) =>
        match attempt w2 with
        | (Return t, w3) => op w = (Return (ok t), w3)
        | (Raise e2, w3) =>
            op w = abandon e2 w3 /\ exists r, fst (abandon e2 w3) = Return r
        | (SysExit c, w3) => op w = (SysExit c, w3)
        end
    | (SysExit c, w2) => op w = (SysExit c, w2) /\ c = 1
    | (Raise e, w2) => False
    end.

(** The tag that a lookup by name finds in the service. *)
Definition tag_of_name (tag_name : string) (w : World) : option Tag :=
  find (fun tag => String.eqb (tagrec_name tag) tag_name) (srv_tags w).

(** ** Router rules and discovery replies *)

(** Strictly ascending order on strings. *)
Definition str_lt (a b : string) : Prop := String.ltb a b = true.

(** [s] has no backtick. *)
Fixpoint backtick_free (s : string) : Prop :=
  match s with
  | EmptyString => True
  | String c s' => c <> "`"%char /\ backtick_free s'
  end.

(** The text [Host(`name`)], with a non-empty [name] free of backticks,
    stands in [rule] right after [pre]. *)
Definition host_pattern_at (rule pre name post : string) : Prop :=
  rule = (pre ++ "Host(`" ++ name ++ "`)" ++ post)%string
  /\ name <> EmptyString /\ backtick_free name.

(** [name] is the name of the leftmost such text in [rule]. *)
Definition first_host_pattern (rule name : string) : Prop :=
  exists pre post,
    host_pattern_at rule pre name post
    /\ forall pre' name' post',
        host_pattern_at rule pre' name' post' ->
        (String.length pre <= String.length pre')%nat.

(** The router [router_config] contributes the identifier [h]: its entry
    points include [https] and [h] is [https://] followed by the name of
    the leftmost [Host(`name`)] of its rule. *)
Definition router_contributes (router_config : Router) (h : string) : Prop :=
  (exists l, entryPoints router_config = Some l /\ In "https" l)
  /\ exists r name,
      rule router_config = Some r
      /\ first_host_pattern r name
      /\ h = ("https://" ++ name)%string.

(** The fetch of the router list or its decoding fails. *)
Definition fetch_failed (r : Response) : Prop :=
  match r with
  | ConnectionError _ => True
  | Reply status body =>
      400 <= status < 600 \/ body = NotJson \/ exists cs, body = Containers cs
  end.

(** ** Concrete worlds *)

(** One Traefik instance with one HTTPS router. *)
Definition edge_net (url : string) : Response :=
  if String.eqb url "http://traefik/api/rawdata"
  then Reply 200 (RawData (Some [("r1", mkRouter (Some ["https"])
                                                 (Some "Host(`a.example.com`)"))]))
  else ConnectionError "connection refused".

(** An empty service, that Traefik instance, and a session that expires
    twice in a row on the first [add_monitor_tag]. *)
Definition expiring_world : World :=
  mkWorld [] [] [] 1 edge_net
          [ None; None; None;              (* connect, login, get_monitors *)
            None; None;                    (* tag traefik: lookup, creation *)
            None; None;                    (* tag of the group: lookup, creation *)
            None;                          (* add_monitor *)
            Some "Not logged in";          (* add_monitor_tag, first attempt *)
            None; None; None;              (* re-authentication *)
            Some "Not logged in" ]         (* add_monitor_tag, second attempt *)
          [] [].

(** A Docker daemon that runs a container [test-db]. *)
Definition ignore_net (url : string) : Response :=
  if String.eqb url "http://docker:2375/containers/json"
  then Reply 200 (Containers [mkContainer (Some ["/test-db"])])
  else ConnectionError "connection refused".

(** A service that knows the Docker host [prod-docker] and watches the
    container [test-db] of another host, with that Docker daemon. *)
Definition ignore_world : World :=
  mkWorld [mkMonitor 1 "test-db" DOCKER None (Some 9) []] []
          [mkDockerHost 7 "prod-docker"] 2 ignore_net [] [] [].

(** The service as a run leaves it, seen by the next run: same data, a
    session without faults, empty logs. *)
Definition next_run (w : World) : World :=
  mkWorld (srv_monitors w) (srv_tags w) (srv_docker_hosts w) (srv_next_id w) (net w)
          [] [] [].

(** Two Docker daemons, each running a container [web]. *)
Definition twin_docker_net (url : string) : Response :=
  if String.eqb url "http://docker-a:2375/containers/json"
     || String.eqb url "http://docker-b:2375/containers/json"
  then Reply 200 (Containers [mkContainer (Some ["/web"])])
  else ConnectionError "connection refused".

(** A service with the Docker host [prod-docker] and no monitor, with
    those two daemons. *)
Definition twin_docker_world : World :=
  mkWorld [] [] [mkDockerHost 7 "prod-docker"] 1 twin_docker_net [] [] [].

(** Two Traefik instances that both route [a.example.com]. *)
Definition twin_traefik_net (url : string) : Response :=
  if String.eqb url "http://traefik-a/api/rawdata"
     || String.eqb url "http://traefik-b/api/rawdata"
  then Reply 200 (RawData (Some [("r1", mkRouter (Some ["https"])
                                                 (Some "Host(`a.example.com`)"))]))
  else ConnectionError "connection refused".

(** An empty service with those two instances. *)
Definition twin_traefik_world : World :=
  mkWorld [] [] [] 1 twin_traefik_net [] [] [].

(** ** Patterns *)

(** [s] has none of the characters that [fnmatch] gives a meaning to. *)
Fixpoint wildcard_free (s : string) : Prop :=
  match s with
  | EmptyString => True
  | String c s' =>
      c <> "*"%char /\ c <> "?"%char /\ c <> "["%char /\ wildcard_free s'
  end.

(** [s] has no comma. *)
Fixpoint comma_free (s : string) : Prop :=
  match s with
  | EmptyString => True
  | String c s' => c <> ","%char /\ comma_free s'
  end.

(** Ascending order on strings, as [sorted] leaves them. *)
Definition str_le (a b : string) : Prop := String.leb a b = true.

(** The name that a container contributes (lines 55-59): the first of its
    names, without its leading slashes. *)
Definition first_name (container : Container) : list string :=
  match Names container with
  | Some (first :: _) => [PyStr.lstrip_char "/" first]
  | _ => []
  end.


(** ** Invariants of the service *)

(** A relation between the world before and the world after that the
    bookkeeping of a client call respects: it is a preorder, and logging a
    call, consuming the fault script or printing a line stays within it. *)
Record frame (R : World -> World -> Prop) : Prop := mkFrame {
  frame_refl : forall w, R w w;
  frame_trans : forall a b c, R a b -> R b c -> R a c;
  frame_faults : forall fs w, R w (set_faults fs w);
  frame_output : forall o w, R w (log_output o w);
  frame_call : forall c w, R w (log_call c w)
}.

(** What identifies a monitor: everything but its tags. *)
Definition monitor_identity (m : Monitor)
  : Z * string * MonitorType * option string * option Z :=
  (monitor_id m, monitor_name m, monitor_type m, monitor_url m, monitor_docker_host m).

(** The monitors of [w] are all in [w'], in the same order and the same
    but for their tags; the others come after them. *)
Definition monitors_kept (w w' : World) : Prop :=
  exists created,
    map monitor_identity (srv_monitors w')
    = map monitor_identity (srv_monitors w) ++ created.

(** [m'] is [m] with some more tags. *)
Definition tags_extended (m m' : Monitor) : Prop :=
  monitor_identity m' = monitor_identity m
  /\ exists added, monitor_tags m' = monitor_tags m ++ added.

(** The monitors of [w] are all in [w'], in the same order, each with the
    tags it had and possibly more; the others come after them. *)
Definition tags_kept (w w' : World) : Prop :=
  exists old created,
    srv_monitors w' = old ++ created
    /\ Forall2 tags_extended (srv_monitors w) old.

(** The service holds the same data in [w'] as in [w]. *)
Definition same_service (w w' : World) : Prop :=
  srv_monitors w' = srv_monitors w
  /\ srv_tags w' = srv_tags w
  /\ srv_docker_hosts w' = srv_docker_hosts w
  /\ srv_next_id w' = srv_next_id w.

(** The service holds the same monitors and Docker hosts in [w'] as in
    [w]. *)
Definition same_monitors (w w' : World) : Prop :=
  srv_monitors w' = srv_monitors w
  /\ srv_docker_hosts w' = srv_docker_hosts w.

(** [m] ends the process only with status 1. *)
Definition exits_one {A} (m : M A) : Prop :=
  forall w c, fst (m w) = SysExit c -> c = 1.

(** No two tags of the service have the same name. *)
Definition tag_names_distinct (w : World) : Prop :=
  NoDup (map tagrec_name (srv_tags w)).

(** The tags of [w] are all in [w'], unchanged and in the same order; the
    others come after them, under names that differ from one another and
    from those of the tags of [w]. *)
Definition tags_grow (w w' : World) : Prop :=
  exists created,
    srv_tags w' = srv_tags w ++ created
    /\ NoDup (map tagrec_name created)
    /\ forall name, In name (map tagrec_name created) ->
                    ~ In name (map tagrec_name (srv_tags w)).

(** The service has as many monitors in [w'] as in [w]. *)
Definition same_count (w w' : World) : Prop :=
  List.length (srv_monitors w') = List.length (srv_monitors w).

(** The service has [k] more monitors in [w'] than in [w]. *)
Definition grown_by (k : Z) (w w' : World) : Prop :=
  Z.of_nat (List.length (srv_monitors w'))
  = Z.of_nat (List.length (srv_monitors w)) + k.

(** ** The effect of tagging on the service *)

(** The tags that [add_tags_to_monitor] asks the service to attach for
    [tag_ids]: one, with an empty value, for each identifier that is
    present. *)
Definition present_tags (tag_ids : list (option Z)) : list TagRef :=
  flat_map (fun tag_id => if truthy_id tag_id
                          then match tag_id with
                               | Some t => [mkTagRef t ""]
                               | None => []
                               end
                          else []) tag_ids.

(** The monitor [m] once the service has attached [tags] to the monitor
    [id]. *)
Definition with_tags (id : Z) (tags : list TagRef) (m : Monitor) : Monitor :=
  fold_left (fun m tag => attach_tag id tag m) tags m.

(** The calls that attach [tags] to the monitor [id]. *)
Definition tag_calls (id : Z) (tags : list TagRef) : list Call :=
  map (fun tag => CAddMonitorTag (Some (tagref_tag_id tag)) id (tagref_value tag)) tags.

(** The calls that detach [tags] from the monitor [id]. *)
Definition untag_calls (id : Z) (tags : list TagRef) : list Call :=
  map (removal_call id) tags.

(** ** More concrete worlds *)

(** A Docker daemon with four containers, one of them without a name. *)
Definition fleet_net (url : string) : Response :=
  if String.eqb url "http://docker:2375/containers/json"
  then Reply 200 (Containers [mkContainer (Some ["/web"; "/web-alias"]);
                              mkContainer (Some ["/api"]);
                              mkContainer None;
                              mkContainer (Some ["//db"])])
  else ConnectionError "connection refused".

(** A service without monitors that knows the Docker host [prod-docker],
    with that daemon. *)
Definition fleet_world : World :=
  mkWorld [] [] [mkDockerHost 7 "prod-docker"] 1 fleet_net [] [] [].

(** A service that refuses the login. *)
Definition refused_login_world : World :=
  mkWorld [] [] [] 1 edge_net [None; Some "Incorrect username or password"] [] [].

(** A service with one monitor that carries the tag 1, and no fault
    pending. *)
Definition tagged_monitor : Monitor :=
  mkMonitor 3 "a.example.com" HTTP (Some "https://a.example.com") None [mkTagRef 1 ""].

Definition tagged_world : World :=
  mkWorld [tagged_monitor] [mkTag 1 "traefik" "#4299e1"; mkTag 2 "edge" "#4299e1"]
          [] 4 edge_net [] [] [].

(** An environment with two Traefik servers numbered 1 and 2, and a third
    one numbered 4, after a gap. *)
Definition gapped_environ : list (string * string) :=
  [ ("TRAEFIK_1_URL", "http://traefik-a");
    ("TRAEFIK_2_URL", "http://traefik-b");
    ("TRAEFIK_2_GROUP", "internal");
    ("TRAEFIK_4_URL", "http://traefik-d") ].

(** A process started with the credentials in its environment, whose
    environment file gives the URL of the service and one Traefik
    server. *)
Definition configured_process : Process :=
  mkProcess [ ("UPTIME_KUMA_USERNAME", "admin"); ("UPTIME_KUMA_PASSWORD", "secret") ]
            [ ("UPTIME_KUMA_URL", "http://kuma");
              ("TRAEFIK_1_URL", "http://traefik");
              ("TRAEFIK_1_GROUP", "edge");
              ("IGNORE_PATTERNS", "*.internal.example.com, test-*") ]
            (fun path => String.eqb path ".env")
            [] []
            (mkWorld [] [] [] 1 edge_net [] [] []).

(** The same process in a directory without environment file. *)
Definition bare_process : Process :=
  mkProcess [ ("UPTIME_KUMA_USERNAME", "admin"); ("UPTIME_KUMA_PASSWORD", "secret") ]
            []
            (fun path => false)
            [] []
            (mkWorld [] [] [] 1 edge_net [] [] []).

(* ====================================================================== *)
(** * Reasoning about the script *)
(* ====================================================================== *)

(** ** Relations between the world before and after a computation *)

Section Steps.

Variable R : World -> World -> Prop.
Hypothesis R_refl : forall w, R w w.
Hypothesis R_trans : forall a b c, R a b -> R b c -> R a c.

Lemma steps_ret {A} (a : A) : steps R (ret a).
Proof. intro w. apply R_refl. Qed.

Lemma steps_raise {A} (e : string) : steps R (@raise A e).
Proof. intro w. apply R_refl. Qed.

Lemma steps_sys_exit {A} (c : Z) : steps R (@sys_exit A c).
Proof. intro w. apply R_refl. Qed.

Lemma steps_bind {A B} (m : M A) (k : A -> M B) :
  steps R m -> (forall a, steps R (k a)) -> steps R (bind m k).
Proof.
  intros Hm Hk w. unfold bind. specialize (Hm w).
  destruct (m w) as [[a|e|c] w1]; simpl in *; auto.
  eapply R_trans; [exact Hm | apply Hk].
Qed.

Lemma steps_try_except {A} (body : M A) (handler : string -> M A) :
  steps R body -> (forall e, steps R (handler e)) -> steps R (try_except body handler).
Proof.
  intros Hb Hh w. unfold try_except. specialize (Hb w).
  destruct (body w) as [[a|e|c] w1]; simpl in *; auto.
  eapply R_trans; [exact Hb | apply Hh].
Qed.

Lemma steps_try_pass (body : M unit) : steps R body -> steps R (try_pass body).
Proof.
  intros Hb w. unfold try_pass. specialize (Hb w).
  destruct (body w) as [o w1]; simpl in *; auto.
Qed.

Lemma steps_try_finally {A} (body : M A) (fin : M unit) :
  steps R body -> steps R fin -> steps R (try_finally body fin).
Proof.
  intros Hb Hf w. unfold try_finally. specialize (Hb w).
  destruct (body w) as [o w1]; simpl in *.
  specialize (Hf w1).
  destruct (fin w1) as [[u|e|c] w2]; simpl in *; eapply R_trans; eauto.
Qed.

Lemma steps_for_in {A B} (xs : list A) (body : A -> M (Ctl B)) :
  (forall x, In x xs -> steps R (body x)) -> steps R (for_in xs body).
Proof.
  induction xs as [|x xs IH]; intros Hb; simpl.
  - apply steps_ret.
  - apply steps_bind.
    + apply Hb. now left.
    + intros [| |r]; try apply steps_ret.
      apply IH. intros y Hy. apply Hb. now right.
Qed.

Lemma steps_for_each {A} (xs : list A) (body : A -> M unit) :
  (forall x, In x xs -> steps R (body x)) -> steps R (for_each xs body).
Proof.
  induction xs as [|x xs IH]; intros Hb; simpl.
  - apply steps_ret.
  - apply steps_bind.
    + apply Hb. now left.
    + intros _. apply IH. intros y Hy. apply Hb. now right.
Qed.

Lemma steps_for_fold {A S} (xs : list A) (s : S) (body : A -> S -> M S) :
  (forall x s, In x xs -> steps R (body x s)) -> steps R (for_fold xs s body).
Proof.
  revert s. induction xs as [|x xs IH]; intros s Hb; simpl.
  - apply steps_ret.
  - apply steps_bind.
    + apply Hb. now left.
    + intros s'. apply IH. intros y s'' Hy. apply Hb. now right.
Qed.

(** What the primitives need: [R] ignores the fault script and the
    printed lines. *)
Hypothesis R_faults : forall fs w, R w (set_faults fs w).
Hypothesis R_output : forall o w, R w (log_output o w).

Lemma steps_print (o : Output) : steps R (print o).
Proof. intro w. apply R_output. Qed.

Lemma steps_api_call {A} (c : Call) (op : M A) :
  (forall w, R w (log_call c w)) -> steps R op -> steps R (api_call c op).
Proof.
  intros Hc Hop w. unfold api_call.
  destruct (faults (log_call c w)) as [|[e|] rest] eqn:E; simpl.
  - eapply R_trans; [apply Hc | apply Hop].
  - eapply R_trans; [apply Hc | apply R_faults].
  - eapply R_trans; [apply Hc |].
    eapply R_trans; [apply R_faults | apply Hop].
Qed.

Lemma steps_requests_get (url : string) : steps R (requests_get url).
Proof. intro w. unfold requests_get. destruct (net w url); apply R_refl. Qed.

End Steps.

(** ** Computations that never end in an uncaught [Exception] *)

Lemma no_raise_ret {A} (a : A) : no_raise (ret a).
Proof. intros w e. discriminate. Qed.

Lemma no_raise_sys_exit {A} (c : Z) : no_raise (@sys_exit A c).
Proof. intros w e. discriminate. Qed.

Lemma no_raise_print (o : Output) : no_raise (print o).
Proof. intros w e. discriminate. Qed.

Lemma no_raise_bind {A B} (m : M A) (k : A -> M B) :
  no_raise m -> (forall a, no_raise (k a)) -> no_raise (bind m k).
Proof.
  intros Hm Hk w e. unfold bind. specialize (Hm w).
  destruct (m w) as [[a|e'|c] w1]; simpl in *.
  - apply Hk.
  - now destruct (Hm e').
  - discriminate.
Qed.

Lemma no_raise_try_except {A} (body : M A) (handler : string -> M A) :
  (forall e, no_raise (handler e)) -> no_raise (try_except body handler).
Proof.
  intros Hh w e. unfold try_except.
  destruct (body w) as [[a|e'|c] w1]; simpl; try discriminate.
  apply Hh.
Qed.

Lemma no_raise_try_pass (body : M unit) : no_raise (try_pass body).
Proof. intros w e. unfold try_pass. destruct (body w). discriminate. Qed.

Lemma no_raise_for_in {A B} (xs : list A) (body : A -> M (Ctl B)) :
  (forall x, no_raise (body x)) -> no_raise (for_in xs body).
Proof.
  intros Hb. induction xs as [|x xs IH]; simpl.
  - apply no_raise_ret.
  - apply no_raise_bind; [apply Hb|].
    intros [| |r]; auto using no_raise_ret.
Qed.

Lemma no_raise_for_each {A} (xs : list A) (body : A -> M unit) :
  (forall x, no_raise (body x)) -> no_raise (for_each xs body).
Proof.
  intros Hb. induction xs as [|x xs IH]; simpl.
  - apply no_raise_ret.
  - apply no_raise_bind; auto.
Qed.

Lemma no_raise_for_fold {A S} (xs : list A) (s : S) (body : A -> S -> M S) :
  (forall x s, no_raise (body x s)) -> no_raise (for_fold xs s body).
Proof.
  intros Hb. revert s. induction xs as [|x xs IH]; intros s; simpl.
  - apply no_raise_ret.
  - apply no_raise_bind; auto.
Qed.

(** ** The calls a computation makes *)

Lemma extends_refl (P : Call -> Prop) (w : World) : extends P w w.
Proof. exists []. split; [now rewrite app_nil_r | constructor]. Qed.

Lemma extends_trans (P : Call -> Prop) (a b c : World) :
  extends P a b -> extends P b c -> extends P a c.
Proof.
  intros [l1 [E1 F1]] [l2 [E2 F2]]. exists (l1 ++ l2). split.
  - now rewrite E2, E1, app_assoc.
  - apply Forall_app. now split.
Qed.

Lemma extends_same_calls (P : Call -> Prop) (w w' : World) :
  calls w' = calls w -> extends P w w'.
Proof. intros E. exists []. split; [now rewrite app_nil_r | constructor]. Qed.

Lemma extends_weaken (P Q : Call -> Prop) (w w' : World) :
  (forall c, P c -> Q c) -> extends P w w' -> extends Q w w'.
Proof.
  intros H [l [E F]]. exists l. split; [exact E|].
  eapply Forall_impl; eauto.
Qed.

Lemma emits_weaken (P Q : Call -> Prop) {A} (m : M A) :
  (forall c, P c -> Q c) -> emits P m -> emits Q m.
Proof. intros H Hm w. eapply extends_weaken; eauto. Qed.

Section Emits.

Variable P : Call -> Prop.

Lemma emits_ret {A} (a : A) : emits P (ret a).
Proof. apply steps_ret, extends_refl. Qed.

Lemma emits_raise {A} (e : string) : emits P (@raise A e).
Proof. apply steps_raise, extends_refl. Qed.

Lemma emits_sys_exit {A} (c : Z) : emits P (@sys_exit A c).
Proof. apply steps_sys_exit, extends_refl. Qed.

Lemma emits_print (o : Output) : emits P (print o).
Proof. intro w. now apply extends_same_calls. Qed.

Lemma emits_requests_get (url : string) : emits P (requests_get url).
Proof. apply steps_requests_get, extends_refl. Qed.

Lemma emits_bind {A B} (m : M A) (k : A -> M B) :
  emits P m -> (forall a, emits P (k a)) -> emits P (bind m k).
Proof. apply steps_bind, extends_trans. Qed.

Lemma emits_try_except {A} (body : M A) (handler : string -> M A) :
  emits P body -> (forall e, emits P (handler e)) ->
  emits P (try_except body handler).
Proof. apply steps_try_except, extends_trans. Qed.

Lemma emits_try_pass (body : M unit) : emits P body -> emits P (try_pass body).
Proof. apply steps_try_pass. Qed.

Lemma emits_try_finally {A} (body : M A) (fin : M unit) :
  emits P body -> emits P fin -> emits P (try_finally body fin).
Proof. apply steps_try_finally, extends_trans. Qed.

Lemma emits_for_in {A B} (xs : list A) (body : A -> M (Ctl B)) :
  (forall x, In x xs -> emits P (body x)) -> emits P (for_in xs body).
Proof. apply steps_for_in; [apply extends_refl | apply extends_trans]. Qed.

Lemma emits_for_each {A} (xs : list A) (body : A -> M unit) :
  (forall x, In x xs -> emits P (body x)) -> emits P (for_each xs body).
Proof. apply steps_for_each; [apply extends_refl | apply extends_trans]. Qed.

Lemma emits_for_fold {A S} (xs : list A) (s : S) (body : A -> S -> M S) :
  (forall x s, In x xs -> emits P (body x s)) -> emits P (for_fold xs s body).
Proof. apply steps_for_fold; [apply extends_refl | apply extends_trans]. Qed.

(** A client call whose effect on the service leaves the log alone. *)
Lemma emits_api_call {A} (c : Call) (op : M A) :
  P c -> (forall w, calls (snd (op w)) = calls w) -> emits P (api_call c op).
Proof.
  intros Hc Hop. apply steps_api_call.
  - apply extends_trans.
  - intros fs w. now apply extends_same_calls.
  - intros w. exists [c]. split; [reflexivity | now constructor].
  - intros w. apply extends_same_calls, Hop.
Qed.

Lemma emits_api_connect (url : string) :
  P (CConnect url) -> emits P (api_connect url).
Proof. intros H. now apply emits_api_call. Qed.

Lemma emits_api_disconnect : P CDisconnect -> emits P api_disconnect.
Proof. intros H. now apply emits_api_call. Qed.

Lemma emits_api_login (u p : string) : P (CLogin u p) -> emits P (api_login u p).
Proof. intros H. now apply emits_api_call. Qed.

Lemma emits_api_get_monitors : P CGetMonitors -> emits P api_get_monitors.
Proof. intros H. now apply emits_api_call. Qed.

Lemma emits_api_delete_monitor (id : Z) :
  P (CDeleteMonitor id) -> emits P (api_delete_monitor id).
Proof. intros H. now apply emits_api_call. Qed.

Lemma emits_api_add_monitor (cfg : MonitorConfig) :
  P (CAddMonitor cfg) -> emits P (api_add_monitor cfg).
Proof. intros H. now apply emits_api_call. Qed.

Lemma emits_api_get_tags : P CGetTags -> emits P api_get_tags.
Proof. intros H. now apply emits_api_call. Qed.

Lemma emits_api_add_tag (name color : string) :
  P (CAddTag name color) -> emits P (api_add_tag name color).
Proof. intros H. now apply emits_api_call. Qed.

Lemma emits_api_add_monitor_tag (t : option Z) (m : Z) (v : string) :
  P (CAddMonitorTag t m v) -> emits P (api_add_monitor_tag t m v).
Proof. intros H. apply emits_api_call; [exact H|]. intros w. now destruct t. Qed.

Lemma emits_api_delete_monitor_tag (t m : Z) (v : string) :
  P (CDeleteMonitorTag t m v) -> emits P (api_delete_monitor_tag t m v).
Proof. intros H. now apply emits_api_call. Qed.

Lemma emits_api_get_docker_hosts : P CGetDockerHosts -> emits P api_get_docker_hosts.
Proof. intros H. now apply emits_api_call. Qed.

End Emits.

(** One structural step of a proof of [emits]. *)
Ltac emits_step :=
  match goal with
  | |- emits _ (ret _) => apply emits_ret
  | |- emits _ (raise _) => apply emits_raise
  | |- emits _ (sys_exit _) => apply emits_sys_exit
  | |- emits _ (print _) => apply emits_print
  | |- emits _ (requests_get _) => apply emits_requests_get
  | |- emits _ (bind _ _) => apply emits_bind; [| intros ?]
  | |- emits _ (try_except _ _) => apply emits_try_except; [| intros ?]
  | |- emits _ (try_pass _) => apply emits_try_pass
  | |- emits _ (try_finally _ _) => apply emits_try_finally
  | |- emits _ (for_in _ _) => apply emits_for_in; intros ? ?
  | |- emits _ (for_each _ _) => apply emits_for_each; intros ? ?
  | |- emits _ (for_fold _ _ _) => apply emits_for_fold; intros ? ? ?
  | |- emits _ (api_connect _) => apply emits_api_connect
  | |- emits _ api_disconnect => apply emits_api_disconnect
  | |- emits _ (api_login _ _) => apply emits_api_login
  | |- emits _ api_get_monitors => apply emits_api_get_monitors
  | |- emits _ (api_delete_monitor _) => apply emits_api_delete_monitor
  | |- emits _ (api_add_monitor _) => apply emits_api_add_monitor
  | |- emits _ api_get_tags => apply emits_api_get_tags
  | |- emits _ (api_add_tag _ _) => apply emits_api_add_tag
  | |- emits _ (api_add_monitor_tag _ _ _) => apply emits_api_add_monitor_tag
  | |- emits _ (api_delete_monitor_tag _ _ _) => apply emits_api_delete_monitor_tag
  | |- emits _ api_get_docker_hosts => apply emits_api_get_docker_hosts
  | |- emits _ (if ?b then _ else _) => destruct b eqn:?
  | |- emits _ (match ?x with _ => _ end) => destruct x eqn:?
  | |- emits _ (let _ := _ in _) => cbv zeta
  end.

Ltac emits_auto := repeat emits_step.

(** ** Calls of the re-authentication and of the tag helpers *)

Lemma ensure_authenticated_emits (P : Call -> Prop) (url u p : string) :
  (forall c, is_reauth_call url u p c -> P c) ->
  emits P (ensure_authenticated url u p).
Proof.
  intros H. unfold ensure_authenticated. emits_auto;
    apply H; unfold is_reauth_call; auto.
Qed.

Lemma ensure_authenticated_no_raise (url u p : string) :
  no_raise (ensure_authenticated url u p).
Proof.
  unfold ensure_authenticated.
  apply no_raise_bind; [apply no_raise_print | intros _].
  apply no_raise_bind; [apply no_raise_try_except; intros; apply no_raise_print | intros _].
  apply no_raise_try_except. intros e.
  apply no_raise_bind; [apply no_raise_print | intros; apply no_raise_sys_exit].
Qed.

(** ** Computations that never call [sys.exit] *)

Lemma no_exit_ret {A} (a : A) : no_exit (ret a).
Proof. intros w c. discriminate. Qed.

Lemma no_exit_raise {A} (e : string) : no_exit (@raise A e).
Proof. intros w c. discriminate. Qed.

Lemma no_exit_print (o : Output) : no_exit (print o).
Proof. intros w c. discriminate. Qed.

Lemma no_exit_bind {A B} (m : M A) (k : A -> M B) :
  no_exit m -> (forall a, no_exit (k a)) -> no_exit (bind m k).
Proof.
  intros Hm Hk w c. unfold bind. specialize (Hm w).
  destruct (m w) as [[a|e|c'] w1]; simpl in *.
  - apply Hk.
  - discriminate.
  - now destruct (Hm c').
Qed.

Lemma no_exit_try_except {A} (body : M A) (handler : string -> M A) :
  no_exit body -> (forall e, no_exit (handler e)) -> no_exit (try_except body handler).
Proof.
  intros Hb Hh w c. unfold try_except. specialize (Hb w).
  destruct (body w) as [[a|e|c'] w1]; simpl in *; try discriminate.
  - apply Hh.
  - now destruct (Hb c').
Qed.

Lemma no_exit_for_in {A B} (xs : list A) (body : A -> M (Ctl B)) :
  (forall x, no_exit (body x)) -> no_exit (for_in xs body).
Proof.
  intros Hb. induction xs as [|x xs IH]; simpl.
  - apply no_exit_ret.
  - apply no_exit_bind; [apply Hb|].
    intros [| |r]; auto using no_exit_ret.
Qed.

Lemma no_exit_for_each {A} (xs : list A) (body : A -> M unit) :
  (forall x, no_exit (body x)) -> no_exit (for_each xs body).
Proof.
  intros Hb. induction xs as [|x xs IH]; simpl.
  - apply no_exit_ret.
  - apply no_exit_bind; auto.
Qed.

Lemma no_exit_api_call {A} (c : Call) (op : M A) :
  no_exit op -> no_exit (api_call c op).
Proof.
  intros Hop w x. unfold api_call.
  destruct (faults (log_call c w)) as [|[e|] rest]; simpl; try apply Hop.
  discriminate.
Qed.

Lemma no_exit_api_add_monitor_tag (t : option Z) (m : Z) (v : string) :
  no_exit (api_add_monitor_tag t m v).
Proof.
  apply no_exit_api_call. intros w c. destruct t; discriminate.
Qed.

(** A computation that neither raises nor exits returns. *)
Lemma returns_unit (m : M unit) (w : World) :
  no_raise m -> no_exit m -> fst (m w) = Return tt.
Proof.
  intros Hr He. specialize (Hr w). specialize (He w).
  destruct (fst (m w)) as [[]|e|c].
  - reflexivity.
  - now destruct (Hr e).
  - now destruct (He c).
Qed.

(** ** [add_tags_to_monitor] *)

Lemma truthy_id_present (i : option Z) :
  truthy_id i = true -> exists t, i = Some t /\ t <> 0.
Proof.
  destruct i as [t|]; simpl; [|discriminate].
  intros H. exists t. split; [reflexivity|].
  destruct (Z.eqb_spec t 0); [discriminate | assumption].
Qed.

Lemma add_tag_to_monitor_emits (P : Call -> Prop) (monitor_id : Z)
      (ensure_auth_fn : option (M unit)) (tag_id : option Z) :
  (truthy_id tag_id = true -> P (CAddMonitorTag tag_id monitor_id "")) ->
  emits P (call_opt ensure_auth_fn) ->
  emits P (add_tag_to_monitor monitor_id ensure_auth_fn tag_id).
Proof.
  intros Hadd Hea. unfold add_tag_to_monitor.
  destruct (truthy_id tag_id) eqn:T; simpl; [|apply emits_ret].
  emits_auto; auto.
Qed.

Lemma add_tags_to_monitor_emits (P : Call -> Prop) (monitor_id : Z)
      (tag_ids : list (option Z)) (ensure_auth_fn : option (M unit)) :
  (forall c, adds_present_tag monitor_id tag_ids c -> P c) ->
  emits P (call_opt ensure_auth_fn) ->
  emits P (add_tags_to_monitor monitor_id tag_ids ensure_auth_fn).
Proof.
  intros Hadd Hea. unfold add_tags_to_monitor.
  apply emits_for_each. intros tag_id Hin.
  apply add_tag_to_monitor_emits; [|exact Hea].
  intros T. apply Hadd. destruct (truthy_id_present _ T) as [t [-> Ht]].
  exists t. auto.
Qed.

Lemma add_tags_to_monitor_no_raise (monitor_id : Z) (tag_ids : list (option Z))
      (ensure_auth_fn : option (M unit)) :
  no_raise (call_opt ensure_auth_fn) ->
  no_raise (add_tags_to_monitor monitor_id tag_ids ensure_auth_fn).
Proof.
  intros Hea. unfold add_tags_to_monitor. apply no_raise_for_each. intros tag_id.
  unfold add_tag_to_monitor. destruct (negb (truthy_id tag_id)); [apply no_raise_ret|].
  apply no_raise_bind; [|intros; apply no_raise_ret].
  apply no_raise_for_in. intros attempt. apply no_raise_try_except. intros e.
  destruct (_ && _).
  - apply no_raise_bind; [exact Hea | intros; apply no_raise_ret].
  - apply no_raise_bind; [|intros; apply no_raise_ret].
    destruct (_ =? _)%nat; [apply no_raise_print | apply no_raise_ret].
Qed.

Lemma add_tags_to_monitor_no_exit (monitor_id : Z) (tag_ids : list (option Z))
      (ensure_auth_fn : option (M unit)) :
  no_exit (call_opt ensure_auth_fn) ->
  no_exit (add_tags_to_monitor monitor_id tag_ids ensure_auth_fn).
Proof.
  intros Hea. unfold add_tags_to_monitor. apply no_exit_for_each. intros tag_id.
  unfold add_tag_to_monitor. destruct (negb (truthy_id tag_id)); [apply no_exit_ret|].
  apply no_exit_bind; [|intros; apply no_exit_ret].
  apply no_exit_for_in. intros attempt. apply no_exit_try_except.
  - apply no_exit_bind; [apply no_exit_api_add_monitor_tag | intros; apply no_exit_ret].
  - intros e. destruct (_ && _).
    + apply no_exit_bind; [exact Hea | intros; apply no_exit_ret].
    + apply no_exit_bind; [|intros; apply no_exit_ret].
      destruct (_ =? _)%nat; [apply no_exit_print | apply no_exit_ret].
Qed.

(** C10.  Whatever the list [tag_ids] and whatever the service answers,
    [add_tags_to_monitor] never ends in an exception, and every
    [add_monitor_tag] call it makes carries a tag identifier that is present
    (not [None], not [0]) and comes from [tag_ids]; entries that are [None]
    or falsy cause no call.  With the re-authentication closure of
    [sync_monitors] the only other calls are those of the re-authentication
    (whose failure ends the process through [sys.exit], not an exception);
    with no closure the function always returns. *)
Theorem add_tags_to_monitor_skips_missing
        (uptime_url username password : string) (monitor_id : Z)
        (tag_ids : list (option Z)) (w : World) :
  let ensure_auth_fn := ensure_authenticated uptime_url username password in
  let r := add_tags_to_monitor monitor_id tag_ids (Some ensure_auth_fn) w in
  let r0 := add_tags_to_monitor monitor_id tag_ids None w in
  ((forall e, fst r <> Raise e)
   /\ exists l, calls (snd r) = calls w ++ l
                /\ Forall (fun c => adds_present_tag monitor_id tag_ids c
                                    \/ is_reauth_call uptime_url username password c) l)
  /\ (fst r0 = Return tt
      /\ exists l, calls (snd r0) = calls w ++ l
                   /\ Forall (adds_present_tag monitor_id tag_ids) l).
Proof.
  cbv zeta. repeat split.
  - apply add_tags_to_monitor_no_raise. simpl. apply ensure_authenticated_no_raise.
  - apply (add_tags_to_monitor_emits
             (fun c => adds_present_tag monitor_id tag_ids c
                       \/ is_reauth_call uptime_url username password c)).
    + auto.
    + simpl. apply ensure_authenticated_emits. auto.
  - apply returns_unit.
    + apply add_tags_to_monitor_no_raise. simpl. apply no_raise_ret.
    + apply add_tags_to_monitor_no_exit. simpl. apply no_exit_ret.
  - apply (add_tags_to_monitor_emits (adds_present_tag monitor_id tag_ids)).
    + auto.
    + simpl. apply emits_ret.
Qed.

(** ** The retry loops, attempt by attempt *)

(** [get_or_create_tag] in terms of its attempts: at most two, with one
    re-authentication between them. *)
Lemma get_or_create_tag_attempts (tag_name : string) (ea : M unit) (w : World) :
  get_or_create_tag tag_name (Some ea) w =
  match lookup_or_create_tag tag_name w with
  | (Return t, w1) => (Return t, w1)
  | (SysExit c, w1) => (SysExit c, w1)
  | (Raise e1, w1) =>
      if session_expired (PyStr.lower e1)
      then match ea w1 with
           | (Return _, w2) =>
               match lookup_or_create_tag tag_name w2 with
               | (Return t, w3) => (Return t, w3)
               | (SysExit c, w3) => (SysExit c, w3)
               | (Raise e2, w3) =>
                   (Return None, log_output (WarnCreateTag tag_name e2) w3)
               end
           | (Raise e, w2) => (Raise e, w2)
           | (SysExit c, w2) => (SysExit c, w2)
           end
      else (Return None, log_output (WarnCreateTag tag_name e1) w1)
  end.
Proof.
  unfold get_or_create_tag, attempts, max_retries. simpl.
  unfold bind, try_except, ret, print, call_opt.
  destruct (lookup_or_create_tag tag_name w) as [[t|e1|c] w1]; simpl; try reflexivity.
  destruct (session_expired (PyStr.lower e1)); simpl; [|reflexivity].
  destruct (ea w1) as [[[]|e|c] w2]; simpl; try reflexivity.
  destruct (lookup_or_create_tag tag_name w2) as [[t|e2|c] w3]; simpl; try reflexivity.
  now rewrite andb_false_r.
Qed.

(** [get_docker_host_id] in terms of its attempts. *)
Lemma get_docker_host_id_attempts (name : string) (ea : M unit) (w : World) :
  get_docker_host_id name (Some ea) w =
  match lookup_docker_host name w with
  | (Return t, w1) => (Return t, w1)
  | (SysExit c, w1) => (SysExit c, w1)
  | (Raise e1, w1) =>
      if session_expired (PyStr.lower e1)
      then match ea w1 with
           | (Return _, w2) =>
               match lookup_docker_host name w2 with
               | (Return t, w3) => (Return t, w3)
               | (SysExit c, w3) => (SysExit c, w3)
               | (Raise e2, w3) => (Return None, log_output (WarnGetDockerHosts e2) w3)
               end
           | (Raise e, w2) => (Raise e, w2)
           | (SysExit c, w2) => (SysExit c, w2)
           end
      else (Return None, log_output (WarnGetDockerHosts e1) w1)
  end.
Proof.
  unfold get_docker_host_id, attempts, max_retries. simpl.
  unfold bind, try_except, ret, print, call_opt.
  destruct (lookup_docker_host name w) as [[t|e1|c] w1]; simpl; try reflexivity.
  destruct (session_expired (PyStr.lower e1)); simpl; [|reflexivity].
  destruct (ea w1) as [[[]|e|c] w2]; simpl; try reflexivity.
  destruct (lookup_docker_host name w2) as [[t|e2|c] w3]; simpl; try reflexivity.
  now rewrite andb_false_r.
Qed.

(** The addition of one present tag in terms of its attempts. *)
Lemma add_tag_to_monitor_attempts (monitor_id : Z) (ea : M unit) (tag_id : option Z)
      (w : World) :
  truthy_id tag_id = true ->
  add_tag_to_monitor monitor_id (Some ea) tag_id w =
  match api_add_monitor_tag tag_id monitor_id "" w with
  | (Return _, w1) => (Return tt, w1)
  | (SysExit c, w1) => (SysExit c, w1)
  | (Raise e1, w1) =>
      if session_expired (PyStr.lower e1)
      then match ea w1 with
           | (Return _, w2) =>
               match api_add_monitor_tag tag_id monitor_id "" w2 with
               | (Return _, w3) => (Return tt, w3)
               | (SysExit c, w3) => (SysExit c, w3)
               | (Raise e2, w3) => (Return tt, log_output (WarnAddTag tag_id e2) w3)
               end
           | (Raise e, w2) => (Raise e, w2)
           | (SysExit c, w2) => (SysExit c, w2)
           end
      else (Return tt, w1)
  end.
Proof.
  intros T. unfold add_tag_to_monitor. rewrite T. simpl.
  unfold attempts, max_retries. simpl.
  unfold bind, try_except, ret, print, call_opt.
  destruct (api_add_monitor_tag tag_id monitor_id "" w) as [[[]|e1|c] w1]; simpl;
    try reflexivity.
  destruct (session_expired (PyStr.lower e1)); simpl; [|reflexivity].
  destruct (ea w1) as [[[]|e|c] w2]; simpl; try reflexivity.
  destruct (api_add_monitor_tag tag_id monitor_id "" w2) as [[[]|e2|c] w3]; simpl;
    try reflexivity.
  now rewrite andb_false_r.
Qed.

(** The removal of one tag in terms of its attempts; [true] is the value
    [failed = True]. *)
Lemma remove_tag_attempts (ea : M unit) (monitor_id : Z) (tag : TagRef) (w : World) :
  remove_tag ea monitor_id tag w =
  match api_delete_monitor_tag (tagref_tag_id tag) monitor_id (tagref_value tag) w with
  | (Return _, w1) => (Return false, w1)
  | (SysExit c, w1) => (SysExit c, w1)
  | (Raise e1, w1) =>
      if session_expired (PyStr.lower e1)
      then match ea w1 with
           | (Return _, w2) =>
               match api_delete_monitor_tag (tagref_tag_id tag) monitor_id
                                            (tagref_value tag) w2 with
               | (Return _, w3) => (Return false, w3)
               | (SysExit c, w3) => (SysExit c, w3)
               | (Raise e2, w3) =>
                   (Return true,
                    log_output (if session_expired (PyStr.lower e2)
                                then FailedAfterReauth e2 else WarnRemoveTag e2) w3)
               end
           | (Raise e, w2) => (Raise e, w2)
           | (SysExit c, w2) => (SysExit c, w2)
           end
      else (Return true, log_output (WarnRemoveTag e1) w1)
  end.
Proof.
  unfold remove_tag, attempts, max_retries. simpl.
  unfold bind, try_except, ret, print.
  destruct (api_delete_monitor_tag _ _ _ w) as [[[]|e1|c] w1]; simpl; try reflexivity.
  destruct (session_expired (PyStr.lower e1)); simpl; [|reflexivity].
  destruct (ea w1) as [[[]|e|c] w2]; simpl; try reflexivity.
  destruct (api_delete_monitor_tag _ _ _ w2) as [[[]|e2|c] w3]; simpl; try reflexivity.
  destruct (session_expired (PyStr.lower e2)); reflexivity.
Qed.

(** ** Re-authentication *)

(** [ensure_authenticated] either returns or ends the process with
    status 1. *)
Lemma ensure_authenticated_outcome (url u p : string) (w : World) :
  fst (ensure_authenticated url u p w) = Return tt
  \/ fst (ensure_authenticated url u p w) = SysExit 1.
Proof.
  destruct w as [ms ts dh nid nt fs cs out].
  unfold ensure_authenticated, bind, print, try_except, api_disconnect, api_connect,
    api_login, api_call, ret, sys_exit. simpl.
  destruct fs as [|[e1|] [|[e2|] [|[e3|] rest]]]; simpl; auto.
Qed.

(** C1, counterexample.  The session expires on an [add_monitor_tag], the
    script re-authenticates, and the same call fails with the same error
    again.  The run does not stop there: it goes on to attach the next tag
    to the new monitor and ends normally, with exit status 0. *)
Lemma second_auth_failure_is_not_fatal :
  let r := sync_monitors "http://kuma" [mkServer "http://traefik" "edge"] []
                         "admin" "secret" [] false expiring_world in
  exit_status (fst r) = 0
  /\ calls (snd r) =
     [ CConnect "http://kuma"; CLogin "admin" "secret"; CGetMonitors;
       CGetTags; CAddTag "traefik" "#4299e1";
       CGetTags; CAddTag "edge" "#4299e1";
       CAddMonitor (http_monitor_config "https://a.example.com");
       CAddMonitorTag (Some 2) 3 "";
       CDisconnect; CConnect "http://kuma"; CLogin "admin" "secret";
       CAddMonitorTag (Some 2) 3 "";
       CAddMonitorTag (Some 1) 3 "";
       CDisconnect ]
  /\ stdout (snd r) =
     [ SessionExpired; WarnAddTag (Some 2) "Not logged in"; SyncComplete 1 ]
  /\ map monitor_tags (srv_monitors (snd r)) = [[mkTagRef 1 ""]].
Proof. vm_compute. repeat split. Qed.

(** C1, as the code has it.  Each of the four operations (tag lookup or
    creation, Docker-host lookup, tag addition, tag removal) that fails with
    a session error is followed by one re-authentication and one more
    attempt of the same operation.  A failure of that second attempt, of
    whatever kind, gives the operation up with a normal result (no tag, no
    host, a warning, or the flag [failed]) and the run continues; the
    process ends, with status 1, only when the re-authentication fails. *)
Theorem auth_expired_retried_once (uptime_url username password : string) :
  let reauth := ensure_authenticated uptime_url username password in
  (forall tag_name,
      retries_once (get_or_create_tag tag_name (Some reauth))
                   (lookup_or_create_tag tag_name) reauth (fun t => t)
                   (fun e => print (WarnCreateTag tag_name e) ;; ret None))
  /\ (forall name,
         retries_once (get_docker_host_id name (Some reauth))
                      (lookup_docker_host name) reauth (fun t => t)
                      (fun e => print (WarnGetDockerHosts e) ;; ret None))
  /\ (forall monitor_id t,
         t <> 0 ->
         retries_once (add_tag_to_monitor monitor_id (Some reauth) (Some t))
                      (api_add_monitor_tag (Some t) monitor_id "") reauth
                      (fun _ => tt)
                      (fun e => print (WarnAddTag (Some t) e) ;; ret tt))
  /\ (forall monitor_id tag,
         retries_once (remove_tag reauth monitor_id tag)
                      (api_delete_monitor_tag (tagref_tag_id tag) monitor_id
                                              (tagref_value tag)) reauth
                      (fun _ => false)
                      (fun e => print (if session_expired (PyStr.lower e)
                                       then FailedAfterReauth e
                                       else WarnRemoveTag e) ;; ret true)).
Proof.
  cbv zeta. repeat split.
  - intros tag_name w e1 w1 H1 S1.
    rewrite get_or_create_tag_attempts, H1, S1.
    pose proof (ensure_authenticated_outcome uptime_url username password w1) as Ho.
    destruct (ensure_authenticated uptime_url username password w1) as [[[]|e|c] w2];
      simpl in Ho.
    + destruct (lookup_or_create_tag tag_name w2) as [[t|e2|c] w3]; 
        try reflexivity; split; [reflexivity | eexists; reflexivity].
    + destruct Ho; discriminate.
    + destruct Ho as [Ho|Ho]; [discriminate | now inversion Ho].
  - intros name w e1 w1 H1 S1.
    rewrite get_docker_host_id_attempts, H1, S1.
    pose proof (ensure_authenticated_outcome uptime_url username password w1) as Ho.
    destruct (ensure_authenticated uptime_url username password w1) as [[[]|e|c] w2];
      simpl in Ho.
    + destruct (lookup_docker_host name w2) as [[t|e2|c] w3]; 
        try reflexivity; split; [reflexivity | eexists; reflexivity].
    + destruct Ho; discriminate.
    + destruct Ho as [Ho|Ho]; [discriminate | now inversion Ho].
  - intros monitor_id t Ht w e1 w1 H1 S1.
    rewrite add_tag_to_monitor_attempts, H1, S1
      by (simpl; now apply negb_true_iff, Z.eqb_neq).
    pose proof (ensure_authenticated_outcome uptime_url username password w1) as Ho.
    destruct (ensure_authenticated uptime_url username password w1) as [[[]|e|c] w2];
      simpl in Ho.
    + destruct (api_add_monitor_tag (Some t) monitor_id "" w2) as [[[]|e2|c] w3]; 
        try reflexivity; split; [reflexivity | eexists; reflexivity].
    + destruct Ho; discriminate.
    + destruct Ho as [Ho|Ho]; [discriminate | now inversion Ho].
  - intros monitor_id tag w e1 w1 H1 S1.
    rewrite remove_tag_attempts, H1, S1.
    pose proof (ensure_authenticated_outcome uptime_url username password w1) as Ho.
    destruct (ensure_authenticated uptime_url username password w1) as [[[]|e|c] w2];
      simpl in Ho.
    + destruct (api_delete_monitor_tag _ _ _ w2) as [[[]|e2|c] w3]; 
        try reflexivity; split; [reflexivity | eexists; reflexivity].
    + destruct Ho; discriminate.
    + destruct Ho as [Ho|Ho]; [discriminate | now inversion Ho].
Qed.

(** ** The tag resolver *)

Lemma emits_at (P : Call -> Prop) {A} (m : M A) (w : World) (o : Outcome A) (w' : World) :
  emits P m -> m w = (o, w') -> extends P w w'.
Proof. intros H E. specialize (H w). now rewrite E in H. Qed.

Lemma find_append {A} (f : A -> bool) (l l' : list A) :
  find f (l ++ l') = match find f l with Some x => Some x | None => find f l' end.
Proof.
  induction l as [|x l IH]; simpl; [reflexivity|].
  destruct (f x); [reflexivity | exact IH].
Qed.

(** Re-authentication leaves the tags of the service alone. *)
Lemma ensure_authenticated_tags (url u p : string) (w : World) :
  srv_tags (snd (ensure_authenticated url u p w)) = srv_tags w.
Proof.
  destruct w as [ms ts dh nid nt fs cs out].
  unfold ensure_authenticated, bind, print, try_except, api_disconnect, api_connect,
    api_login, api_call, ret, sys_exit. simpl.
  destruct fs as [|[e1|] [|[e2|] [|[e3|] rest]]]; reflexivity.
Qed.

(** With the tag in the service, an attempt is the lookup alone. *)
Lemma lookup_existing_tag (tag_name : string) (tag : Tag) (w : World) :
  tag_of_name tag_name w = Some tag ->
  (exists w1, lookup_or_create_tag tag_name w = (Return (Some (tagrec_id tag)), w1)
              /\ calls w1 = calls w ++ [CGetTags]
              /\ srv_tags w1 = srv_tags w
              /\ (forall e rest, faults w <> Some e :: rest))
  \/ (exists e w1, lookup_or_create_tag tag_name w = (Raise e, w1)
                   /\ calls w1 = calls w ++ [CGetTags]
                   /\ srv_tags w1 = srv_tags w
                   /\ exists rest, faults w = Some e :: rest).
Proof.
  destruct w as [ms ts dh nid nt fs cs out]. unfold tag_of_name. simpl. intros F.
  unfold lookup_or_create_tag, bind, api_get_tags, api_call, ret. simpl.
  destruct fs as [|[e|] rest]; simpl; rewrite ?F.
  - left. eexists. repeat split. discriminate.
  - right. exists e. eexists. repeat split. now exists rest.
  - left. eexists. repeat split. discriminate.
Qed.

(** A successful attempt leaves the service with the tag it returns as
    the first one of that name. *)
Lemma lookup_or_create_tag_result (tag_name : string) (w w1 : World) (t : option Z) :
  lookup_or_create_tag tag_name w = (Return t, w1) ->
  exists tag, tag_of_name tag_name w1 = Some tag /\ t = Some (tagrec_id tag).
Proof.
  destruct w as [ms ts dh nid nt fs cs out]. unfold tag_of_name.
  unfold lookup_or_create_tag, bind, api_get_tags, api_add_tag, api_call, ret. simpl.
  assert (Hnew :
             find (fun tag => String.eqb (tagrec_name tag) tag_name) ts = None ->
             exists tag,
               find (fun tag => String.eqb (tagrec_name tag) tag_name)
                    (ts ++ [mkTag nid tag_name "#4299e1"]) = Some tag
               /\ Some nid = Some (tagrec_id tag)).
  { intros F. rewrite find_append, F. simpl. rewrite String.eqb_refl.
    eexists. split; reflexivity. }
  destruct fs as [|[e|] rest]; simpl;
    destruct (find _ ts) as [tag|] eqn:F; simpl; try discriminate;
    try (intros H; inversion H; subst; simpl; eauto; fail).
  destruct rest as [|[e|] rest']; simpl; try discriminate;
    intros H; inversion H; subst; simpl; eauto.
Qed.

(** What a call of the resolver that returns an identifier leaves behind. *)
Lemma get_or_create_tag_result (url u p tag_name : string) (w : World) (t : Z) :
  let r := get_or_create_tag tag_name (Some (ensure_authenticated url u p)) w in
  fst r = Return (Some t) ->
  exists tag, tag_of_name tag_name (snd r) = Some tag /\ tagrec_id tag = t.
Proof.
  cbv zeta. rewrite get_or_create_tag_attempts.
  destruct (lookup_or_create_tag tag_name w) as [[t1|e1|c] w1] eqn:L1; simpl.
  - intros H. inversion H; subst.
    destruct (lookup_or_create_tag_result _ _ _ _ L1) as [tag [F E]].
    exists tag. split; [exact F | now inversion E].
  - destruct (session_expired (PyStr.lower e1)); [|discriminate].
    destruct (ensure_authenticated url u p w1) as [[[]|e|c] w2]; simpl; try discriminate.
    destruct (lookup_or_create_tag tag_name w2) as [[t2|e2|c] w3] eqn:L2; simpl;
      try discriminate.
    intros H. inversion H; subst.
    destruct (lookup_or_create_tag_result _ _ _ _ L2) as [tag [F E]].
    exists tag. split; [exact F | now inversion E].
  - discriminate.
Qed.

Lemma get_or_create_tag_no_raise (tag_name : string) (ensure_auth_fn : option (M unit)) :
  no_raise (call_opt ensure_auth_fn) ->
  no_raise (get_or_create_tag tag_name ensure_auth_fn).
Proof.
  intros Hea. unfold get_or_create_tag.
  apply no_raise_bind.
  - apply no_raise_for_in. intros attempt. apply no_raise_try_except. intros e.
    destruct (_ && _).
    + apply no_raise_bind; [exact Hea | intros; apply no_raise_ret].
    + apply no_raise_bind; [apply no_raise_print | intros; apply no_raise_ret].
  - intros [r|]; apply no_raise_ret.
Qed.

(** A call of the resolver when the tag is already in the service. *)
Lemma get_or_create_tag_existing (url u p tag_name : string) (tag : Tag) (w : World) :
  tag_of_name tag_name w = Some tag ->
  let r := get_or_create_tag tag_name (Some (ensure_authenticated url u p)) w in
  ((forall e rest, faults w <> Some e :: rest) ->
   fst r = Return (Some (tagrec_id tag)) /\ calls (snd r) = calls w ++ [CGetTags])
  /\ (fst r = Return (Some (tagrec_id tag)) \/ fst r = Return None \/ fst r = SysExit 1)
  /\ extends (fun c => forall name color, c <> CAddTag name color) w (snd r)
  /\ srv_tags (snd r) = srv_tags w.
Proof.
  intros F. cbv zeta. rewrite get_or_create_tag_attempts.
  set (P := fun c : Call => forall name color, c <> CAddTag name color).
  assert (Hcall : forall a b : World, calls b = calls a ++ [CGetTags] -> extends P a b).
  { intros a b E. exists [CGetTags]. split; [exact E|].
    constructor; [intros n c; discriminate | constructor]. }
  destruct (lookup_existing_tag tag_name tag w F)
    as [[w1 [L1 [C1 [T1 N1]]]] | [e1 [w1 [L1 [C1 [T1 [rest N1]]]]]]]; rewrite L1; simpl.
  - repeat split; auto.
  - split; [intros N; now destruct (N e1 rest)|].
    destruct (session_expired (PyStr.lower e1)); simpl.
    + pose proof (ensure_authenticated_outcome url u p w1) as Ho.
      pose proof (ensure_authenticated_tags url u p w1) as Ht.
      assert (He : extends P w1 (snd (ensure_authenticated url u p w1))).
      { apply (ensure_authenticated_emits P url u p).
        intros c [->|[->| ->]] n col; discriminate. }
      destruct (ensure_authenticated url u p w1) as [[[]|e|c] w2]; simpl in *.
      * assert (F2 : tag_of_name tag_name w2 = Some tag).
        { unfold tag_of_name in *. now rewrite Ht, T1. }
        destruct (lookup_existing_tag tag_name tag w2 F2)
          as [[w3 [L2 [C2 [T2 N2]]]] | [e2 [w3 [L2 [C2 [T2 N2]]]]]]; rewrite L2; simpl.
        -- split; [auto | split].
           ++ eapply extends_trans; [apply Hcall, C1|].
              eapply extends_trans; [exact He | apply Hcall, C2].
           ++ now rewrite T2, Ht, T1.
        -- split; [auto | split].
           ++ eapply extends_trans; [apply Hcall, C1|].
              eapply extends_trans; [exact He|].
              eapply extends_trans; [apply Hcall, C2 | now apply extends_same_calls].
           ++ simpl. now rewrite T2, Ht, T1.
      * destruct Ho; discriminate.
      * destruct Ho as [Ho|Ho]; [discriminate|]. inversion Ho; subst.
        split; [auto | split].
        -- eapply extends_trans; [apply Hcall, C1 | exact He].
        -- now rewrite Ht, T1.
    + split; [auto | split; [|exact T1]].
      eapply extends_trans; [apply Hcall, C1 | now apply extends_same_calls].
Qed.

(** C8.  The tag resolver, called as [sync_monitors] calls it.
    - It never ends in an exception.
    - When its attempts fail for good (the first one with an error that is
      not a session error, or the first one with a session error and the
      second one, after the re-authentication, with any error) it returns
      [None].
    - When a call has returned the identifier [t], a later call for the same
      name, made after the service has at most gained further tags, finds
      [t] by lookup: it never calls [add_tag], its result is [t] unless the
      lookup itself fails, and when the service answers it is [t] after the
      single call [get_tags]. *)
Theorem get_or_create_tag_idempotent
        (uptime_url username password tag_name : string) (w : World) :
  let reauth := ensure_authenticated uptime_url username password in
  let resolve := get_or_create_tag tag_name (Some reauth) in
  (forall e, fst (resolve w) <> Raise e)
  /\ (forall e w1,
         lookup_or_create_tag tag_name w = (Raise e, w1) ->
         session_expired (PyStr.lower e) = false ->
         fst (resolve w) = Return None)
  /\ (forall e1 w1 w2 e2 w3,
         lookup_or_create_tag tag_name w = (Raise e1, w1) ->
         session_expired (PyStr.lower e1) = true ->
         reauth w1 = (Return tt, w2) ->
         lookup_or_create_tag tag_name w2 = (Raise e2, w3) ->
         fst (resolve w) = Return None)
  /\ (forall t,
         fst (resolve w) = Return (Some t) ->
         forall w2 extra,
           srv_tags w2 = srv_tags (snd (resolve w)) ++ extra ->
           ((forall e rest, faults w2 <> Some e :: rest) ->
            fst (resolve w2) = Return (Some t)
            /\ calls (snd (resolve w2)) = calls w2 ++ [CGetTags])
           /\ (fst (resolve w2) = Return (Some t)
               \/ fst (resolve w2) = Return None
               \/ fst (resolve w2) = SysExit 1)
           /\ exists l, calls (snd (resolve w2)) = calls w2 ++ l
                        /\ Forall (fun c => forall name color, c <> CAddTag name color) l).
Proof.
  cbv zeta. split; [|split; [|split]].
  - apply get_or_create_tag_no_raise. simpl. apply ensure_authenticated_no_raise.
  - intros e w1 L S. now rewrite get_or_create_tag_attempts, L, S.
  - intros e1 w1 w2 e2 w3 L1 S1 R L2.
    now rewrite get_or_create_tag_attempts, L1, S1, R, L2.
  - intros t Ht w2 extra Hext.
    destruct (get_or_create_tag_result uptime_url username password tag_name w t Ht)
      as [tag [F Et]].
    assert (F2 : tag_of_name tag_name w2 = Some tag).
    { unfold tag_of_name in *. now rewrite Hext, find_append, F. }
    destruct (get_or_create_tag_existing uptime_url username password tag_name tag w2 F2)
      as [H1 [H2 [H3 _]]].
    rewrite Et in *. auto.
Qed.

(** C8 at work: on an empty service the first call creates the tag and the
    second finds it. *)
Lemma get_or_create_tag_idempotent_witness :
  let w := mkWorld [] [] [] 1 edge_net [] [] [] in
  let resolve := get_or_create_tag "edge" (Some (ensure_authenticated "http://kuma"
                                                                      "admin" "secret")) in
  fst (resolve w) = Return (Some 1)
  /\ fst (resolve (snd (resolve w))) = Return (Some 1)
  /\ calls (snd (resolve (snd (resolve w)))) = calls (snd (resolve w)) ++ [CGetTags].
Proof.
  cbv zeta.
  pose proof (get_or_create_tag_idempotent "http://kuma" "admin" "secret" "edge"
                (mkWorld [] [] [] 1 edge_net [] [] [])) as H.
  cbv zeta in H. destruct H as [_ [_ [_ H]]].
  assert (E : fst (get_or_create_tag "edge"
                     (Some (ensure_authenticated "http://kuma" "admin" "secret"))
                     (mkWorld [] [] [] 1 edge_net [] [] [])) = Return (Some 1))
    by reflexivity.
  split; [exact E|].
  specialize (H 1 E _ [] ltac:(now rewrite app_nil_r)).
  destruct H as [H _]. apply H. intros e rest. vm_compute. discriminate.
Defined.

(** ** Sets of strings and [sorted] *)

Lemma str_lt_compare (a b : string) : str_lt a b <-> String.compare a b = Lt.
Proof.
  unfold str_lt, String.ltb. destruct (String.compare a b); split; congruence.
Qed.

Lemma str_lt_trans (a b c : string) : str_lt a b -> str_lt b c -> str_lt a c.
Proof.
  rewrite !str_lt_compare. intros H1 H2.
  apply String_as_OT.cmp_lt. apply String_as_OT.cmp_lt in H1, H2.
  eapply String_as_OT.lt_trans; eauto.
Qed.

Lemma str_lt_irrefl (a : string) : ~ str_lt a a.
Proof.
  rewrite str_lt_compare. intros H.
  assert (E : String.compare a a = Eq) by now apply String_as_OT.cmp_eq.
  congruence.
Qed.

Lemma leb_false_lt (x y : string) : String.leb x y = false -> str_lt y x.
Proof.
  unfold String.leb. rewrite str_lt_compare, (String.compare_antisym y x).
  destruct (String.compare x y); simpl; congruence.
Qed.

Lemma leb_true_neq_lt (x y : string) : String.leb x y = true -> x <> y -> str_lt x y.
Proof.
  unfold String.leb. rewrite str_lt_compare. intros H N.
  destruct (String.compare x y) eqn:E; try congruence.
  apply String_as_OT.cmp_eq in E. contradiction.
Qed.

Lemma In_insert_sorted (x y : string) (l : list string) :
  In y (insert_sorted x l) <-> y = x \/ In y l.
Proof.
  induction l as [|z l IH]; simpl.
  - intuition.
  - destruct (String.leb x z); simpl; [intuition|].
    rewrite IH. intuition.
Qed.

Lemma insert_sorted_sorted (x : string) (l : list string) :
  StronglySorted str_lt l -> ~ In x l -> StronglySorted str_lt (insert_sorted x l).
Proof.
  induction l as [|z l IH]; simpl; intros S N.
  - constructor; constructor.
  - inversion S as [|? ? S' F]; subst.
    destruct (String.leb x z) eqn:L.
    + assert (Hxz : str_lt x z) by (apply leb_true_neq_lt; intuition congruence).
      constructor; [exact S|]. constructor; [exact Hxz|].
      eapply Forall_impl; [|exact F]. intros a Ha. eapply str_lt_trans; eauto.
    + constructor; [apply IH; intuition|].
      apply Forall_forall. intros a Ha. apply In_insert_sorted in Ha.
      destruct Ha as [->|Ha]; [now apply leb_false_lt|].
      rewrite Forall_forall in F. now apply F.
Qed.

Lemma In_sorted (y : string) (l : list string) : In y (sorted l) <-> In y l.
Proof.
  unfold sorted. induction l as [|x l IH]; simpl; [tauto|].
  rewrite In_insert_sorted, IH. intuition.
Qed.

Lemma sorted_strict (l : list string) : NoDup l -> StronglySorted str_lt (sorted l).
Proof.
  unfold sorted. induction 1 as [|x l N D IH]; simpl; [constructor|].
  apply insert_sorted_sorted; [exact IH|].
  intros H. apply N. now apply (In_sorted x l).
Qed.

Lemma strictly_sorted_NoDup (l : list string) : StronglySorted str_lt l -> NoDup l.
Proof.
  induction 1 as [|x l S IH F]; constructor; [|exact IH].
  intros H. rewrite Forall_forall in F. apply (str_lt_irrefl x). now apply F.
Qed.

Lemma set_mem_In (x : string) (s : list string) : set_mem x s = true <-> In x s.
Proof.
  unfold set_mem. rewrite existsb_exists. split.
  - intros [y [H E]]. apply String.eqb_eq in E. now subst.
  - intros H. exists x. split; [exact H | apply String.eqb_refl].
Qed.

Lemma In_set_add (x y : string) (s : list string) :
  In y (set_add x s) <-> y = x \/ In y s.
Proof.
  unfold set_add. destruct (existsb (String.eqb x) s) eqn:E.
  - apply (set_mem_In x s) in E. intuition congruence.
  - rewrite in_app_iff. simpl. intuition.
Qed.

Lemma set_add_NoDup (x : string) (s : list string) : NoDup s -> NoDup (set_add x s).
Proof.
  intros D. unfold set_add. destruct (existsb (String.eqb x) s) eqn:E; [exact D|].
  apply NoDup_app; [exact D | constructor; [intros []|constructor] |].
  intros a Ha [Hx|[]]. subst a.
  apply (set_mem_In x s) in Ha. unfold set_mem in Ha. congruence.
Qed.

(** ** The rule expression *)

Lemma prefix_split (p s : string) :
  String.prefix p s = true -> s = (p ++ PyStr.drop (String.length p) s)%string.
Proof.
  revert s. induction p as [|a p IH]; intros s.
  - now destruct s.
  - destruct s as [|b s]; simpl; [discriminate|].
    destruct (ascii_dec a b) as [->|]; [|discriminate].
    intros H. f_equal. now apply IH.
Qed.

Lemma prefix_empty (s : string) : String.prefix EmptyString s = true.
Proof. now destruct s. Qed.

Lemma prefix_append (p r : string) : String.prefix p (p ++ r)%string = true.
Proof.
  induction p as [|a p IH]; simpl.
  - now destruct r.
  - destruct (ascii_dec a a); [exact IH | contradiction].
Qed.

Lemma drop_append (p r : string) : PyStr.drop (String.length p) (p ++ r)%string = r.
Proof. induction p as [|a p IH]; simpl; [now destruct r | exact IH]. Qed.

Lemma append_assoc (a b c : string) : ((a ++ b) ++ c = a ++ (b ++ c))%string.
Proof. induction a as [|x a IH]; simpl; [reflexivity | now rewrite IH]. Qed.

Lemma span_name_split (s name rest : string) :
  span_name s = (name, rest) ->
  s = (name ++ rest)%string /\ backtick_free name.
Proof.
  revert name rest. induction s as [|c s IH]; simpl; intros name rest H.
  - inversion H. now split.
  - destruct (Ascii.eqb c "`") eqn:E.
    + inversion H. now split.
    + destruct (span_name s) as [n r]. inversion H; subst.
      destruct (IH n rest eq_refl) as [-> B]. simpl. split; [reflexivity|].
      split; [|exact B]. now apply Ascii.eqb_neq.
Qed.

Lemma span_name_append (name r : string) :
  backtick_free name ->
  span_name (name ++ String "`" r)%string = (name, String "`" r).
Proof.
  induction name as [|c name IH]; simpl; intros B.
  - reflexivity.
  - destruct B as [N B]. apply Ascii.eqb_neq in N. rewrite N.
    now rewrite (IH B).
Qed.

Lemma truthy_nonempty (s : string) : PyStr.truthy s = true <-> s <> EmptyString.
Proof. destruct s; simpl; split; congruence. Qed.

Lemma match_host_here_iff (s name : string) :
  match_host_here s = Some name <-> exists post, host_pattern_at s EmptyString name post.
Proof.
  unfold match_host_here, host_pattern_at. split.
  - destruct (String.prefix "Host(`" s) eqn:P; [|discriminate].
    apply prefix_split in P. simpl String.length in P.
    destruct (span_name (PyStr.drop 6 s)) as [n rest] eqn:S.
    destruct (PyStr.truthy n) eqn:T; simpl; [|discriminate].
    destruct (String.prefix "`)" rest) eqn:P2; [|discriminate].
    intros H. inversion H; subst n.
    apply span_name_split in S. destruct S as [S B].
    apply prefix_split in P2. simpl String.length in P2.
    exists (PyStr.drop 2 rest). split; [|split; [now apply truthy_nonempty | exact B]].
    rewrite P, S, P2 at 1. reflexivity.
  - intros [post [E [N B]]]. simpl in E. subst s. simpl.
    rewrite (span_name_append name (String ")" post) B).
    apply truthy_nonempty in N. rewrite N. simpl.
    now rewrite !prefix_empty.
Qed.

Lemma host_pattern_at_tail (c : ascii) (s pre name post : string) :
  host_pattern_at (String c s) (String c pre) name post <-> host_pattern_at s pre name post.
Proof.
  unfold host_pattern_at. simpl. split; intros [E H]; (split; [|exact H]); congruence.
Qed.

Lemma host_pattern_at_head (c : ascii) (s pre name post : string) :
  host_pattern_at (String c s) pre name post ->
  pre = EmptyString \/ exists pre', pre = String c pre' /\ host_pattern_at s pre' name post.
Proof.
  destruct pre as [|d pre]; [now left|]. intros H. right. exists pre.
  assert (d = c) by (destruct H as [E _]; simpl in E; congruence). subst d.
  split; [reflexivity | now apply (proj1 (host_pattern_at_tail c s pre name post))].
Qed.

(** The search finds exactly the name of the leftmost [Host(`name`)]. *)
Lemma re_search_host_iff (rule name : string) :
  re_search_host rule = Some name <-> first_host_pattern rule name.
Proof.
  revert name. induction rule as [|c s IH]; intros name.
  - simpl. split; [discriminate|].
    intros [pre [post [[E _] _]]]. destruct pre; discriminate.
  - cbn [re_search_host].
    destruct (match_host_here (String c s)) as [n|] eqn:M.
    + assert (Hn : exists post, host_pattern_at (String c s) EmptyString n post)
        by now apply match_host_here_iff.
      destruct Hn as [post Hn]. split.
      * intros H. inversion H; subst n. exists EmptyString, post.
        split; [exact Hn|]. intros. simpl. lia.
      * intros [pre [post' [Hp Hmin]]].
        specialize (Hmin _ _ _ Hn). simpl in Hmin.
        destruct pre; [|simpl in Hmin; lia].
        assert (M' : match_host_here (String c s) = Some name)
          by (apply match_host_here_iff; eauto).
        congruence.
    + assert (Hnone : forall n post, ~ host_pattern_at (String c s) EmptyString n post).
      { intros n post Hp.
        assert (match_host_here (String c s) = Some n)
          by (apply match_host_here_iff; eauto).
        congruence. }
      rewrite IH. split.
      * intros [pre [post [Hp Hmin]]]. exists (String c pre), post. split.
        -- now apply (proj2 (host_pattern_at_tail c s pre name post)).
        -- intros pre' name' post' Hp'.
           destruct (host_pattern_at_head _ _ _ _ _ Hp') as [->|[p [-> Hp'']]].
           ++ now destruct (Hnone name' post').
           ++ simpl. apply le_n_S. eapply Hmin; eauto.
      * intros [pre [post [Hp Hmin]]].
        destruct (host_pattern_at_head _ _ _ _ _ Hp) as [->|[p [-> Hp']]].
        -- now destruct (Hnone name post).
        -- exists p, post. split; [exact Hp'|].
           intros pre' name' post' Hp''.
           assert (Hq : host_pattern_at (String c s) (String c pre') name' post')
             by now apply (proj2 (host_pattern_at_tail c s pre' name' post')).
           specialize (Hmin _ _ _ Hq). simpl in Hmin. lia.
Qed.

(** ** [extract_hosts_from_traefik] *)

Lemma empty_rule_no_host : re_search_host EmptyString = None.
Proof. reflexivity. Qed.

Lemma add_router_host_In (hosts : list string) (item : string * Router) (h : string) :
  In h (add_router_host hosts item) <-> In h hosts \/ router_contributes (snd item) h.
Proof.
  unfold add_router_host, router_contributes. destruct item as [router_name cfg].
  cbn [snd].
  destruct (entryPoints cfg) as [l|] eqn:EP.
  - destruct (existsb (String.eqb "https") l) eqn:X.
    + assert (Hin : In "https" l).
      { apply existsb_exists in X. destruct X as [y [Hy E]].
        apply String.eqb_eq in E. now subst. }
      destruct (rule cfg) as [r|] eqn:R.
      * destruct (re_search_host r) as [name|] eqn:S.
        -- rewrite In_set_add. apply re_search_host_iff in S. split.
           ++ intros [->|H]; [right|now left]. split; eauto.
           ++ intros [H|[_ [r' [name' [Er [Fp ->]]]]]]; [now right|left].
              inversion Er; subst r'. apply re_search_host_iff in S, Fp. congruence.
        -- split; [now left|]. intros [H|[_ [r' [name' [Er [Fp _]]]]]]; [exact H|].
           inversion Er; subst r'. apply re_search_host_iff in Fp. congruence.
      * rewrite empty_rule_no_host. split; [now left|].
        intros [H|[_ [r' [name' [Er _]]]]]; [exact H | discriminate].
    + split; [now left|]. intros [H|[[l' [El Hin]] _]]; [exact H|].
      inversion El; subst l'.
      assert (existsb (String.eqb "https") l = true); [|congruence].
      apply existsb_exists. exists "https". split; [exact Hin | reflexivity].
  - cbn [existsb]. split; [now left|].
    intros [H|[[l' [El _]] _]]; [exact H | discriminate].
Qed.

Lemma add_router_host_NoDup (hosts : list string) (item : string * Router) :
  NoDup hosts -> NoDup (add_router_host hosts item).
Proof.
  intros D. unfold add_router_host.
  destruct (existsb _ _); [|exact D].
  destruct (re_search_host _); [now apply set_add_NoDup | exact D].
Qed.

Lemma router_hosts_In (routers : list (string * Router)) (acc : list string) (h : string) :
  In h (fold_left add_router_host routers acc)
  <-> In h acc \/ exists item, In item routers /\ router_contributes (snd item) h.
Proof.
  revert acc. induction routers as [|item routers IH]; intros acc; simpl.
  - split; [now left|]. intros [H|[item [[] _]]]. exact H.
  - rewrite IH, add_router_host_In. split.
    + intros [[H|H]|[i [Hi Hc]]]; eauto.
    + intros [H|[i [[<-|Hi] Hc]]]; eauto.
Qed.

Lemma router_hosts_NoDup (routers : list (string * Router)) (acc : list string) :
  NoDup acc -> NoDup (fold_left add_router_host routers acc).
Proof.
  revert acc. induction routers as [|item routers IH]; intros acc D; simpl; [exact D|].
  apply IH. now apply add_router_host_NoDup.
Qed.

(** C9.  [extract_hosts_from_traefik] always returns a list, which is
    strictly ascending (so sorted and free of duplicates).  When the proxy
    answers with a router mapping, the list holds [https://name] exactly
    for the routers whose entry points include [https] and whose rule holds
    a [Host(`name`)], [name] being the leftmost one; when the fetch or the
    decoding fails, the list is empty. *)
Theorem extract_hosts_from_traefik_spec (traefik_url : string) (w : World) :
  exists hosts,
    fst (extract_hosts_from_traefik traefik_url w) = Return hosts
    /\ StronglySorted str_lt hosts
    /\ NoDup hosts
    /\ (forall status routers,
           net w (traefik_url ++ "/api/rawdata")%string = Reply status (RawData routers) ->
           ~ 400 <= status < 600 ->
           forall h,
             In h hosts <->
             exists router_name router_config,
               In (router_name, router_config)
                  (match routers with Some l => l | None => [] end)
               /\ router_contributes router_config h)
    /\ (fetch_failed (net w (traefik_url ++ "/api/rawdata")%string) -> hosts = []).
Proof.
  unfold extract_hosts_from_traefik, try_except, bind, requests_get, raise_for_status,
    response_json, raise, ret, print, fetch_failed.
  assert (Hempty : forall P Q : Prop,
             P -> (Q -> @nil string = []) ->
             StronglySorted str_lt (@nil string) /\ NoDup (@nil string) /\ P
             /\ (Q -> @nil string = [])).
  { intros P Q HP HQ. repeat split; try constructor; auto. }
  destruct (net w (traefik_url ++ "/api/rawdata")%string) as [e|status body] eqn:N; simpl.
  - exists []. split; [reflexivity|]. apply Hempty; [|auto]. discriminate.
  - destruct ((400 <=? status) && (status <? 600)) eqn:St; simpl.
    + exists []. split; [reflexivity|]. apply Hempty; [|auto].
      intros s r E Hs. inversion E; subst. exfalso. apply Hs.
      apply andb_true_iff in St. destruct St as [A B].
      apply Z.leb_le in A. apply Z.ltb_lt in B. now split.
    + assert (Hst : ~ 400 <= status < 600).
      { intros [A B]. apply Z.leb_le in A. apply Z.ltb_lt in B.
        rewrite A, B in St. discriminate. }
      destruct body as [|routers|cs]; simpl.
      * exists []. split; [reflexivity|]. apply Hempty; [|auto]. discriminate.
      * set (l := match routers with Some l => l | None => [] end).
        exists (sorted (fold_left add_router_host l [])).
        assert (D : NoDup (fold_left add_router_host l []))
          by (apply router_hosts_NoDup; constructor).
        split; [now destruct routers|].
        split; [now apply sorted_strict|].
        split; [now apply strictly_sorted_NoDup, sorted_strict|].
        split.
        -- intros s r E _ h. inversion E; subst r. fold l.
           rewrite In_sorted, router_hosts_In. split.
           ++ intros [[]|[[n c] [Hi Hc]]]. eauto.
           ++ intros [n [c [Hi Hc]]]. right. exists (n, c). auto.
        -- intros [H|[H|[cs H]]]; [contradiction | discriminate | discriminate].
      * exists []. split; [reflexivity|]. apply Hempty; [|auto]. discriminate.
Qed.

(** The scenario of the specification: of two routers, only the one with
    an [https] entry point yields an identifier. *)
Example extract_hosts_scenario :
  let routers :=
    [ ("r1", mkRouter (Some ["https"]) (Some "Host(`a.example.com`)"));
      ("r2", mkRouter (Some ["http"]) (Some "Host(`b.example.com`)")) ] in
  let w := mkWorld [] [] [] 1 (fun _ => Reply 200 (RawData (Some routers))) [] [] [] in
  fst (extract_hosts_from_traefik "http://traefik" w) = Return ["https://a.example.com"].
Proof. reflexivity. Qed.

(** ** Matching desired identifiers against existing monitors *)

Lemma truthy_url_iff (m : Monitor) (url : string) :
  truthy_url m = Some url <-> monitor_url m = Some url /\ url <> EmptyString.
Proof.
  unfold truthy_url. destruct (monitor_url m) as [u|]; [|split; [discriminate|]].
  - destruct (PyStr.truthy u) eqn:T.
    + apply truthy_nonempty in T. split.
      * intros H. inversion H; subst. now split.
      * intros [H _]. exact H.
    + split; [discriminate|]. intros [H N]. inversion H; subst.
      apply truthy_nonempty in N. congruence.
  - intros [H _]. discriminate.
Qed.

Lemma collect_existing_urls_acc (monitors : list Monitor) (acc : list string) (url : string) :
  In url (fold_left (fun existing_urls monitor =>
                       match truthy_url monitor with
                       | Some url => set_add url existing_urls
                       | None => existing_urls
                       end) monitors acc)
  <-> In url acc \/ exists m, In m monitors /\ truthy_url m = Some url.
Proof.
  revert acc. induction monitors as [|m monitors IH]; intros acc; simpl.
  - split; [now left|]. intros [H|[m [[] _]]]. exact H.
  - rewrite IH. destruct (truthy_url m) as [u|] eqn:T.
    + rewrite In_set_add. split.
      * intros [[->|H]|[m' [Hm Ht]]]; eauto.
      * intros [H|[m' [[<-|Hm] Ht]]]; eauto.
        left. left. congruence.
    + split.
      * intros [H|[m' [Hm Ht]]]; eauto.
      * intros [H|[m' [[<-|Hm] Ht]]]; eauto. congruence.
Qed.

(** The set [existing_urls] holds the non-empty URLs of the monitors. *)
Lemma In_collect_existing_urls (monitors : list Monitor) (url : string) :
  In url (collect_existing_urls monitors)
  <-> exists m, In m monitors /\ monitor_url m = Some url /\ url <> EmptyString.
Proof.
  unfold collect_existing_urls. rewrite collect_existing_urls_acc. split.
  - intros [[]|[m [Hm Ht]]]. exists m. split; [exact Hm | now apply truthy_url_iff].
  - intros [m [Hm Ht]]. right. exists m. split; [exact Hm | now apply truthy_url_iff].
Qed.

Lemma In_missing_hosts (hosts existing_urls : list string) (h : string) :
  In h (missing_hosts hosts existing_urls) <-> In h hosts /\ ~ In h existing_urls.
Proof.
  unfold missing_hosts. rewrite filter_In, negb_true_iff.
  rewrite <- (set_mem_In h existing_urls).
  destruct (set_mem h existing_urls); intuition congruence.
Qed.

Lemma option_Z_eqb_eq (a b : option Z) : option_Z_eqb a b = true <-> a = b.
Proof.
  destruct a as [x|], b as [y|]; simpl; try (split; congruence).
  rewrite Z.eqb_eq. split; congruence.
Qed.

Lemma MonitorType_eqb_eq (a b : MonitorType) : MonitorType_eqb a b = true <-> a = b.
Proof. destruct a, b; simpl; split; congruence. Qed.

Lemma existing_docker_monitors_acc (docker_host_id : option Z) (monitors : list Monitor)
      (acc : list string) (c : string) :
  In c (fold_left (fun existing monitor =>
                     if MonitorType_eqb (monitor_type monitor) DOCKER
                        && option_Z_eqb (monitor_docker_host monitor) docker_host_id
                     then set_add (monitor_name monitor) existing
                     else existing) monitors acc)
  <-> In c acc
      \/ exists m, In m monitors /\ monitor_type m = DOCKER
                   /\ monitor_name m = c /\ monitor_docker_host m = docker_host_id.
Proof.
  revert acc. induction monitors as [|m monitors IH]; intros acc; simpl.
  - split; [now left|]. intros [H|[m [[] _]]]. exact H.
  - rewrite IH.
    destruct (MonitorType_eqb (monitor_type m) DOCKER
              && option_Z_eqb (monitor_docker_host m) docker_host_id) eqn:E.
    + apply andb_true_iff in E. destruct E as [E1 E2].
      apply MonitorType_eqb_eq in E1. apply option_Z_eqb_eq in E2.
      rewrite In_set_add. split.
      * intros [[->|H]|[m' [Hm Ht]]]; eauto 8.
      * intros [H|[m' [[<-|Hm] [Ht [Hn Hd]]]]]; eauto 8.
    + split.
      * intros [H|[m' [Hm Ht]]]; eauto 8.
      * intros [H|[m' [[<-|Hm] [Ht [Hn Hd]]]]]; eauto 8.
        apply MonitorType_eqb_eq in Ht. apply option_Z_eqb_eq in Hd.
        rewrite Ht, Hd in E. discriminate.
Qed.

Lemma In_missing_containers (containers : list string) (docker_host_id : option Z)
      (monitors : list Monitor) (c : string) :
  In c (missing_containers containers docker_host_id monitors)
  <-> In c containers
      /\ ~ exists m, In m monitors /\ monitor_type m = DOCKER
                     /\ monitor_name m = c /\ monitor_docker_host m = docker_host_id.
Proof.
  unfold missing_containers. rewrite filter_In, negb_true_iff.
  set (s := existing_docker_monitors docker_host_id monitors).
  assert (Hs : In c s <-> exists m, In m monitors /\ monitor_type m = DOCKER
                                    /\ monitor_name m = c
                                    /\ monitor_docker_host m = docker_host_id).
  { unfold s, existing_docker_monitors. rewrite existing_docker_monitors_acc.
    split; [intros [[]|H]; exact H | now right]. }
  rewrite <- Hs, <- (set_mem_In c s).
  destruct (set_mem c s); intuition congruence.
Qed.

(** C5.  The creation batches are computed by natural key.  A proxy
    identifier is left out of the batch exactly when some monitor has that
    very string as its (non-empty) URL; a workload name is left out exactly
    when some Docker monitor has that name and that Docker host, so that a
    monitor of the same name on another host does not count.  With desired
    identifiers [A] and [B], a monitor whose URL is [A] and none whose URL
    is [B], the batch is [B] alone. *)
Theorem natural_key_matching :
  (forall hosts monitors h,
      In h (missing_hosts hosts (collect_existing_urls monitors))
      <-> In h hosts
          /\ ~ exists m, In m monitors /\ monitor_url m = Some h /\ h <> EmptyString)
  /\ (forall containers docker_host_id monitors c,
         In c (missing_containers containers docker_host_id monitors)
         <-> In c containers
             /\ ~ exists m, In m monitors /\ monitor_type m = DOCKER
                            /\ monitor_name m = c
                            /\ monitor_docker_host m = docker_host_id)
  /\ (forall c other_host docker_host_id m,
         monitor_name m = c ->
         monitor_docker_host m = other_host ->
         other_host <> docker_host_id ->
         missing_containers [c] docker_host_id [m] = [c])
  /\ (forall A B monitors,
         A <> B -> A <> EmptyString ->
         (exists m, In m monitors /\ monitor_url m = Some A) ->
         (forall m, In m monitors -> monitor_url m <> Some B) ->
         missing_hosts [A; B] (collect_existing_urls monitors) = [B]).
Proof.
  split; [|split; [|split]].
  - intros hosts monitors h.
    now rewrite In_missing_hosts, In_collect_existing_urls.
  - apply In_missing_containers.
  - intros c other_host docker_host_id m Hn Hd Hneq.
    unfold missing_containers, existing_docker_monitors. simpl.
    destruct (MonitorType_eqb (monitor_type m) DOCKER); simpl; [|reflexivity].
    destruct (option_Z_eqb (monitor_docker_host m) docker_host_id) eqn:E; [|reflexivity].
    apply option_Z_eqb_eq in E. congruence.
  - intros A B monitors Hab Ha [m [Hm Hu]] Hb.
    unfold missing_hosts. simpl.
    assert (HA : set_mem A (collect_existing_urls monitors) = true).
    { apply set_mem_In, In_collect_existing_urls. eauto. }
    assert (HB : set_mem B (collect_existing_urls monitors) = false).
    { destruct (set_mem B (collect_existing_urls monitors)) eqn:E; [|reflexivity].
      apply set_mem_In, In_collect_existing_urls in E.
      destruct E as [m' [Hm' [Hu' _]]]. now destruct (Hb m' Hm'). }
    now rewrite HA, HB.
Qed.

(** C5 at work: the same container name on two Docker hosts. *)
Example natural_key_example :
  let m := mkMonitor 1 "web" DOCKER None (Some 7) [] in
  missing_containers ["web"] (Some 8) [m] = ["web"]
  /\ missing_containers ["web"] (Some 7) [m] = []
  /\ missing_hosts ["https://a"; "https://b"]
                   (collect_existing_urls [mkMonitor 2 "a" HTTP (Some "https://a") None []])
     = ["https://b"].
Proof. repeat split. Qed.

(** ** The calls of a whole run *)

Section RunCalls.

Variable P : Call -> Prop.
Hypothesis P_housekeeping : forall c, housekeeping c -> P c.

Variables uptime_url username password : string.
Let reauth := ensure_authenticated uptime_url username password.

Ltac housekeeping_goals := try (apply P_housekeeping; exact I).

Lemma reauth_emits : emits P reauth.
Proof.
  apply ensure_authenticated_emits.
  intros c [->|[->| ->]]; apply P_housekeeping; exact I.
Qed.

Lemma extract_hosts_from_traefik_emits (traefik_url : string) :
  emits P (extract_hosts_from_traefik traefik_url).
Proof.
  unfold extract_hosts_from_traefik, raise_for_status, response_json. emits_auto.
Qed.

Lemma extract_containers_from_docker_emits (docker_url : string) :
  emits P (extract_containers_from_docker docker_url).
Proof.
  unfold extract_containers_from_docker, raise_for_status, response_json. emits_auto.
Qed.

Lemma get_or_create_tag_emits (tag_name : string) :
  emits P (get_or_create_tag tag_name (Some reauth)).
Proof.
  unfold get_or_create_tag, lookup_or_create_tag, call_opt. emits_auto;
    housekeeping_goals; apply reauth_emits.
Qed.

Lemma get_docker_host_id_emits (name : string) :
  emits P (get_docker_host_id name (Some reauth)).
Proof.
  unfold get_docker_host_id, lookup_docker_host, call_opt. emits_auto;
    housekeeping_goals; apply reauth_emits.
Qed.

Lemma add_tags_emits (monitor_id : Z) (tag_ids : list (option Z)) :
  emits P (add_tags_to_monitor monitor_id tag_ids (Some reauth)).
Proof.
  apply add_tags_to_monitor_emits.
  - intros c [t [-> _]]. apply P_housekeeping. exact I.
  - apply reauth_emits.
Qed.

Lemma remove_tag_emits (monitor_id : Z) (tag : TagRef) :
  emits P (remove_tag reauth monitor_id tag).
Proof.
  unfold remove_tag. emits_auto; housekeeping_goals; apply reauth_emits.
Qed.

Lemma update_monitor_tags_emits (reset_tags : bool) (m : Monitor)
      (tag_id kind_tag_id : option Z) :
  emits P (update_monitor_tags reset_tags reauth m tag_id kind_tag_id).
Proof.
  unfold update_monitor_tags, reset_monitor_tags, remove_all_tags, check_monitor_tags.
  destruct reset_tags.
  - destruct (0 <? List.length (monitor_tags m))%nat; [|apply add_tags_emits].
    apply emits_bind.
    + apply emits_for_fold. intros tag failed _.
      apply emits_bind; [apply remove_tag_emits | intros; apply emits_ret].
    + intros failed. destruct (negb failed); [apply add_tags_emits | apply emits_ret].
  - destruct (missing_tags _ _ _); [apply emits_ret | apply add_tags_emits].
Qed.

Lemma create_monitor_emits {S} (cfg : MonitorConfig) (tags_to_add : list (option Z))
      (created unchanged : S) :
  P (CAddMonitor cfg) ->
  emits P (create_monitor reauth cfg tags_to_add created unchanged).
Proof.
  intros Hc. unfold create_monitor. emits_auto; auto; apply add_tags_emits.
Qed.

Lemma prune_monitors_emits (ignore_patterns : list string) (monitors : list Monitor) :
  (forall m, In m (monitors_to_remove ignore_patterns monitors) ->
             P (CDeleteMonitor (monitor_id m))) ->
  emits P (prune_monitors ignore_patterns monitors).
Proof.
  intros Hd. unfold prune_monitors.
  destruct ignore_patterns as [|p ps]; [apply emits_ret|].
  destruct (monitors_to_remove (p :: ps) monitors) as [|m ms] eqn:E; [apply emits_ret|].
  unfold delete_one. emits_auto; housekeeping_goals. now apply Hd.
Qed.

Lemma process_traefik_emits (ignore_patterns : list string) (reset_tags : bool)
      (monitors : list Monitor) (traefik_tag_id : option Z) (traefik_info : Server)
      (vars : list string * Z) :
  (forall host, should_ignore host ignore_patterns = false ->
                P (CAddMonitor (http_monitor_config host))) ->
  emits P (process_traefik ignore_patterns reset_tags reauth monitors traefik_tag_id
                           traefik_info vars).
Proof.
  intros Hc. unfold process_traefik. cbv zeta.
  apply emits_bind; [apply extract_hosts_from_traefik_emits | intros hosts].
  destruct hosts as [|h0 hosts0]; [emits_auto|].
  set (hosts := h0 :: hosts0).
  apply emits_bind.
  { destruct (PyStr.truthy _); [apply get_or_create_tag_emits | apply emits_ret]. }
  intros tag_id. apply emits_bind.
  { destruct (truthy_id tag_id); [|apply emits_ret].
    apply emits_for_each. intros host _.
    destruct (find _ monitors); [apply update_monitor_tags_emits | apply emits_ret]. }
  intros _. apply emits_for_fold. intros host vars' Hin.
  apply create_monitor_emits, Hc.
  apply In_missing_hosts in Hin. destruct Hin as [Hin _].
  unfold filter_hosts in Hin. destruct ignore_patterns as [|p ps]; [reflexivity|].
  apply filter_In in Hin. destruct Hin as [_ Hin]. now apply negb_true_iff.
Qed.

Lemma process_docker_emits (reset_tags : bool) (monitors : list Monitor)
      (docker_info : Server) (total_created : Z) :
  (forall container_name docker_host_id,
      P (CAddMonitor (docker_monitor_config container_name docker_host_id))) ->
  emits P (process_docker reset_tags reauth monitors docker_info total_created).
Proof.
  intros Hc. unfold process_docker. cbv zeta.
  apply emits_bind; [apply extract_containers_from_docker_emits | intros containers].
  destruct containers as [|c0 containers0]; [emits_auto|].
  apply emits_bind.
  { destruct (PyStr.truthy _); [apply get_or_create_tag_emits | apply emits_ret]. }
  intros tag_id.
  apply emits_bind; [apply get_or_create_tag_emits | intros docker_tag_id].
  apply emits_bind; [apply get_docker_host_id_emits | intros docker_host_id].
  destruct (negb (truthy_id docker_host_id)); [emits_auto|].
  apply emits_bind.
  { destruct (_ || _); [|apply emits_ret].
    apply emits_for_each. intros container_name _.
    destruct (find _ monitors); [apply update_monitor_tags_emits | apply emits_ret]. }
  intros _. apply emits_for_fold. intros container_name total _.
  apply create_monitor_emits, Hc.
Qed.

Lemma sync_groups_emits (traefik_servers docker_servers : list Server)
      (ignore_patterns : list string) (reset_tags : bool) (monitors : list Monitor) :
  (forall host, should_ignore host ignore_patterns = false ->
                P (CAddMonitor (http_monitor_config host))) ->
  (forall container_name docker_host_id,
      P (CAddMonitor (docker_monitor_config container_name docker_host_id))) ->
  emits P (sync_groups traefik_servers docker_servers ignore_patterns reset_tags
                       reauth monitors).
Proof.
  intros Hh Hd. unfold sync_groups. cbv zeta.
  apply emits_bind; [apply get_or_create_tag_emits | intros traefik_tag_id].
  apply emits_bind; [destruct (negb _); [apply emits_print | apply emits_ret] | intros _].
  apply emits_bind.
  { apply emits_for_fold. intros info vars _. now apply process_traefik_emits. }
  intros vars. apply emits_bind; [|intros; apply emits_print].
  apply emits_for_fold. intros info total _. now apply process_docker_emits.
Qed.

Lemma sync_monitors_emits (traefik_servers docker_servers : list Server)
      (ignore_patterns : list string) (reset_tags : bool) :
  (forall id, P (CDeleteMonitor id)) ->
  (forall host, should_ignore host ignore_patterns = false ->
                P (CAddMonitor (http_monitor_config host))) ->
  (forall container_name docker_host_id,
      P (CAddMonitor (docker_monitor_config container_name docker_host_id))) ->
  emits P (sync_monitors uptime_url traefik_servers docker_servers username password
                         ignore_patterns reset_tags).
Proof.
  intros Hdel Hh Hd. unfold sync_monitors, sync_body. cbv zeta.
  apply emits_bind; [apply emits_api_connect, P_housekeeping; exact I | intros _].
  apply emits_try_finally;
    [|apply emits_try_pass, emits_api_disconnect, P_housekeeping; exact I].
  apply emits_try_except; [|intros; emits_auto].
  apply emits_bind; [apply emits_api_login, P_housekeeping; exact I | intros _].
  apply emits_bind; [apply emits_api_get_monitors, P_housekeeping; exact I | intros ms].
  apply emits_bind; [apply prune_monitors_emits; auto | intros ms'].
  now apply sync_groups_emits.
Qed.

End RunCalls.

(** ** Ignore patterns *)

Lemma should_ignore_loop_iff (url hostname : string) (ignore_patterns : list string) :
  should_ignore_loop url hostname ignore_patterns = true
  <-> exists pattern,
      In pattern ignore_patterns
      /\ PyStr.strip pattern <> EmptyString
      /\ (Fnmatch.fnmatch (PyStr.lower hostname) (PyStr.lower (PyStr.strip pattern)) = true
          \/ Fnmatch.fnmatch (PyStr.lower url) (PyStr.lower (PyStr.strip pattern)) = true).
Proof.
  induction ignore_patterns as [|p ps IH]; simpl.
  - split; [discriminate | intros [p [[] _]]].
  - destruct (PyStr.truthy (PyStr.strip p)) eqn:T; simpl.
    + apply truthy_nonempty in T.
      destruct (Fnmatch.fnmatch (PyStr.lower hostname) (PyStr.lower (PyStr.strip p))
                || Fnmatch.fnmatch (PyStr.lower url) (PyStr.lower (PyStr.strip p))) eqn:F.
      * split; [intros _|reflexivity]. exists p. split; [now left|].
        split; [exact T|]. now apply orb_true_iff.
      * rewrite IH. split.
        -- intros [q [Hq H]]. exists q. split; [now right | exact H].
        -- intros [q [[<-|Hq] [Hn H]]]; [|now exists q].
           apply orb_true_iff in H. congruence.
    + rewrite IH. split.
      * intros [q [Hq H]]. exists q. split; [now right | exact H].
      * intros [q [[<-|Hq] [Hn H]]]; [|now exists q].
        apply truthy_nonempty in Hn. congruence.
Qed.

(** An identifier is ignored exactly when some pattern, trimmed and not
    empty, matches its host component or the identifier itself, all in
    lower case. *)
Lemma should_ignore_iff (url : string) (ignore_patterns : list string) :
  should_ignore url ignore_patterns = true
  <-> exists pattern,
      In pattern ignore_patterns
      /\ PyStr.strip pattern <> EmptyString
      /\ (Fnmatch.fnmatch (PyStr.lower (hostname_of url))
                          (PyStr.lower (PyStr.strip pattern)) = true
          \/ Fnmatch.fnmatch (PyStr.lower url) (PyStr.lower (PyStr.strip pattern)) = true).
Proof.
  unfold should_ignore. destruct ignore_patterns as [|p ps].
  - split; [discriminate | intros [q [[] _]]].
  - apply should_ignore_loop_iff.
Qed.

Lemma In_filter_hosts (ignore_patterns hosts : list string) (h : string) :
  In h (filter_hosts ignore_patterns hosts)
  <-> In h hosts /\ should_ignore h ignore_patterns = false.
Proof.
  unfold filter_hosts. destruct ignore_patterns as [|p ps].
  - simpl. tauto.
  - rewrite filter_In, negb_true_iff. tauto.
Qed.

(** C6, counterexample.  The container name [test-db] matches the ignore
    pattern [test-*], yet the run creates a monitor for it: container names
    are not filtered. *)
Lemma ignored_container_is_created :
  let r := sync_monitors "http://kuma" [] [mkServer "tcp://docker:2375" "prod"]
                         "admin" "secret" ["test-*"] false ignore_world in
  should_ignore "test-db" ["test-*"] = true
  /\ calls (snd r) =
     [ CConnect "http://kuma"; CLogin "admin" "secret"; CGetMonitors;
       CGetTags; CAddTag "traefik" "#4299e1";
       CGetTags; CAddTag "prod" "#4299e1";
       CGetTags; CAddTag "docker" "#4299e1";
       CGetDockerHosts;
       CAddMonitor (docker_monitor_config "test-db" (Some 7));
       CAddMonitorTag (Some 3) 5 ""; CAddMonitorTag (Some 4) 5 "";
       CDisconnect ]
  /\ map monitor_name (srv_monitors (snd r)) = ["test-db"; "test-db"].
Proof. vm_compute. repeat split. Qed.

(** C6, as the code has it.  An identifier matches the ignore patterns
    exactly when some pattern, once trimmed not empty, matches its host
    component or the identifier itself, case-insensitively.  Every
    proxy-discovered identifier that matches is removed from the hosts of
    its group, and no run ever creates an HTTP monitor for such an
    identifier. *)
Theorem ignored_hosts_never_created
        (uptime_url username password : string)
        (traefik_servers docker_servers : list Server)
        (ignore_patterns : list string) (reset_tags : bool) (w : World) :
  (forall url,
      should_ignore url ignore_patterns = true
      <-> exists pattern,
          In pattern ignore_patterns
          /\ PyStr.strip pattern <> EmptyString
          /\ (Fnmatch.fnmatch (PyStr.lower (hostname_of url))
                              (PyStr.lower (PyStr.strip pattern)) = true
              \/ Fnmatch.fnmatch (PyStr.lower url)
                                 (PyStr.lower (PyStr.strip pattern)) = true))
  /\ (forall hosts h,
         In h (filter_hosts ignore_patterns hosts)
         <-> In h hosts /\ should_ignore h ignore_patterns = false)
  /\ exists l,
      calls (snd (sync_monitors uptime_url traefik_servers docker_servers
                                username password ignore_patterns reset_tags w))
      = calls w ++ l
      /\ Forall (fun c => forall cfg,
                     c = CAddMonitor cfg -> cfg_type cfg = HTTP ->
                     exists host, cfg = http_monitor_config host
                                  /\ should_ignore host ignore_patterns = false) l.
Proof.
  split; [|split].
  - intros url. apply should_ignore_iff.
  - apply In_filter_hosts.
  - apply (sync_monitors_emits
             (fun c => forall cfg,
                  c = CAddMonitor cfg -> cfg_type cfg = HTTP ->
                  exists host, cfg = http_monitor_config host
                               /\ should_ignore host ignore_patterns = false)).
    + intros c Hc cfg ->. destruct Hc.
    + intros id cfg H. discriminate.
    + intros host Hi cfg H _. inversion H. eauto.
    + intros name id cfg H T. inversion H; subst. discriminate.
Qed.

(** ** Pruning *)

Lemma removal_failures_nil (to_remove : list Monitor) : removal_failures to_remove [] = [].
Proof. now destruct to_remove. Qed.

Lemma delete_one_step (m : Monitor) (w : World) :
  exists w1,
    delete_one m w = (Return tt, w1)
    /\ calls w1 = calls w ++ [CDeleteMonitor (monitor_id m)]
    /\ stdout w1 = stdout w ++ removal_failures [m] (faults w)
    /\ faults w1 = tl (faults w).
Proof.
  destruct w as [ms ts dh nid nt fs cs out].
  unfold delete_one, try_except, api_delete_monitor, api_call, print. simpl.
  destruct fs as [|[e|] rest]; simpl; eexists; repeat split; simpl;
    now rewrite ?app_nil_r.
Qed.

Lemma delete_loop (to_remove : list Monitor) (w : World) :
  exists w1,
    for_each to_remove delete_one w = (Return tt, w1)
    /\ calls w1 = calls w ++ map (fun m => CDeleteMonitor (monitor_id m)) to_remove
    /\ stdout w1 = stdout w ++ removal_failures to_remove (faults w).
Proof.
  revert w. induction to_remove as [|m ms IH]; intros w.
  - exists w. simpl. now rewrite !app_nil_r.
  - destruct (delete_one_step m w) as [w1 [E1 [C1 [O1 F1]]]].
    destruct (IH w1) as [w2 [E2 [C2 O2]]].
    exists w2. simpl. unfold bind. rewrite E1, E2. split; [reflexivity|].
    rewrite C2, C1, O2, O1, F1, <- !app_assoc. split; [reflexivity|].
    f_equal. destruct (faults w) as [|[e|] rest]; simpl;
      now rewrite ?removal_failures_nil.
Qed.

Lemma should_ignore_no_patterns (url : string) : should_ignore url [] = false.
Proof. reflexivity. Qed.

Lemma monitors_to_remove_no_patterns (monitors : list Monitor) :
  monitors_to_remove [] monitors = [].
Proof.
  unfold monitors_to_remove. induction monitors as [|m ms IH]; simpl; [reflexivity|].
  destruct (truthy_url m); exact IH.
Qed.

Lemma In_monitors_to_remove (ignore_patterns : list string) (monitors : list Monitor)
      (m : Monitor) :
  In m (monitors_to_remove ignore_patterns monitors)
  <-> In m monitors
      /\ exists url, monitor_url m = Some url /\ url <> EmptyString
                     /\ should_ignore url ignore_patterns = true.
Proof.
  unfold monitors_to_remove. rewrite filter_In. split.
  - intros [Hm H]. split; [exact Hm|].
    destruct (truthy_url m) as [url|] eqn:T; [|discriminate].
    apply truthy_url_iff in T. destruct T as [U N]. eauto.
  - intros [Hm [url [U [N S]]]]. split; [exact Hm|].
    assert (T : truthy_url m = Some url) by now apply truthy_url_iff.
    now rewrite T.
Qed.

(** C3, counterexample.  The monitor [test-db] has no URL and a name that
    matches the ignore pattern [test-*]; the run deletes nothing and the
    monitor is still there at the end. *)
Lemma monitor_matching_by_name_is_kept :
  let r := sync_monitors "http://kuma" [] [] "admin" "secret" ["test-*"] false
                         ignore_world in
  should_ignore "test-db" ["test-*"] = true
  /\ map (fun m => (monitor_name m, monitor_url m)) (srv_monitors ignore_world)
     = [("test-db", None)]
  /\ calls (snd r) =
     [ CConnect "http://kuma"; CLogin "admin" "secret"; CGetMonitors;
       CGetTags; CAddTag "traefik" "#4299e1"; CDisconnect ]
  /\ srv_monitors (snd r) = srv_monitors ignore_world.
Proof. vm_compute. repeat split. Qed.

(** C3, as the code has it.  The monitors to remove are those with a
    non-empty URL that matches an ignore pattern (the name is not looked
    at).  The pruning attempts the deletion of each of them, in order,
    whatever the fate of the others, prints one line per deletion that
    fails, and then reads the monitor list again; what it returns is that
    fresh list.  The pruning comes first in the run, after the login and the
    first reading of the monitors, and nothing after it deletes a
    monitor. *)
Theorem pruning_spec
        (uptime_url username password : string)
        (traefik_servers docker_servers : list Server)
        (ignore_patterns : list string) (reset_tags : bool)
        (monitors : list Monitor) (w : World) :
  let to_remove := monitors_to_remove ignore_patterns monitors in
  let r := prune_monitors ignore_patterns monitors w in
  (forall m,
      In m to_remove
      <-> In m monitors
          /\ exists url, monitor_url m = Some url /\ url <> EmptyString
                         /\ should_ignore url ignore_patterns = true)
  /\ calls (snd r)
     = calls w ++ map (fun m => CDeleteMonitor (monitor_id m)) to_remove
               ++ match to_remove with [] => [] | _ => [CGetMonitors] end
  /\ stdout (snd r) = stdout w ++ removal_failures to_remove (faults w)
  /\ (forall ms, fst r = Return ms ->
                 ms = match to_remove with
                      | [] => monitors
                      | _ => srv_monitors (snd r)
                      end)
  /\ sync_body uptime_url traefik_servers docker_servers username password
               ignore_patterns reset_tags
     = (api_login username password ;;
        snapshot <- api_get_monitors ;;
        snapshot <- prune_monitors ignore_patterns snapshot ;;
        sync_groups traefik_servers docker_servers ignore_patterns reset_tags
                    (ensure_authenticated uptime_url username password) snapshot)
  /\ (forall snapshot w',
         exists l,
           calls (snd (sync_groups traefik_servers docker_servers ignore_patterns
                                   reset_tags
                                   (ensure_authenticated uptime_url username password)
                                   snapshot w'))
           = calls w' ++ l
           /\ Forall (fun c => forall id, c <> CDeleteMonitor id) l).
Proof.
  cbv zeta. split; [|split; [|split; [|split; [|split]]]].
  - apply In_monitors_to_remove.
  - unfold prune_monitors. destruct ignore_patterns as [|p ps].
    + rewrite monitors_to_remove_no_patterns. simpl. now rewrite app_nil_r.
    + destruct (monitors_to_remove (p :: ps) monitors) as [|m ms] eqn:E.
      * simpl. now rewrite app_nil_r.
      * destruct (delete_loop (m :: ms) w) as [w1 [E1 [C1 O1]]].
        unfold bind. rewrite E1.
        destruct w1 as [ms1 ts dh nid nt fs cs out]. simpl in *.
        unfold api_get_monitors, api_call. simpl.
        destruct fs as [|[e|] rest]; simpl; now rewrite C1, <- app_assoc.
  - unfold prune_monitors. destruct ignore_patterns as [|p ps].
    + rewrite monitors_to_remove_no_patterns. simpl. now rewrite app_nil_r.
    + destruct (monitors_to_remove (p :: ps) monitors) as [|m ms] eqn:E.
      * simpl. now rewrite app_nil_r.
      * destruct (delete_loop (m :: ms) w) as [w1 [E1 [C1 O1]]].
        unfold bind. rewrite E1.
        destruct w1 as [ms1 ts dh nid nt fs cs out]. simpl in *.
        unfold api_get_monitors, api_call. simpl.
        destruct fs as [|[e|] rest]; simpl; exact O1.
  - intros snapshot. unfold prune_monitors. destruct ignore_patterns as [|p ps].
    + rewrite monitors_to_remove_no_patterns. simpl. congruence.
    + destruct (monitors_to_remove (p :: ps) monitors) as [|m ms] eqn:E.
      * simpl. congruence.
      * destruct (delete_loop (m :: ms) w) as [w1 [E1 [C1 O1]]].
        unfold bind. rewrite E1.
        destruct w1 as [ms1 ts dh nid nt fs cs out]. simpl in *.
        unfold api_get_monitors, api_call. simpl.
        destruct fs as [|[e|] rest]; simpl; congruence.
  - reflexivity.
  - intros snapshot w'.
    apply (sync_groups_emits (fun c => forall id, c <> CDeleteMonitor id)).
    + intros c Hc id ->. destruct Hc.
    + intros; discriminate.
    + intros; discriminate.
Qed.

(** ** Reset of the tags of a monitor *)

Lemma ensure_authenticated_prints (url u p : string) (w : World) :
  exists o, stdout (snd (ensure_authenticated url u p w)) = stdout w ++ o
            /\ Forall (fun x => ~ is_removal_failure x) o.
Proof.
  destruct w as [ms ts dh nid nt fs cs out].
  unfold ensure_authenticated, bind, print, try_except, api_disconnect, api_connect,
    api_login, api_call, ret, sys_exit. simpl.
  destruct fs as [|[e1|] [|[e2|] [|[e3|] rest]]]; simpl; rewrite <- ?app_assoc; simpl;
    eexists; (split; [reflexivity|]); repeat constructor; simpl; tauto.
Qed.

Lemma api_delete_monitor_tag_step (t id : Z) (v : string) (w : World) :
  let r := api_delete_monitor_tag t id v w in
  calls (snd r) = calls w ++ [CDeleteMonitorTag t id v]
  /\ stdout (snd r) = stdout w
  /\ (fst r = Return tt \/ exists e, fst r = Raise e).
Proof.
  destruct w as [ms ts dh nid nt fs cs out].
  unfold api_delete_monitor_tag, api_call. simpl.
  destruct fs as [|[e|] rest]; simpl; repeat split; eauto.
Qed.

(** One removal: its first call is the removal itself, the others are a
    re-authentication and a second removal; it returns the flag [failed],
    set exactly when a failure line is printed, or ends the process with
    status 1. *)
Lemma remove_tag_spec (url u p : string) (monitor_id : Z) (tag : TagRef) (w : World) :
  let r := remove_tag (ensure_authenticated url u p) monitor_id tag w in
  exists l o,
    calls (snd r) = calls w ++ removal_call monitor_id tag :: l
    /\ Forall (fun c => c = removal_call monitor_id tag \/ is_reauth_call url u p c) l
    /\ stdout (snd r) = stdout w ++ o
    /\ ((fst r = Return true /\ Exists is_removal_failure o)
        \/ (fst r = Return false /\ Forall (fun x => ~ is_removal_failure x) o)
        \/ fst r = SysExit 1).
Proof.
  cbv zeta. rewrite remove_tag_attempts. fold (removal_call monitor_id tag).
  destruct (api_delete_monitor_tag_step (tagref_tag_id tag) monitor_id (tagref_value tag) w)
    as [C1 [O1 R1]].
  fold (removal_call monitor_id tag) in C1.
  destruct (api_delete_monitor_tag _ _ _ w) as [[[]|e1|c] w1]; simpl in *.
  - exists [], []. rewrite app_nil_r.
    split; [exact C1 | split; [constructor | split; [exact O1|]]].
    right. left. split; [reflexivity | constructor].
  - destruct (session_expired (PyStr.lower e1)).
    + pose proof (ensure_authenticated_outcome url u p w1) as Ho.
      destruct (ensure_authenticated_prints url u p w1) as [o2 [O2 F2]].
      destruct (ensure_authenticated_emits (is_reauth_call url u p) url u p
                  (fun c H => H) w1) as [l2 [C2 L2]].
      assert (HL2 : Forall (fun c => c = removal_call monitor_id tag
                                     \/ is_reauth_call url u p c) l2).
      { eapply Forall_impl; [|exact L2]. auto. }
      destruct (ensure_authenticated url u p w1) as [[[]|e|c] w2]; simpl in *.
      * destruct (api_delete_monitor_tag_step (tagref_tag_id tag) monitor_id
                    (tagref_value tag) w2) as [C3 [O3 R3]].
        fold (removal_call monitor_id tag) in C3.
        assert (HL : Forall (fun c => c = removal_call monitor_id tag
                                      \/ is_reauth_call url u p c)
                            (l2 ++ [removal_call monitor_id tag])).
        { apply Forall_app. split; [exact HL2|].
          constructor; [now left | constructor]. }
        destruct (api_delete_monitor_tag _ _ _ w2) as [[[]|e2|c] w3]; simpl in *.
        -- exists (l2 ++ [removal_call monitor_id tag]), o2.
           split; [now rewrite C3, C2, C1, <- !app_assoc|].
           split; [exact HL|]. split; [now rewrite O3, O2, O1|].
           right. left. now split.
        -- exists (l2 ++ [removal_call monitor_id tag]),
             (o2 ++ [if session_expired (PyStr.lower e2)
                     then FailedAfterReauth e2 else WarnRemoveTag e2]).
           split; [now rewrite C3, C2, C1, <- !app_assoc|].
           split; [exact HL|]. split; [now rewrite O3, O2, O1, <- !app_assoc|].
           left. split; [reflexivity|]. apply Exists_app. right. constructor.
           now destruct (session_expired (PyStr.lower e2)).
        -- destruct R3 as [R3|[e R3]]; discriminate.
      * destruct Ho; discriminate.
      * destruct Ho as [Ho|Ho]; [discriminate|]. inversion Ho; subst c.
        exists l2, o2.
        split; [now rewrite C2, C1, <- !app_assoc|].
        split; [exact HL2|]. split; [now rewrite O2, O1|].
        right. now right.
    + exists [], [WarnRemoveTag e1]. simpl.
      split; [exact C1 | split; [apply Forall_nil | split; [now rewrite O1|]]].
      left. split; [reflexivity|]. constructor. exact I.
  - destruct R1 as [R1|[e R1]]; discriminate.
Qed.

Lemma bind_run {A B} (m : M A) (k : A -> M B) (w : World) :
  bind m k w = match m w with
               | (Return a, w1) => k a w1
               | (Raise e, w1) => (Raise e, w1)
               | (SysExit c, w1) => (SysExit c, w1)
               end.
Proof. reflexivity. Qed.

Lemma for_fold_cons {A S} (x : A) (xs : list A) (s : S) (body : A -> S -> M S)
      (w : World) :
  for_fold (x :: xs) s body w
  = match body x s w with
    | (Return s', w1) => for_fold xs s' body w1
    | (Raise e, w1) => (Raise e, w1)
    | (SysExit c, w1) => (SysExit c, w1)
    end.
Proof. reflexivity. Qed.

(** The removal loop, started with the flag [failed0]: every call is a
    removal of one of the tags or belongs to a re-authentication; when the
    loop returns, every tag has had its removal attempted and the flag is
    set exactly when it was set before or a failure line was printed. *)
Lemma remove_loop_spec (url u p : string) (monitor_id : Z) (tags : list TagRef)
      (failed0 : bool) (w : World) :
  let r := for_fold tags failed0 (fun tag failed =>
             f <- remove_tag (ensure_authenticated url u p) monitor_id tag ;;
             ret (failed || f)) w in
  exists l o,
    calls (snd r) = calls w ++ l
    /\ Forall (fun c => (exists tag, In tag tags /\ c = removal_call monitor_id tag)
                        \/ is_reauth_call url u p c) l
    /\ stdout (snd r) = stdout w ++ o
    /\ ((exists failed,
            fst r = Return failed
            /\ (forall tag, In tag tags -> In (removal_call monitor_id tag) l)
            /\ (failed = true <-> failed0 = true \/ Exists is_removal_failure o))
        \/ fst r = SysExit 1).
Proof.
  cbv zeta. revert failed0 w. induction tags as [|tag tags IH]; intros failed0 w.
  - exists [], []. simpl. rewrite !app_nil_r.
    split; [reflexivity | split; [constructor | split; [reflexivity|]]].
    left. exists failed0. split; [reflexivity|]. split; [intros t []|].
    split; [now left | intros [H|H]; [exact H | inversion H]].
  - destruct (remove_tag_spec url u p monitor_id tag w) as [l1 [o1 [C1 [L1 [O1 R1]]]]].
    rewrite for_fold_cons, bind_run.
    destruct (remove_tag (ensure_authenticated url u p) monitor_id tag w)
      as [[f|e|c] w1] eqn:E1; simpl in C1, O1, R1; cbn [ret].
    + destruct (IH (failed0 || f) w1) as [l2 [o2 [C2 [L2 [O2 R2]]]]].
      exists ((removal_call monitor_id tag :: l1) ++ l2), (o1 ++ o2).
      split; [now rewrite C2, C1, <- !app_assoc|].
      split.
      { apply Forall_app. split.
        - constructor.
          + left. exists tag. split; [now left | reflexivity].
          + eapply Forall_impl; [|exact L1]. intros c [->|H]; [|now right].
            left. exists tag. split; [now left | reflexivity].
        - eapply Forall_impl; [|exact L2].
          intros c [[t [Ht ->]]|H]; [|now right].
          left. exists t. split; [now right | reflexivity]. }
      split; [now rewrite O2, O1, <- !app_assoc|].
      destruct R2 as [[failed [Rf [Hall Hflag]]]|R2]; [|now right].
      left. exists failed. split; [exact Rf|]. split.
      * intros t [<-|Ht]; apply in_or_app; [left; now left | right; now apply Hall].
      * rewrite Hflag, Exists_app, orb_true_iff.
        destruct R1 as [[Rt X1]|[[Rt F1]|Rt]]; inversion Rt; subst f.
        -- tauto.
        -- assert (~ Exists is_removal_failure o1).
           { intros X. apply Exists_exists in X. destruct X as [x [Hx Hf]].
             rewrite Forall_forall in F1. now apply (F1 x). }
           intuition congruence.
    + destruct R1 as [[Rt _]|[[Rt _]|Rt]]; discriminate.
    + destruct R1 as [[Rt _]|[[Rt _]|Rt]]; try discriminate. inversion Rt; subst c.
      exists (removal_call monitor_id tag :: l1), o1.
      split; [exact C1|]. split.
      { constructor.
        - left. exists tag. split; [now left | reflexivity].
        - eapply Forall_impl; [|exact L1]. intros c [->|H]; [|now right].
          left. exists tag. split; [now left | reflexivity]. }
      split; [exact O1 | now right].
Qed.

(** *** The effect of the removals on the service *)

Lemma ensure_authenticated_monitors (url u p : string) (w : World) :
  srv_monitors (snd (ensure_authenticated url u p w)) = srv_monitors w.
Proof.
  destruct w as [ms ts dh nid nt fs cs out].
  unfold ensure_authenticated, bind, print, try_except, api_disconnect, api_connect,
    api_login, api_call, ret, sys_exit. simpl.
  destruct fs as [|[e1|] [|[e2|] [|[e3|] rest]]]; reflexivity.
Qed.

Lemma api_delete_monitor_tag_monitors (tag : TagRef) (id : Z) (w : World) :
  let r := api_delete_monitor_tag (tagref_tag_id tag) id (tagref_value tag) w in
  srv_monitors (snd r) = match fst r with
                         | Return _ => map (detach_tag id tag) (srv_monitors w)
                         | _ => srv_monitors w
                         end.
Proof.
  destruct w as [ms ts dh nid nt fs cs out]. destruct tag as [t v].
  unfold api_delete_monitor_tag, api_call. simpl.
  destruct fs as [|[e|] rest]; reflexivity.
Qed.

(** A removal that did not fail has detached the tag. *)
Lemma remove_tag_monitors (url u p : string) (id : Z) (tag : TagRef) (w : World) :
  let r := remove_tag (ensure_authenticated url u p) id tag w in
  fst r = Return false ->
  srv_monitors (snd r) = map (detach_tag id tag) (srv_monitors w).
Proof.
  cbv zeta. rewrite remove_tag_attempts.
  pose proof (api_delete_monitor_tag_monitors tag id w) as M1. cbv zeta in M1.
  destruct (api_delete_monitor_tag _ _ _ w) as [[[]|e1|c] w1]; simpl in *.
  - intros _. exact M1.
  - destruct (session_expired (PyStr.lower e1)); [|discriminate].
    pose proof (ensure_authenticated_monitors url u p w1) as M2.
    destruct (ensure_authenticated url u p w1) as [[[]|e|c] w2]; simpl in *;
      try discriminate.
    pose proof (api_delete_monitor_tag_monitors tag id w2) as M3. cbv zeta in M3.
    destruct (api_delete_monitor_tag _ _ _ w2) as [[[]|e2|c] w3]; simpl in *;
      try discriminate.
    intros _. now rewrite M3, M2, M1.
  - discriminate.
Qed.

(** A removal loop that ends with the flag down has detached every tag. *)
Lemma remove_loop_monitors (url u p : string) (id : Z) (tags : list TagRef)
      (failed0 : bool) (w : World) :
  let r := for_fold tags failed0 (fun tag failed =>
             f <- remove_tag (ensure_authenticated url u p) id tag ;;
             ret (failed || f)) w in
  fst r = Return false ->
  failed0 = false
  /\ srv_monitors (snd r) = map (without_tags id tags) (srv_monitors w).
Proof.
  cbv zeta. revert failed0 w. induction tags as [|tag tags IH]; intros failed0 w.
  - simpl. intros H. inversion H. split; [reflexivity|].
    unfold without_tags. simpl. now rewrite map_id.
  - rewrite for_fold_cons, bind_run.
    pose proof (remove_tag_monitors url u p id tag w) as M. cbv zeta in M.
    destruct (remove_tag (ensure_authenticated url u p) id tag w)
      as [[f|e|c] w1]; simpl in M; cbn [ret]; try discriminate.
    intros H. destruct (IH (failed0 || f) w1 H) as [F E].
    apply orb_false_iff in F. destruct F as [F0 Ff]. subst f.
    split; [exact F0|].
    rewrite E, (M eq_refl), map_map. reflexivity.
Qed.

Lemma detach_tag_id (id : Z) (t : TagRef) (m : Monitor) :
  monitor_id (detach_tag id t m) = monitor_id m.
Proof. unfold detach_tag. now destruct (monitor_id m =? id). Qed.

Lemma without_tags_tags (id : Z) (tags : list TagRef) (m : Monitor) :
  monitor_id m = id ->
  monitor_tags (without_tags id tags m)
  = filter (fun r => forallb (fun t => negb (TagRef_eqb r t)) tags) (monitor_tags m).
Proof.
  unfold without_tags. revert m. induction tags as [|t tags IH]; intros m Hid.
  - simpl. induction (monitor_tags m) as [|r l IHl]; simpl; [reflexivity|].
    now rewrite <- IHl.
  - cbn [fold_left]. rewrite IH by (now rewrite detach_tag_id).
    unfold detach_tag. rewrite Hid, Z.eqb_refl. simpl.
    induction (monitor_tags m) as [|r l IHl]; simpl; [reflexivity|].
    destruct (TagRef_eqb r t); simpl; [exact IHl|].
    destruct (forallb _ tags); [now rewrite IHl | exact IHl].
Qed.

Lemma TagRef_eqb_refl (r : TagRef) : TagRef_eqb r r = true.
Proof. unfold TagRef_eqb. now rewrite Z.eqb_refl, String.eqb_refl. Qed.

(** Detaching its own tags from a monitor leaves it with none. *)
Lemma without_own_tags (m : Monitor) :
  monitor_tags (without_tags (monitor_id m) (monitor_tags m) m) = [].
Proof.
  rewrite without_tags_tags by reflexivity.
  assert (H : forall l,
             (forall r, In r l -> In r (monitor_tags m)) ->
             filter (fun r => forallb (fun t => negb (TagRef_eqb r t)) (monitor_tags m)) l
             = []).
  { induction l as [|r l IHl]; intros Hl; simpl; [reflexivity|].
    assert (F : forallb (fun t => negb (TagRef_eqb r t)) (monitor_tags m) = false).
    { destruct (forallb _ (monitor_tags m)) eqn:E; [|reflexivity].
      rewrite forallb_forall in E. specialize (E r (Hl r (or_introl eq_refl))).
      now rewrite TagRef_eqb_refl in E. }
    rewrite F. apply IHl. intros r' Hr'. apply Hl. now right. }
  apply H. auto.
Qed.

Lemma reset_monitor_tags_no_raise (url u p : string) (m : Monitor)
      (tags_to_add : list (option Z)) :
  no_raise (reset_monitor_tags (ensure_authenticated url u p) m tags_to_add).
Proof.
  assert (Hadd : forall id, no_raise (add_tags_to_monitor id tags_to_add
                                        (Some (ensure_authenticated url u p)))).
  { intros id. apply add_tags_to_monitor_no_raise. simpl.
    apply ensure_authenticated_no_raise. }
  unfold reset_monitor_tags, remove_all_tags. cbv zeta.
  destruct (0 <? List.length (monitor_tags m))%nat; [|apply Hadd].
  apply no_raise_bind.
  - apply no_raise_for_fold. intros tag failed.
    apply no_raise_bind; [|intros; apply no_raise_ret].
    unfold remove_tag. apply no_raise_bind; [|intros; apply no_raise_ret].
    apply no_raise_for_in. intros attempt. apply no_raise_try_except. intros e.
    destruct (session_expired _).
    + destruct (_ <? _)%nat.
      * apply no_raise_bind; [apply ensure_authenticated_no_raise|].
        intros; apply no_raise_ret.
      * apply no_raise_bind; [apply no_raise_print | intros; apply no_raise_ret].
    + apply no_raise_bind; [apply no_raise_print | intros; apply no_raise_ret].
  - intros failed. destruct (negb failed); [apply Hadd | apply no_raise_ret].
Qed.

(** C7.  Reset mode, for one monitor.
    - A monitor with no tag goes straight to the addition of the required
      tags.
    - A monitor with tags first has the removal of each of its tags
      attempted; these calls and those of re-authentications are the only
      ones of that phase.  If a removal fails for good (a failure line is
      printed) nothing is added and the function returns, so the loop goes
      on with the next monitor; if none fails the service has detached
      all those tags (a monitor that had exactly them is left with none)
      and the required tags are added afterwards, by calls among which
      there is no removal.
    - The function never ends in an exception; it ends the process only
      when a re-authentication fails. *)
Theorem reset_removes_before_adding
        (url u p : string) (monitor_to_check : Monitor)
        (tags_to_add : list (option Z)) (w : World) :
  let reauth := ensure_authenticated url u p in
  let id := monitor_id monitor_to_check in
  let tags := monitor_tags monitor_to_check in
  let r := reset_monitor_tags reauth monitor_to_check tags_to_add w in
  let removal := remove_all_tags reauth id tags w in
  (forall e, fst r <> Raise e)
  /\ (tags = [] -> r = add_tags_to_monitor id tags_to_add (Some reauth) w)
  /\ (tags <> [] ->
      exists l o l',
        calls (snd removal) = calls w ++ l
        /\ Forall (fun c => (exists tag, In tag tags /\ c = removal_call id tag)
                            \/ is_reauth_call url u p c) l
        /\ stdout (snd removal) = stdout w ++ o
        /\ calls (snd r) = calls (snd removal) ++ l'
        /\ Forall (fun c => forall t m v, c <> CDeleteMonitorTag t m v) l'
        /\ ((fst removal = Return true
             /\ Exists is_removal_failure o
             /\ (forall tag, In tag tags -> In (removal_call id tag) l)
             /\ r = (Return tt, snd removal))
            \/ (fst removal = Return false
                /\ Forall (fun x => ~ is_removal_failure x) o
                /\ (forall tag, In tag tags -> In (removal_call id tag) l)
                /\ srv_monitors (snd removal)
                   = map (without_tags id tags) (srv_monitors w)
                /\ monitor_tags (without_tags id tags monitor_to_check) = []
                /\ r = add_tags_to_monitor id tags_to_add (Some reauth) (snd removal))
            \/ (fst removal = SysExit 1
                /\ r = (SysExit 1, snd removal)))).
Proof.
  cbv zeta. split; [apply reset_monitor_tags_no_raise | split].
  - intros E. unfold reset_monitor_tags. now rewrite E.
  - intros N. unfold reset_monitor_tags.
    destruct (monitor_tags monitor_to_check) as [|t0 ts0] eqn:Et; [congruence|].
    cbn [List.length Nat.ltb Nat.leb]. rewrite bind_run.
    destruct (remove_loop_spec url u p (monitor_id monitor_to_check) (t0 :: ts0) false w)
      as [l [o [C [L [O R]]]]].
    fold (remove_all_tags (ensure_authenticated url u p) (monitor_id monitor_to_check)
                          (t0 :: ts0)) in C, L, O, R.
    destruct (remove_all_tags (ensure_authenticated url u p)
                              (monitor_id monitor_to_check) (t0 :: ts0) w)
      as [[failed|e|c] w1] eqn:E; simpl in C, O, R; simpl fst; simpl snd.
    + destruct R as [[f [Rf [Hall Hflag]]]|R]; [|discriminate].
      inversion Rf; subst f. destruct failed; simpl negb; cbv iota.
      * exists l, o, []. rewrite app_nil_r.
        split; [exact C | split; [exact L | split; [exact O|]]].
        split; [reflexivity | split; [constructor|]].
        left. split; [reflexivity|]. split; [|split; [exact Hall | reflexivity]].
        destruct Hflag as [Hflag _]. destruct (Hflag eq_refl); [discriminate | assumption].
      * destruct (add_tags_to_monitor_emits
                    (fun c => forall t m v, c <> CDeleteMonitorTag t m v)
                    (monitor_id monitor_to_check) tags_to_add
                    (Some (ensure_authenticated url u p))) with (w := w1)
          as [l' [C' L']].
        { intros c [t [-> _]] t' m v. discriminate. }
        { simpl. apply ensure_authenticated_emits.
          intros c [->|[->| ->]] t m v; discriminate. }
        exists l, o, l'.
        split; [exact C | split; [exact L | split; [exact O|]]].
        split; [exact C' | split; [exact L'|]].
        right. left. split; [reflexivity|].
        split; [|split; [exact Hall | split; [|split; [|reflexivity]]]].
        -- apply Forall_Exists_neg. intros X.
           destruct Hflag as [_ Hflag]. specialize (Hflag (or_intror X)). discriminate.
        -- pose proof (remove_loop_monitors url u p (monitor_id monitor_to_check)
                         (t0 :: ts0) false w) as Hm.
           cbv zeta in Hm.
           fold (remove_all_tags (ensure_authenticated url u p)
                                 (monitor_id monitor_to_check) (t0 :: ts0)) in Hm.
           rewrite E in Hm. exact (proj2 (Hm eq_refl)).
        -- rewrite <- Et. apply without_own_tags.
    + destruct R as [[f [Rf _]]|R]; discriminate.
    + destruct R as [[f [Rf _]]|R]; [discriminate|]. inversion R; subst c.
      exists l, o, []. rewrite app_nil_r.
      split; [exact C | split; [exact L | split; [exact O|]]].
      split; [reflexivity | split; [constructor|]].
      right. right. now split.
Qed.

(** C7 at work: a monitor with two tags whose first removal fails with an
    error that is not a session error.  The second removal is still
    attempted, nothing is added, and the function returns. *)
Example reset_failed_removal_example :
  let m := mkMonitor 3 "a.example.com" HTTP (Some "https://a.example.com") None
                     [mkTagRef 5 ""; mkTagRef 6 ""] in
  let w := mkWorld [m] [] [] 10 edge_net [Some "timeout"] [] [] in
  let r := reset_monitor_tags (ensure_authenticated "http://kuma" "admin" "secret")
                              m [Some 1; Some 2] w in
  fst r = Return tt
  /\ calls (snd r) = [CDeleteMonitorTag 5 3 ""; CDeleteMonitorTag 6 3 ""]
  /\ stdout (snd r) = [WarnRemoveTag "timeout"]
  /\ map monitor_tags (srv_monitors (snd r)) = [[mkTagRef 5 ""]].
Proof. vm_compute. repeat split. Qed.

(** ** Two groups with the same identifier *)

(** C2 on the failing input.  The first Docker group creates the monitor
    ([web], host 7); the second group, which works from the monitor list
    read at the start of the run, creates a second monitor for the same
    name and host. *)
Theorem docker_monitor_created_twice :
  let r := sync_monitors "http://kuma" []
                         [mkServer "tcp://docker-a:2375" "prod";
                          mkServer "tcp://docker-b:2375" "prod"]
                         "admin" "secret" [] false twin_docker_world in
  fst r = Return tt
  /\ filter (fun c => match c with CAddMonitor _ => true | _ => false end)
            (calls (snd r))
     = [ CAddMonitor (docker_monitor_config "web" (Some 7));
         CAddMonitor (docker_monitor_config "web" (Some 7)) ]
  /\ map (fun m => (monitor_id m, monitor_name m, monitor_docker_host m))
         (srv_monitors (snd r))
     = [ (4, "web", Some 7); (5, "web", Some 7) ]
  /\ stdout (snd r) = [SyncComplete 2].
Proof. vm_compute. repeat split. Qed.

(** C4 on the failing input.  The first run creates the monitor with the
    tags of the first group; for the second group the host is already in
    [existing_urls] but the monitor is not in the list read at the start of
    the run, so its tag is not attached.  The second run, with the same
    sources and a session without faults, attaches it: one
    [add_monitor_tag] call. *)
Theorem second_run_adds_a_tag :
  let servers := [mkServer "http://traefik-a" "edge";
                  mkServer "http://traefik-b" "internal"] in
  let run := sync_monitors "http://kuma" servers [] "admin" "secret" [] false in
  let first := run twin_traefik_world in
  let second := run (next_run (snd first)) in
  fst first = Return tt
  /\ map monitor_tags (srv_monitors (snd first)) = [[mkTagRef 2 ""; mkTagRef 1 ""]]
  /\ fst second = Return tt
  /\ calls (snd second)
     = [ CConnect "http://kuma"; CLogin "admin" "secret"; CGetMonitors;
         CGetTags; CGetTags; CGetTags;
         CAddMonitorTag (Some 4) 3 "";
         CDisconnect ]
  /\ map monitor_tags (srv_monitors (snd second))
     = [[mkTagRef 2 ""; mkTagRef 1 ""; mkTagRef 4 ""]].
Proof. vm_compute. repeat split. Qed.

(** ** Proxy identifiers are created once *)

Section SameUrls.

Variables uptime_url username password : string.
Let reauth := ensure_authenticated uptime_url username password.

Lemma same_urls_refl (w : World) : same_urls w w.
Proof. reflexivity. Qed.

Lemma same_urls_trans (a b c : World) : same_urls a b -> same_urls b c -> same_urls a c.
Proof. unfold same_urls. congruence. Qed.

Lemma same_urls_faults (fs : list (option string)) (w : World) :
  same_urls w (set_faults fs w).
Proof. reflexivity. Qed.

Lemma same_urls_output (o : Output) (w : World) : same_urls w (log_output o w).
Proof. reflexivity. Qed.

Lemma same_urls_call (c : Call) (w : World) : same_urls w (log_call c w).
Proof. reflexivity. Qed.

Lemma attach_tag_urls (id : Z) (t : TagRef) (ms : list Monitor) :
  map monitor_url (map (attach_tag id t) ms) = map monitor_url ms.
Proof.
  rewrite map_map. apply map_ext. intros m. unfold attach_tag.
  now destruct (monitor_id m =? id).
Qed.

Lemma detach_tag_urls (id : Z) (t : TagRef) (ms : list Monitor) :
  map monitor_url (map (detach_tag id t) ms) = map monitor_url ms.
Proof.
  rewrite map_map. apply map_ext. intros m. unfold detach_tag.
  now destruct (monitor_id m =? id).
Qed.

(** A client call whose effect on the service keeps the URLs. *)
Lemma same_urls_api_call {A} (c : Call) (op : M A) :
  steps same_urls op -> steps same_urls (api_call c op).
Proof.
  intros H. apply steps_api_call.
  - exact same_urls_trans.
  - exact same_urls_faults.
  - apply same_urls_call.
  - exact H.
Qed.

Ltac same_urls_step :=
  match goal with
  | |- steps same_urls (ret _) => apply steps_ret, same_urls_refl
  | |- steps same_urls (raise _) => apply steps_raise, same_urls_refl
  | |- steps same_urls (sys_exit _) => apply steps_sys_exit, same_urls_refl
  | |- steps same_urls (print _) => apply steps_print, same_urls_output
  | |- steps same_urls (requests_get _) => apply steps_requests_get, same_urls_refl
  | |- steps same_urls (bind _ _) =>
      apply (steps_bind _ same_urls_trans); [| intros ?]
  | |- steps same_urls (try_except _ _) =>
      apply (steps_try_except _ same_urls_trans); [| intros ?]
  | |- steps same_urls (for_in _ _) =>
      apply (steps_for_in _ same_urls_refl same_urls_trans); intros ? ?
  | |- steps same_urls (for_each _ _) =>
      apply (steps_for_each _ same_urls_refl same_urls_trans); intros ? ?
  | |- steps same_urls (for_fold _ _ _) =>
      apply (steps_for_fold _ same_urls_refl same_urls_trans); intros ? ? ?
  | |- steps same_urls (api_call _ _) => apply same_urls_api_call
  | |- steps same_urls (if ?b then _ else _) => destruct b eqn:?
  | |- steps same_urls (match ?x with _ => _ end) => destruct x eqn:?
  end.

Lemma reauth_same_urls : steps same_urls reauth.
Proof.
  unfold reauth, ensure_authenticated, api_disconnect, api_connect, api_login.
  repeat same_urls_step.
Qed.

Lemma get_or_create_tag_same_urls (tag_name : string) :
  steps same_urls (get_or_create_tag tag_name (Some reauth)).
Proof.
  unfold get_or_create_tag, lookup_or_create_tag, call_opt, api_get_tags, api_add_tag.
  repeat same_urls_step; try apply reauth_same_urls; intros w; reflexivity.
Qed.

Lemma add_tags_same_urls (monitor_id : Z) (tag_ids : list (option Z)) :
  steps same_urls (add_tags_to_monitor monitor_id tag_ids (Some reauth)).
Proof.
  unfold add_tags_to_monitor, add_tag_to_monitor, call_opt, api_add_monitor_tag.
  repeat same_urls_step; try apply reauth_same_urls.
  intros w. destruct x; [|reflexivity]. unfold same_urls. simpl.
  apply attach_tag_urls.
Qed.

Lemma update_monitor_tags_same_urls (reset_tags : bool) (m : Monitor)
      (tag_id kind_tag_id : option Z) :
  steps same_urls (update_monitor_tags reset_tags reauth m tag_id kind_tag_id).
Proof.
  unfold update_monitor_tags, reset_monitor_tags, remove_all_tags, remove_tag,
    check_monitor_tags, api_delete_monitor_tag.
  repeat same_urls_step; try apply reauth_same_urls; try apply add_tags_same_urls.
  intros w. unfold same_urls. simpl. apply detach_tag_urls.
Qed.

Lemma extract_hosts_same_urls (traefik_url : string) :
  steps same_urls (extract_hosts_from_traefik traefik_url).
Proof.
  unfold extract_hosts_from_traefik, raise_for_status, response_json.
  repeat same_urls_step.
Qed.

(** The hosts that the extractor returns are free of duplicates. *)
Lemma extract_hosts_NoDup (traefik_url : string) (w : World) (hosts : list string) :
  fst (extract_hosts_from_traefik traefik_url w) = Return hosts -> NoDup hosts.
Proof.
  unfold extract_hosts_from_traefik, try_except, bind, requests_get, raise_for_status,
    response_json, raise, ret, print.
  destruct (net w _) as [e|status body]; simpl.
  - intros H. inversion H. constructor.
  - destruct (_ && _); simpl; [intros H; inversion H; constructor|].
    destruct body as [|[routers|]|cs]; simpl; intros H; inversion H;
      try constructor;
      apply strictly_sorted_NoDup, sorted_strict, router_hosts_NoDup; constructor.
Qed.

(** The creation of one HTTP monitor: either nothing is created and the
    local variables stay as they were, or the service gains one monitor
    with the URL [host] and, unless the process ends, the variables are
    updated. *)
Lemma create_http_monitor (host : string) (tags_to_add : list (option Z))
      {S} (created unchanged : S) (w : World) :
  let r := create_monitor reauth (http_monitor_config host) tags_to_add
                          created unchanged w in
  (fst r = Return unchanged /\ same_urls w (snd r))
  \/ (map monitor_url (srv_monitors (snd r))
      = map monitor_url (srv_monitors w) ++ [Some host]
      /\ (fst r = Return created \/ exists c, fst r = SysExit c)).
Proof.
  cbv zeta. unfold create_monitor, try_except. rewrite bind_run.
  assert (Hadd : (exists w1, api_add_monitor (http_monitor_config host) w
                             = (Return (Some (srv_next_id w)), w1)
                             /\ map monitor_url (srv_monitors w1)
                                = map monitor_url (srv_monitors w) ++ [Some host])
                 \/ (exists e w1, api_add_monitor (http_monitor_config host) w
                                  = (Raise e, w1)
                                  /\ same_urls w w1)).
  { destruct w as [ms ts dh nid nt fs cs out].
    unfold api_add_monitor, api_call, same_urls. simpl.
    destruct fs as [|[e|] rest]; simpl.
    - left. eexists. split; [reflexivity|]. simpl. now rewrite map_app.
    - right. exists e. eexists. split; reflexivity.
    - left. eexists. split; [reflexivity|]. simpl. now rewrite map_app. }
  destruct Hadd as [[w1 [E U]]|[e [w1 [E U]]]]; rewrite E.
  - right. rewrite bind_run.
    set (tagging := if truthy_id (Some (srv_next_id w))
                    then add_tags_to_monitor (srv_next_id w) tags_to_add (Some reauth)
                    else ret tt).
    assert (Ht : steps same_urls tagging).
    { unfold tagging. destruct (truthy_id _);
        [apply add_tags_same_urls | apply steps_ret, same_urls_refl]. }
    assert (Hr : no_raise tagging).
    { unfold tagging. destruct (truthy_id _); [|apply no_raise_ret].
      apply add_tags_to_monitor_no_raise. simpl. apply ensure_authenticated_no_raise. }
    specialize (Ht w1). specialize (Hr w1). unfold same_urls in Ht.
    destruct (tagging w1) as [[[]|e|c] w2]; simpl in *.
    + split; [now rewrite Ht, U | now left].
    + now destruct (Hr e).
    + split; [now rewrite Ht, U | right; now exists c].
  - left. simpl. split; [reflexivity | exact U].
Qed.

(** The creation loop of one group: the service gains monitors for some
    of the missing hosts, at most one each, and the hosts of exactly
    those are added to [existing_urls]. *)
Lemma creation_loop_urls (tags_to_add : list (option Z)) (hs : list string)
      (vars : list string * Z) (w : World) :
  let r := for_fold hs vars (fun host vars =>
             create_monitor reauth (http_monitor_config host) tags_to_add
                            (set_add host (fst vars), snd vars + 1) vars) w in
  exists created,
    map monitor_url (srv_monitors (snd r))
    = map monitor_url (srv_monitors w) ++ map Some created
    /\ incl created hs
    /\ (NoDup hs -> NoDup created)
    /\ (forall vars', fst r = Return vars' ->
                      forall h, In h (fst vars') <-> In h (fst vars) \/ In h created).
Proof.
  cbv zeta. revert vars w. induction hs as [|host hs IH]; intros vars w.
  - exists []. simpl. rewrite app_nil_r.
    split; [reflexivity|]. split; [intros h []|]. split; [auto|].
    intros vars' Hr h. inversion Hr; subst. tauto.
  - rewrite for_fold_cons.
    destruct (create_http_monitor host tags_to_add
                (set_add host (fst vars), snd vars + 1) vars w) as [[E U]|[U E]].
    + destruct (create_monitor _ _ _ _ _ w) as [[v|e|c] w1]; simpl in E, U;
        try discriminate.
      inversion E; subst v.
      destruct (IH vars w1) as [created [Hu [Hi [Hn Hv]]]].
      exists created. unfold same_urls in U. rewrite Hu, U.
      split; [reflexivity|]. split; [now apply incl_tl|].
      split; [intros D; inversion D; auto | exact Hv].
    + destruct (create_monitor _ _ _ _ _ w) as [[v|e|c] w1]; simpl in E, U.
      * destruct E as [E|[c E]]; [|discriminate]. inversion E; subst v.
        destruct (IH (set_add host (fst vars), snd vars + 1) w1)
          as [created [Hu [Hi [Hn Hv]]]].
        exists (host :: created). rewrite Hu, U, <- app_assoc.
        split; [reflexivity|]. split.
        { intros h [<-|Hh]; [now left | right; now apply Hi]. }
        split.
        { intros D. inversion D; subst. constructor; auto. }
        intros vars' Hr h. rewrite (Hv vars' Hr h). simpl. rewrite In_set_add.
        intuition congruence.
      * destruct E as [E|[c E]]; discriminate.
      * exists [host]. simpl. rewrite U. split; [reflexivity|]. split.
        { intros h [<-|[]]. now left. }
        split; [intros _; constructor; [intros []|constructor] | discriminate].
Qed.

(** One group: the monitors it creates have distinct URLs, none of which
    was in [existing_urls] before, and all of which are there after. *)
Lemma process_traefik_urls (ignore_patterns : list string) (reset_tags : bool)
      (monitors : list Monitor) (traefik_tag_id : option Z) (traefik_info : Server)
      (vars : list string * Z) (w : World) :
  let r := process_traefik ignore_patterns reset_tags reauth monitors traefik_tag_id
                           traefik_info vars w in
  exists created,
    map monitor_url (srv_monitors (snd r))
    = map monitor_url (srv_monitors w) ++ map Some created
    /\ NoDup created
    /\ (forall h, In h created -> ~ In h (fst vars))
    /\ (forall vars', fst r = Return vars' ->
                      forall h, In h (fst vars') <-> In h (fst vars) \/ In h created).
Proof.
  cbv zeta.
  assert (Hnone : forall (o : Outcome (list string * Z)) (w' : World),
             same_urls w w' ->
             (forall vars', o = Return vars' -> vars' = vars) ->
             exists created,
               map monitor_url (srv_monitors w')
               = map monitor_url (srv_monitors w) ++ map Some created
               /\ NoDup created
               /\ (forall h, In h created -> ~ In h (fst vars))
               /\ (forall vars', o = Return vars' ->
                                 forall h, In h (fst vars')
                                           <-> In h (fst vars) \/ In h created)).
  { intros o w' U Hv. exists []. simpl. rewrite app_nil_r.
    split; [exact U|]. split; [constructor|]. split; [intros h []|].
    intros vars' Ho h. rewrite (Hv vars' Ho). tauto. }
  unfold process_traefik. cbv zeta. rewrite bind_run.
  pose proof (extract_hosts_same_urls (server_url traefik_info) w) as U0.
  pose proof (extract_hosts_NoDup (server_url traefik_info) w) as D0.
  destruct (extract_hosts_from_traefik (server_url traefik_info) w)
    as [[hosts|e|c] w0]; simpl in U0, D0.
  2, 3: apply Hnone; [exact U0 | discriminate].
  specialize (D0 hosts eq_refl).
  destruct hosts as [|h0 hosts0].
  { apply Hnone; [exact U0|]. simpl. intros v H. now inversion H. }
  set (hosts := filter_hosts ignore_patterns (h0 :: hosts0)).
  assert (D : NoDup hosts).
  { unfold hosts, filter_hosts. destruct ignore_patterns; [exact D0|].
    now apply NoDup_filter. }
  rewrite bind_run.
  set (resolve := if PyStr.truthy (server_group traefik_info)
                  then get_or_create_tag (server_group traefik_info) (Some reauth)
                  else ret None).
  assert (U1 : steps same_urls resolve).
  { unfold resolve. destruct (PyStr.truthy _);
      [apply get_or_create_tag_same_urls | apply steps_ret, same_urls_refl]. }
  specialize (U1 w0).
  destruct (resolve w0) as [[tag_id|e|c] w1]; simpl in U1.
  2, 3: apply Hnone; [eapply same_urls_trans; eauto | discriminate].
  rewrite bind_run.
  set (tagging := if truthy_id tag_id then _ else ret tt).
  assert (U2 : steps same_urls tagging).
  { unfold tagging. destruct (truthy_id tag_id); [|apply steps_ret, same_urls_refl].
    apply (steps_for_each _ same_urls_refl same_urls_trans). intros host _.
    destruct (find _ monitors);
      [apply update_monitor_tags_same_urls | apply steps_ret, same_urls_refl]. }
  specialize (U2 w1).
  destruct (tagging w1) as [[[]|e|c] w2]; simpl in U2.
  2, 3: apply Hnone;
    [eapply same_urls_trans; [exact U0|]; eapply same_urls_trans; eauto | discriminate].
  destruct (creation_loop_urls [tag_id; traefik_tag_id] (missing_hosts hosts (fst vars))
              vars w2) as [created [Hu [Hi [Hn Hv]]]].
  exists created. unfold same_urls in U0, U1, U2.
  split; [now rewrite Hu, U2, U1, U0|].
  split; [apply Hn; unfold missing_hosts; now apply NoDup_filter|].
  split; [|exact Hv].
  intros h Hc. apply Hi in Hc. apply In_missing_hosts in Hc. tauto.
Qed.

(** X26.  The loop over the Traefik servers: the monitors that a run
    creates for proxy identifiers have pairwise distinct URLs, none of which
    was in [existing_urls] when the loop began.  So the set is brought up
    to date after each creation and no later group creates a second monitor
    for an identifier. *)
Lemma proxy_monitors_created_once (ignore_patterns : list string) (reset_tags : bool)
      (monitors : list Monitor) (traefik_tag_id : option Z)
      (traefik_servers : list Server) (vars : list string * Z) (w : World) :
  let r := for_fold traefik_servers vars
             (process_traefik ignore_patterns reset_tags reauth monitors
                              traefik_tag_id) w in
  exists created,
    map monitor_url (srv_monitors (snd r))
    = map monitor_url (srv_monitors w) ++ map Some created
    /\ NoDup created
    /\ (forall h, In h created -> ~ In h (fst vars))
    /\ (forall vars', fst r = Return vars' ->
                      forall h, In h (fst vars') <-> In h (fst vars) \/ In h created).
Proof.
  cbv zeta. revert vars w.
  induction traefik_servers as [|info servers IH]; intros vars w.
  - exists []. simpl. rewrite app_nil_r.
    split; [reflexivity|]. split; [constructor|]. split; [intros h []|].
    intros vars' H h. inversion H; subst. tauto.
  - rewrite for_fold_cons.
    destruct (process_traefik_urls ignore_patterns reset_tags monitors traefik_tag_id
                info vars w) as [c1 [U1 [D1 [N1 V1]]]].
    destruct (process_traefik _ _ _ _ _ info vars w) as [[vars1|e|c] w1];
      simpl in U1, V1.
    + destruct (IH vars1 w1) as [c2 [U2 [D2 [N2 V2]]]].
      specialize (V1 vars1 eq_refl).
      exists (c1 ++ c2). rewrite U2, U1, map_app, <- app_assoc.
      split; [reflexivity|]. split.
      { apply NoDup_app; auto. intros h H1 H2. apply (N2 h H2). apply V1. now right. }
      split.
      { intros h Hc Hin. apply in_app_or in Hc. destruct Hc as [Hc|Hc].
        - now apply (N1 h Hc).
        - apply (N2 h Hc). apply V1. now left. }
      intros vars' Hr h. rewrite (V2 vars' Hr h), V1, in_app_iff. tauto.
    + exists c1. simpl.
      split; [exact U1|]. split; [exact D1|]. split; [exact N1 | discriminate].
    + exists c1. simpl.
      split; [exact U1|]. split; [exact D1|]. split; [exact N1 | discriminate].
Qed.

End SameUrls.

(* ====================================================================== *)
(** * More of the script *)
(* ====================================================================== *)

(** ** Trimming and splitting *)

Lemma lstrip_head (s : string) :
  match PyStr.lstrip s with
  | EmptyString => True
  | String c _ => PyStr.is_space c = false
  end.
Proof.
  induction s as [|c s IH]; simpl; [exact I|].
  destruct (PyStr.is_space c) eqn:E; [exact IH | exact E].
Qed.

Lemma rstrip_idempotent (s : string) : PyStr.rstrip (PyStr.rstrip s) = PyStr.rstrip s.
Proof.
  induction s as [|c s IH]; simpl; [reflexivity|].
  destruct (PyStr.rstrip s) as [|d r] eqn:E.
  - destruct (PyStr.is_space c) eqn:Sp; simpl; [reflexivity | now rewrite Sp].
  - simpl. simpl in IH. now rewrite IH.
Qed.

(** Trimming the right end leaves a first character that is not a space
    where it is. *)
Lemma rstrip_head (c : ascii) (s : string) :
  PyStr.is_space c = false ->
  exists r, PyStr.rstrip (String c s) = String c r.
Proof.
  intros Sp. simpl. destruct (PyStr.rstrip s); [rewrite Sp|]; eauto.
Qed.

Lemma strip_head (s : string) :
  match PyStr.strip s with
  | EmptyString => True
  | String c _ => PyStr.is_space c = false
  end.
Proof.
  unfold PyStr.strip. pose proof (lstrip_head s) as H.
  destruct (PyStr.lstrip s) as [|c r]; [exact I|].
  destruct (rstrip_head c r H) as [r' ->]. exact H.
Qed.

Lemma strip_idempotent (s : string) : PyStr.strip (PyStr.strip s) = PyStr.strip s.
Proof.
  pose proof (strip_head s) as H. unfold PyStr.strip in *.
  destruct (PyStr.rstrip (PyStr.lstrip s)) as [|c r] eqn:E; [reflexivity|].
  unfold PyStr.lstrip at 1. rewrite H. fold PyStr.lstrip.
  rewrite <- E. apply rstrip_idempotent.
Qed.

Lemma lstrip_comma_free (s : string) : comma_free s -> comma_free (PyStr.lstrip s).
Proof.
  induction s as [|c s IH]; simpl; [auto|].
  intros [Hc Hs]. destruct (PyStr.is_space c); simpl; auto.
Qed.

Lemma rstrip_comma_free (s : string) : comma_free s -> comma_free (PyStr.rstrip s).
Proof.
  induction s as [|c s IH]; simpl; [auto|].
  intros [Hc Hs]. specialize (IH Hs).
  destruct (PyStr.rstrip s); [destruct (PyStr.is_space c)|]; simpl; auto.
Qed.

Lemma strip_comma_free (s : string) : comma_free s -> comma_free (PyStr.strip s).
Proof. intros H. now apply rstrip_comma_free, lstrip_comma_free. Qed.

Lemma split_commas_nonempty (s : string) : split_commas s <> [].
Proof.
  induction s as [|c s IH]; simpl; [discriminate|].
  destruct (Ascii.eqb c ","); [discriminate|].
  destruct (split_commas s); discriminate.
Qed.

Lemma split_commas_comma_free (s piece : string) :
  In piece (split_commas s) -> comma_free piece.
Proof.
  revert piece. induction s as [|c s IH]; simpl; intros piece H.
  - destruct H as [<-|[]]. exact I.
  - destruct (Ascii.eqb c ",") eqn:E.
    + destruct H as [<-|H]; [exact I | now apply IH].
    + destruct (split_commas s) as [|p ps].
      * destruct H as [<-|[]]. simpl. split; [|exact I].
        intros ->. discriminate.
      * destruct H as [<-|H].
        -- simpl. split; [intros ->; discriminate | apply IH; now left].
        -- apply IH. now right.
Qed.

(** ** More on ignore patterns *)

Lemma should_ignore_unfold (url : string) (ignore_patterns : list string) :
  should_ignore url ignore_patterns
  = should_ignore_loop url (hostname_of url) ignore_patterns.
Proof. now destruct ignore_patterns. Qed.

Lemma should_ignore_loop_app (url hostname : string) (ps qs : list string) :
  should_ignore_loop url hostname (ps ++ qs)
  = should_ignore_loop url hostname ps || should_ignore_loop url hostname qs.
Proof.
  induction ps as [|p ps IH]; simpl; [reflexivity|].
  destruct (negb (PyStr.truthy (PyStr.strip p))); [exact IH|].
  destruct (Fnmatch.fnmatch (PyStr.lower hostname) (PyStr.lower (PyStr.strip p))
            || Fnmatch.fnmatch (PyStr.lower url) (PyStr.lower (PyStr.strip p)));
    [reflexivity | exact IH].
Qed.

Lemma should_ignore_loop_trimmed (url hostname : string) (ps : list string) :
  should_ignore_loop url hostname
    (map PyStr.strip (filter (fun p => PyStr.truthy (PyStr.strip p)) ps))
  = should_ignore_loop url hostname ps.
Proof.
  induction ps as [|p ps IH]; simpl; [reflexivity|].
  destruct (PyStr.truthy (PyStr.strip p)) eqn:T; simpl; [|exact IH].
  rewrite strip_idempotent, T. simpl. now rewrite IH.
Qed.

(** X1.  The patterns of a list are alternatives: an identifier is ignored
    under [ps ++ qs] exactly when it is ignored under [ps] or under [qs].
    So the order of the patterns does not matter, and adding patterns
    never makes an ignored identifier wanted again. *)
Theorem should_ignore_app (url : string) (ps qs : list string) :
  should_ignore url (ps ++ qs) = should_ignore url ps || should_ignore url qs.
Proof. rewrite !should_ignore_unfold. apply should_ignore_loop_app. Qed.

(** ** Patterns without wildcards, and with one star *)

Lemma matches_star_unfold (ts : list Fnmatch.token) (s : string) :
  Fnmatch.matches (Fnmatch.Star :: ts) s
  = Fnmatch.matches ts s
    || match s with
       | EmptyString => false
       | String _ s' => Fnmatch.matches (Fnmatch.Star :: ts) s'
       end.
Proof. destruct s; reflexivity. Qed.

(** [*] stands for any run of characters, the empty one included. *)
Lemma matches_star (ts : list Fnmatch.token) (s : string) :
  Fnmatch.matches (Fnmatch.Star :: ts) s = true
  <-> exists pre suf, s = (pre ++ suf)%string /\ Fnmatch.matches ts suf = true.
Proof.
  induction s as [|c s IH]; rewrite matches_star_unfold, orb_true_iff.
  - split.
    + intros [H|H]; [|discriminate]. exists EmptyString, EmptyString. auto.
    + intros [pre [suf [E H]]]. left.
      destruct pre; [|discriminate]. simpl in E. now subst.
  - rewrite IH. split.
    + intros [H|[pre [suf [E H]]]].
      * exists EmptyString, (String c s). auto.
      * exists (String c pre), suf. simpl. now subst.
    + intros [pre [suf [E H]]]. destruct pre as [|d pre]; simpl in E.
      * left. now subst.
      * right. inversion E; subst. eauto.
Qed.

Lemma matches_literals (cs : list ascii) (ts : list Fnmatch.token) (s : string) :
  Fnmatch.matches (map Fnmatch.Lit cs ++ ts) s = true
  <-> exists suf, s = (string_of_list_ascii cs ++ suf)%string
                  /\ Fnmatch.matches ts suf = true.
Proof.
  revert s. induction cs as [|c cs IH]; intros s; simpl.
  - split; [eauto | now intros [suf [-> H]]].
  - destruct s as [|d s].
    + split; [discriminate | intros [suf [E _]]; discriminate].
    + rewrite andb_true_iff, IH, Ascii.eqb_eq. split.
      * intros [-> [suf [-> H]]]. eauto.
      * intros [suf [E H]]. inversion E; subst. eauto.
Qed.

Lemma matches_nil (s : string) : Fnmatch.matches [] s = true <-> s = EmptyString.
Proof. destruct s; simpl; split; congruence. Qed.

Lemma translate_literal (a rest : string) :
  wildcard_free a ->
  Fnmatch.translate Fnmatch.Outside (a ++ rest)
  = map Fnmatch.Lit (list_ascii_of_string a) ++ Fnmatch.translate Fnmatch.Outside rest.
Proof.
  induction a as [|c a IH]; simpl; [reflexivity|].
  intros [H1 [H2 [H3 H]]].
  apply Ascii.eqb_neq in H1, H2, H3. rewrite H1, H2, H3. simpl.
  now rewrite IH.
Qed.

Lemma append_empty_r (s : string) : (s ++ "")%string = s.
Proof. induction s; simpl; congruence. Qed.

(** A pattern of ordinary characters matches itself and nothing else. *)
Lemma fnmatch_literal (name a : string) :
  wildcard_free a -> Fnmatch.fnmatch name a = true <-> name = a.
Proof.
  intros H. unfold Fnmatch.fnmatch.
  rewrite <- (append_empty_r a) at 1. rewrite (translate_literal a "" H). simpl.
  rewrite matches_literals, string_of_list_ascii_of_string. split.
  - intros [suf [-> E]]. apply matches_nil in E. subst. apply append_empty_r.
  - intros ->. exists EmptyString. now rewrite append_empty_r.
Qed.

(** A pattern [a*b] of ordinary characters around one star matches the
    names that start with [a] and go on to end with [b]. *)
Lemma fnmatch_one_star (name a b : string) :
  wildcard_free a -> wildcard_free b ->
  Fnmatch.fnmatch name (a ++ "*" ++ b) = true
  <-> exists mid, name = (a ++ mid ++ b)%string.
Proof.
  intros Ha Hb. unfold Fnmatch.fnmatch.
  rewrite (translate_literal a _ Ha). simpl.
  rewrite <- (append_empty_r b) at 1. rewrite (translate_literal b "" Hb). simpl.
  rewrite matches_literals, string_of_list_ascii_of_string. split.
  - intros [suf [-> E]]. apply matches_star in E. destruct E as [pre [suf' [-> E]]].
    apply matches_literals in E. rewrite string_of_list_ascii_of_string in E.
    destruct E as [t [-> E]]. apply matches_nil in E. subst.
    exists pre. now rewrite append_empty_r.
  - intros [mid ->]. exists (mid ++ b)%string. split; [reflexivity|].
    apply matches_star. exists mid, b. split; [reflexivity|].
    apply matches_literals. exists EmptyString.
    now rewrite string_of_list_ascii_of_string, append_empty_r.
Qed.

(** X2.  A pattern that, trimmed and in lower case, is a non-empty text
    [a] of ordinary characters ignores exactly the identifiers whose host
    component or whose whole text is [a] up to case. *)
Theorem should_ignore_literal (url pattern a : string) :
  PyStr.lower (PyStr.strip pattern) = a ->
  a <> EmptyString ->
  wildcard_free a ->
  should_ignore url [pattern] = true
  <-> PyStr.lower (hostname_of url) = a \/ PyStr.lower url = a.
Proof.
  intros E Ha Hw. rewrite should_ignore_iff. split.
  - intros [p [[<-|[]] [_ H]]]. rewrite E in H.
    now rewrite !(fnmatch_literal _ a Hw) in H.
  - intros H. exists pattern. split; [now left|]. split.
    + intros Hs. rewrite Hs in E. simpl in E. congruence.
    + rewrite E. now rewrite !(fnmatch_literal _ a Hw).
Qed.

(** X3.  A pattern that, trimmed and in lower case, is [a*b] with [a] and
    [b] of ordinary characters ignores exactly the identifiers whose host
    component, or whose whole text, in lower case starts with [a] and goes
    on to end with [b].  With [a] empty this is a suffix pattern such as
    [*.example.com], with [b] empty a prefix pattern such as [test-*]. *)
Theorem should_ignore_one_star (url pattern a b : string) :
  PyStr.lower (PyStr.strip pattern) = (a ++ "*" ++ b)%string ->
  wildcard_free a -> wildcard_free b ->
  should_ignore url [pattern] = true
  <-> (exists mid, PyStr.lower (hostname_of url) = (a ++ mid ++ b)%string)
      \/ (exists mid, PyStr.lower url = (a ++ mid ++ b)%string).
Proof.
  intros E Ha Hb. rewrite should_ignore_iff. split.
  - intros [p [[<-|[]] [_ H]]]. rewrite E in H.
    now rewrite !(fnmatch_one_star _ a b Ha Hb) in H.
  - intros H. exists pattern. split; [now left|]. split.
    + intros Hs. rewrite Hs in E. simpl in E. destruct a; discriminate.
    + rewrite E. now rewrite !(fnmatch_one_star _ a b Ha Hb).
Qed.

(** ** The container list *)

Lemma str_lt_le (a b : string) : str_lt a b -> str_le a b.
Proof.
  unfold str_le, String.leb. rewrite str_lt_compare. now intros ->.
Qed.

Lemma str_le_cases (a b : string) : str_le a b <-> str_lt a b \/ a = b.
Proof.
  unfold str_le, String.leb. rewrite str_lt_compare. split.
  - destruct (String.compare a b) eqn:E; try discriminate; intros _.
    + right. now apply String_as_OT.cmp_eq.
    + now left.
  - intros [->| ->]; [reflexivity|].
    assert (E : String.compare b b = Eq) by now apply String_as_OT.cmp_eq.
    now rewrite E.
Qed.

Lemma str_le_trans (a b c : string) : str_le a b -> str_le b c -> str_le a c.
Proof.
  rewrite !str_le_cases. intros [H1| ->] [H2| ->]; auto.
  left. eapply str_lt_trans; eauto.
Qed.

Lemma insert_sorted_ascending (x : string) (l : list string) :
  StronglySorted str_le l -> StronglySorted str_le (insert_sorted x l).
Proof.
  induction l as [|z l IH]; simpl; intros S.
  - constructor; constructor.
  - inversion S as [|? ? S' F]; subst.
    destruct (String.leb x z) eqn:L.
    + constructor; [exact S|]. constructor; [exact L|].
      eapply Forall_impl; [|exact F]. intros a Ha. eapply str_le_trans; eauto.
    + constructor; [now apply IH|].
      apply Forall_forall. intros a Ha. apply In_insert_sorted in Ha.
      destruct Ha as [->|Ha]; [now apply str_lt_le, leb_false_lt|].
      rewrite Forall_forall in F. now apply F.
Qed.

Lemma insert_sorted_permutation (x : string) (l : list string) :
  Permutation (insert_sorted x l) (x :: l).
Proof.
  induction l as [|z l IH]; simpl; [reflexivity|].
  destruct (String.leb x z); [reflexivity|].
  rewrite IH. apply perm_swap.
Qed.

Lemma sorted_ascending (l : list string) : StronglySorted str_le (sorted l).
Proof.
  unfold sorted. induction l as [|x l IH]; simpl; [constructor|].
  now apply insert_sorted_ascending.
Qed.

Lemma sorted_permutation (l : list string) : Permutation (sorted l) l.
Proof.
  unfold sorted. induction l as [|x l IH]; simpl; [reflexivity|].
  rewrite insert_sorted_permutation. now constructor.
Qed.

Lemma container_names_acc (containers : list Container) (acc : list string) :
  fold_left add_container_name containers acc = acc ++ flat_map first_name containers.
Proof.
  revert acc. induction containers as [|c cs IH]; intros acc; simpl.
  - now rewrite app_nil_r.
  - rewrite IH. unfold add_container_name, first_name.
    destruct (Names c) as [[|first rest]|]; simpl; try reflexivity.
    now rewrite <- app_assoc.
Qed.

(** X4.  When the Docker daemon answers with a list of containers, the
    result is the ascending arrangement of the names those containers
    contribute, each as often as it occurs: the first name of every
    container that has names, without its leading slashes.  Nothing is
    printed and the service is not contacted. *)
Theorem extract_containers_from_docker_sorted
        (docker_url : string) (w : World) (status : Z) (containers : list Container) :
  net w (PyStr.replace "tcp://" "http://" docker_url ++ "/containers/json")%string
  = Reply status (Containers containers) ->
  ~ (400 <= status < 600) ->
  exists names,
    extract_containers_from_docker docker_url w = (Return names, w)
    /\ Permutation names (flat_map first_name containers)
    /\ StronglySorted str_le names.
Proof.
  intros Hnet Hs.
  exists (sorted (flat_map first_name containers)).
  split; [|split; [apply sorted_permutation | apply sorted_ascending]].
  unfold extract_containers_from_docker, try_except, bind, requests_get,
    raise_for_status, response_json, raise, ret.
  rewrite Hnet. simpl.
  assert (E : (400 <=? status) && (status <? 600) = false).
  { apply andb_false_iff.
    destruct (Z.leb_spec 400 status); [|now left].
    destruct (Z.ltb_spec status 600); [|now right]. lia. }
  rewrite E. simpl. now rewrite container_names_acc.
Qed.

Lemma extract_containers_returns (docker_url : string) (w : World) :
  exists names, fst (extract_containers_from_docker docker_url w) = Return names.
Proof.
  unfold extract_containers_from_docker, try_except, bind, requests_get,
    raise_for_status, response_json, raise, ret, print.
  destruct (net w _) as [e|status body]; simpl; [eauto|].
  destruct ((400 <=? status) && (status <? 600)); simpl; [eauto|].
  destruct body; simpl; eauto.
Qed.



(** ** A Docker address given as [tcp://] *)

Lemma replace_absent (old new s : string) :
  PyStr.contains old s = false -> PyStr.replace_from 0 old new s = s.
Proof.
  induction s as [|c s IH]; simpl; [reflexivity|].
  intros H. apply orb_false_iff in H. destruct H as [Hp Hc].
  fold (PyStr.contains old s) in Hc.
  rewrite Hp. now rewrite (IH Hc).
Qed.

Lemma replace_tcp (rest : string) :
  PyStr.contains "tcp://" rest = false ->
  PyStr.replace "tcp://" "http://" ("tcp://" ++ rest) = ("http://" ++ rest)%string.
Proof.
  intros H. unfold PyStr.replace.
  change ("tcp://" ++ rest)%string
    with (String "t" (String "c" (String "p" (String ":" (String "/" (String "/" rest)))))).
  unfold PyStr.replace_from at 1; fold PyStr.replace_from.
  assert (P : String.prefix "tcp://"
                (String "t" (String "c" (String "p" (String ":" (String "/" (String "/" rest))))))
              = true) by apply (prefix_append "tcp://" rest).
  rewrite P. simpl. now rewrite (replace_absent _ _ _ H).
Qed.

Lemma replace_http (rest : string) :
  PyStr.contains "tcp://" rest = false ->
  PyStr.replace "tcp://" "http://" ("http://" ++ rest) = ("http://" ++ rest)%string.
Proof.
  intros H. apply replace_absent. simpl.
  destruct rest as [|c rest']; [reflexivity|]. exact H.
Qed.

(** X6.  A Docker address written [tcp://...] is fetched as the address
    [http://...] with the same remainder: the two give the same result. *)
Theorem docker_tcp_address_is_fetched_over_http (rest : string) (w : World) :
  PyStr.contains "tcp://" rest = false ->
  fst (extract_containers_from_docker ("tcp://" ++ rest) w)
  = fst (extract_containers_from_docker ("http://" ++ rest) w).
Proof.
  intros H. unfold extract_containers_from_docker. cbv zeta.
  rewrite (replace_tcp rest H), (replace_http rest H).
  unfold try_except, bind, requests_get, raise_for_status, response_json, raise, ret,
    print.
  destruct (net w _) as [e|status body]; simpl; [reflexivity|].
  destruct ((400 <=? status) && (status <? 600)); simpl; [reflexivity|].
  destruct body; reflexivity.
Qed.

(** ** Invariants of a run *)

Section Frame.

Variable R : World -> World -> Prop.
Hypothesis F : frame R.

Lemma frame_api_call {A} (c : Call) (op : M A) :
  steps R op -> steps R (api_call c op).
Proof.
  intros H. apply steps_api_call.
  - exact (frame_trans R F).
  - exact (frame_faults R F).
  - apply (frame_call R F).
  - exact H.
Qed.

Lemma frame_api_connect (url : string) : steps R (api_connect url).
Proof. apply frame_api_call, steps_ret, (frame_refl R F). Qed.

Lemma frame_api_disconnect : steps R api_disconnect.
Proof. apply frame_api_call, steps_ret, (frame_refl R F). Qed.

Lemma frame_api_login (u p : string) : steps R (api_login u p).
Proof. apply frame_api_call, steps_ret, (frame_refl R F). Qed.

Lemma frame_api_get_monitors : steps R api_get_monitors.
Proof. apply frame_api_call. intros w. apply (frame_refl R F). Qed.

Lemma frame_api_get_tags : steps R api_get_tags.
Proof. apply frame_api_call. intros w. apply (frame_refl R F). Qed.

Lemma frame_api_get_docker_hosts : steps R api_get_docker_hosts.
Proof. apply frame_api_call. intros w. apply (frame_refl R F). Qed.

(** The lookup of a tag and its creation, when every creation of a tag
    stays within [R]. *)
Lemma frame_lookup_or_create_tag (tag_name : string) :
  (forall name color, steps R (api_add_tag name color)) ->
  steps R (lookup_or_create_tag tag_name).
Proof.
  intros H. unfold lookup_or_create_tag.
  apply (steps_bind _ (frame_trans R F)); [apply frame_api_get_tags | intros tags].
  destruct (find _ tags); [apply steps_ret, (frame_refl R F)|].
  apply (steps_bind _ (frame_trans R F)); [apply H | intros t].
  apply steps_ret, (frame_refl R F).
Qed.

End Frame.

Ltac frame_step F :=
  match goal with
  | |- steps _ (ret _) => apply steps_ret, (frame_refl _ F)
  | |- steps _ (raise _) => apply steps_raise, (frame_refl _ F)
  | |- steps _ (sys_exit _) => apply steps_sys_exit, (frame_refl _ F)
  | |- steps _ (print _) => apply steps_print, (frame_output _ F)
  | |- steps _ (requests_get _) => apply steps_requests_get, (frame_refl _ F)
  | |- steps _ (bind _ _) => apply (steps_bind _ (frame_trans _ F)); [| intros ?]
  | |- steps _ (try_except _ _) =>
      apply (steps_try_except _ (frame_trans _ F)); [| intros ?]
  | |- steps _ (try_pass _) => apply steps_try_pass
  | |- steps _ (try_finally _ _) => apply (steps_try_finally _ (frame_trans _ F))
  | |- steps _ (for_in _ _) =>
      apply (steps_for_in _ (frame_refl _ F) (frame_trans _ F)); intros ? ?
  | |- steps _ (for_each _ _) =>
      apply (steps_for_each _ (frame_refl _ F) (frame_trans _ F)); intros ? ?
  | |- steps _ (for_fold _ _ _) =>
      apply (steps_for_fold _ (frame_refl _ F) (frame_trans _ F)); intros ? ? ?
  | |- steps _ (api_connect _) => apply (frame_api_connect _ F)
  | |- steps _ api_disconnect => apply (frame_api_disconnect _ F)
  | |- steps _ (api_login _ _) => apply (frame_api_login _ F)
  | |- steps _ api_get_monitors => apply (frame_api_get_monitors _ F)
  | |- steps _ api_get_tags => apply (frame_api_get_tags _ F)
  | |- steps _ api_get_docker_hosts => apply (frame_api_get_docker_hosts _ F)
  | |- steps _ (if ?b then _ else _) => destruct b eqn:?
  | |- steps _ (match ?x with _ => _ end) => destruct x eqn:?
  | |- steps _ (let _ := _ in _) => cbv zeta
  end.

(** What a run keeps, given what its mutations keep.  The removal of a tag
    is only done in reset mode and the removal of a monitor only when there
    are ignore patterns, so [R] has to allow them only then. *)
Section Invariant.

Variable R : World -> World -> Prop.
Hypothesis F : frame R.

Variables uptime_url username password : string.
Let reauth := ensure_authenticated uptime_url username password.

Hypothesis R_resolve : forall tag_name, steps R (lookup_or_create_tag tag_name).
Hypothesis R_attach : forall tag_id monitor_id value,
    steps R (api_add_monitor_tag tag_id monitor_id value).
Hypothesis R_add_monitor : forall cfg, steps R (api_add_monitor cfg).

Variable reset_tags : bool.
Hypothesis R_detach : reset_tags = true ->
  forall tag_id monitor_id value, steps R (api_delete_monitor_tag tag_id monitor_id value).

Variable ignore_patterns : list string.
Hypothesis R_delete : ignore_patterns <> [] ->
  forall id, steps R (api_delete_monitor id).

Lemma reauth_keeps : steps R reauth.
Proof. unfold reauth, ensure_authenticated. repeat frame_step F. Qed.

Lemma extract_hosts_keeps (traefik_url : string) :
  steps R (extract_hosts_from_traefik traefik_url).
Proof.
  unfold extract_hosts_from_traefik, raise_for_status, response_json.
  repeat frame_step F.
Qed.

Lemma extract_containers_keeps (docker_url : string) :
  steps R (extract_containers_from_docker docker_url).
Proof.
  unfold extract_containers_from_docker, raise_for_status, response_json.
  repeat frame_step F.
Qed.

Lemma get_or_create_tag_keeps (tag_name : string) :
  steps R (get_or_create_tag tag_name (Some reauth)).
Proof.
  unfold get_or_create_tag, call_opt.
  repeat frame_step F; try apply reauth_keeps; apply R_resolve.
Qed.

Lemma get_docker_host_id_keeps (name : string) :
  steps R (get_docker_host_id name (Some reauth)).
Proof.
  unfold get_docker_host_id, lookup_docker_host, call_opt.
  repeat frame_step F; apply reauth_keeps.
Qed.

Lemma add_tags_keeps (monitor_id : Z) (tag_ids : list (option Z)) :
  steps R (add_tags_to_monitor monitor_id tag_ids (Some reauth)).
Proof.
  unfold add_tags_to_monitor, add_tag_to_monitor, call_opt.
  repeat frame_step F; try apply reauth_keeps; apply R_attach.
Qed.

Lemma update_monitor_tags_keeps (m : Monitor) (tag_id kind_tag_id : option Z) :
  steps R (update_monitor_tags reset_tags reauth m tag_id kind_tag_id).
Proof.
  unfold update_monitor_tags. destruct reset_tags eqn:E.
  - unfold reset_monitor_tags, remove_all_tags, remove_tag.
    repeat frame_step F; try apply reauth_keeps; try apply add_tags_keeps.
    now apply R_detach.
  - unfold check_monitor_tags.
    repeat frame_step F; apply add_tags_keeps.
Qed.

Lemma create_monitor_keeps {S} (cfg : MonitorConfig) (tags_to_add : list (option Z))
      (created unchanged : S) :
  steps R (create_monitor reauth cfg tags_to_add created unchanged).
Proof.
  unfold create_monitor.
  repeat frame_step F; try apply add_tags_keeps; apply R_add_monitor.
Qed.

Lemma prune_monitors_keeps (monitors : list Monitor) :
  steps R (prune_monitors ignore_patterns monitors).
Proof.
  unfold prune_monitors. destruct ignore_patterns as [|p ps] eqn:E.
  - frame_step F.
  - unfold delete_one. repeat frame_step F. apply R_delete. discriminate.
Qed.

Lemma process_traefik_keeps (monitors : list Monitor) (traefik_tag_id : option Z)
      (traefik_info : Server) (vars : list string * Z) :
  steps R (process_traefik ignore_patterns reset_tags reauth monitors traefik_tag_id
                           traefik_info vars).
Proof.
  unfold process_traefik. cbv zeta.
  apply (steps_bind _ (frame_trans _ F)); [apply extract_hosts_keeps | intros hosts].
  destruct hosts as [|h0 hosts0]; [repeat frame_step F|].
  apply (steps_bind _ (frame_trans _ F)).
  { destruct (PyStr.truthy _); [apply get_or_create_tag_keeps | frame_step F]. }
  intros tag_id. apply (steps_bind _ (frame_trans _ F)).
  { destruct (truthy_id tag_id); [|frame_step F]. frame_step F.
    destruct (find _ monitors); [apply update_monitor_tags_keeps | frame_step F]. }
  intros _. frame_step F. apply create_monitor_keeps.
Qed.

Lemma process_docker_keeps (monitors : list Monitor) (docker_info : Server)
      (total_created : Z) :
  steps R (process_docker reset_tags reauth monitors docker_info total_created).
Proof.
  unfold process_docker. cbv zeta.
  apply (steps_bind _ (frame_trans _ F)); [apply extract_containers_keeps | intros cs].
  destruct cs as [|c0 cs0]; [repeat frame_step F|].
  apply (steps_bind _ (frame_trans _ F)).
  { destruct (PyStr.truthy _); [apply get_or_create_tag_keeps | frame_step F]. }
  intros tag_id.
  apply (steps_bind _ (frame_trans _ F)); [apply get_or_create_tag_keeps | intros dt].
  apply (steps_bind _ (frame_trans _ F)); [apply get_docker_host_id_keeps | intros dh].
  destruct (negb (truthy_id dh)); [repeat frame_step F|].
  apply (steps_bind _ (frame_trans _ F)).
  { destruct (_ || _); [|frame_step F]. frame_step F.
    destruct (find _ monitors); [apply update_monitor_tags_keeps | frame_step F]. }
  intros _. frame_step F. apply create_monitor_keeps.
Qed.

Lemma sync_groups_keeps (traefik_servers docker_servers : list Server)
      (monitors : list Monitor) :
  steps R (sync_groups traefik_servers docker_servers ignore_patterns reset_tags
                       reauth monitors).
Proof.
  unfold sync_groups. cbv zeta.
  apply (steps_bind _ (frame_trans _ F)); [apply get_or_create_tag_keeps | intros t].
  apply (steps_bind _ (frame_trans _ F)).
  { destruct (negb _); frame_step F. }
  intros _. apply (steps_bind _ (frame_trans _ F)).
  { frame_step F. apply process_traefik_keeps. }
  intros vars. apply (steps_bind _ (frame_trans _ F)); [|intros; frame_step F].
  frame_step F. apply process_docker_keeps.
Qed.

Lemma sync_monitors_keeps (traefik_servers docker_servers : list Server) :
  steps R (sync_monitors uptime_url traefik_servers docker_servers username password
                         ignore_patterns reset_tags).
Proof.
  unfold sync_monitors, sync_body. cbv zeta.
  repeat frame_step F; try apply prune_monitors_keeps; apply sync_groups_keeps.
Qed.

End Invariant.

(** ** The status of the process when a computation ends it *)

Lemma exits_one_ret {A} (a : A) : exits_one (ret a).
Proof. intros w c H. discriminate. Qed.

Lemma exits_one_raise {A} (e : string) : exits_one (@raise A e).
Proof. intros w c H. discriminate. Qed.

Lemma exits_one_sys_exit {A} : exits_one (@sys_exit A 1).
Proof. intros w c H. now inversion H. Qed.

Lemma exits_one_print (o : Output) : exits_one (print o).
Proof. intros w c H. discriminate. Qed.

Lemma exits_one_requests_get (url : string) : exits_one (requests_get url).
Proof. intros w c. unfold requests_get. destruct (net w url); discriminate. Qed.

Lemma exits_one_bind {A B} (m : M A) (k : A -> M B) :
  exits_one m -> (forall a, exits_one (k a)) -> exits_one (bind m k).
Proof.
  intros Hm Hk w c. unfold bind. specialize (Hm w).
  destruct (m w) as [[a|e|c'] w']; simpl in *.
  - apply Hk.
  - discriminate.
  - intros H. inversion H; subst. now apply Hm.
Qed.

Lemma exits_one_try_except {A} (body : M A) (handler : string -> M A) :
  exits_one body -> (forall e, exits_one (handler e)) ->
  exits_one (try_except body handler).
Proof.
  intros Hb Hh w c. unfold try_except. specialize (Hb w).
  destruct (body w) as [[a|e|c'] w']; simpl in *.
  - discriminate.
  - apply Hh.
  - intros H. inversion H; subst. now apply Hb.
Qed.

Lemma exits_one_try_pass (body : M unit) : exits_one (try_pass body).
Proof. intros w c. unfold try_pass. destruct (body w). discriminate. Qed.

Lemma exits_one_try_finally {A} (body : M A) (fin : M unit) :
  exits_one body -> exits_one fin -> exits_one (try_finally body fin).
Proof.
  intros Hb Hf w c. unfold try_finally. specialize (Hb w).
  destruct (body w) as [r w']. specialize (Hf w').
  destruct (fin w') as [[[]|e|c'] w'']; simpl in *.
  - exact (Hb c).
  - discriminate.
  - intros H. inversion H; subst. now apply Hf.
Qed.

Lemma exits_one_for_in {A B} (xs : list A) (body : A -> M (Ctl B)) :
  (forall x, exits_one (body x)) -> exits_one (for_in xs body).
Proof.
  intros Hb. induction xs as [|x xs IH]; simpl; [apply exits_one_ret|].
  apply exits_one_bind; [apply Hb|].
  intros [| |r]; [exact IH | apply exits_one_ret | apply exits_one_ret].
Qed.

Lemma exits_one_for_each {A} (xs : list A) (body : A -> M unit) :
  (forall x, exits_one (body x)) -> exits_one (for_each xs body).
Proof.
  intros Hb. induction xs as [|x xs IH]; simpl; [apply exits_one_ret|].
  apply exits_one_bind; [apply Hb | intros _; exact IH].
Qed.

Lemma exits_one_for_fold {A S} (xs : list A) (s : S) (body : A -> S -> M S) :
  (forall x s, exits_one (body x s)) -> exits_one (for_fold xs s body).
Proof.
  intros Hb. revert s. induction xs as [|x xs IH]; intros s; simpl;
    [apply exits_one_ret|].
  apply exits_one_bind; [apply Hb | intros s'; apply IH].
Qed.

Lemma exits_one_api_call {A} (c : Call) (op : M A) :
  exits_one op -> exits_one (api_call c op).
Proof.
  intros Hop w x. unfold api_call.
  destruct (faults (log_call c w)) as [|[e|] rest]; simpl; try apply Hop.
  discriminate.
Qed.

Ltac exits_one_step :=
  match goal with
  | |- exits_one (ret _) => apply exits_one_ret
  | |- exits_one (raise _) => apply exits_one_raise
  | |- exits_one (sys_exit 1) => apply exits_one_sys_exit
  | |- exits_one (print _) => apply exits_one_print
  | |- exits_one (requests_get _) => apply exits_one_requests_get
  | |- exits_one (bind _ _) => apply exits_one_bind; [| intros ?]
  | |- exits_one (try_except _ _) => apply exits_one_try_except; [| intros ?]
  | |- exits_one (try_pass _) => apply exits_one_try_pass
  | |- exits_one (try_finally _ _) => apply exits_one_try_finally
  | |- exits_one (for_in _ _) => apply exits_one_for_in; intros ?
  | |- exits_one (for_each _ _) => apply exits_one_for_each; intros ?
  | |- exits_one (for_fold _ _ _) => apply exits_one_for_fold; intros ? ?
  | |- exits_one (api_call _ _) => apply exits_one_api_call; intros ? ?; simpl
  | |- exits_one (if ?b then _ else _) => destruct b eqn:?
  | |- exits_one (match ?x with _ => _ end) => destruct x eqn:?
  | |- exits_one (let _ := _ in _) => cbv zeta
  | |- fst (match ?x with _ => _ end) = SysExit _ -> _ => destruct x; simpl
  | |- Return _ = SysExit _ -> _ => discriminate
  | |- Raise _ = SysExit _ -> _ => discriminate
  end.

Ltac exits_one_auto :=
  unfold api_connect, api_disconnect, api_login, api_get_monitors, api_delete_monitor,
    api_add_monitor, api_get_tags, api_add_tag, api_add_monitor_tag,
    api_delete_monitor_tag, api_get_docker_hosts;
  repeat exits_one_step.

Section ExitStatus.

Variables uptime_url username password : string.
Let reauth := ensure_authenticated uptime_url username password.

Lemma reauth_exits_one : exits_one reauth.
Proof. unfold reauth, ensure_authenticated. exits_one_auto. Qed.

Lemma extract_hosts_exits_one (traefik_url : string) :
  exits_one (extract_hosts_from_traefik traefik_url).
Proof.
  unfold extract_hosts_from_traefik, raise_for_status, response_json. exits_one_auto.
Qed.

Lemma extract_containers_exits_one (docker_url : string) :
  exits_one (extract_containers_from_docker docker_url).
Proof.
  unfold extract_containers_from_docker, raise_for_status, response_json.
  exits_one_auto.
Qed.

Lemma get_or_create_tag_exits_one (tag_name : string) :
  exits_one (get_or_create_tag tag_name (Some reauth)).
Proof.
  unfold get_or_create_tag, lookup_or_create_tag, call_opt.
  exits_one_auto; apply reauth_exits_one.
Qed.

Lemma get_docker_host_id_exits_one (name : string) :
  exits_one (get_docker_host_id name (Some reauth)).
Proof.
  unfold get_docker_host_id, lookup_docker_host, call_opt.
  exits_one_auto; apply reauth_exits_one.
Qed.

Lemma add_tags_exits_one (monitor_id : Z) (tag_ids : list (option Z)) :
  exits_one (add_tags_to_monitor monitor_id tag_ids (Some reauth)).
Proof.
  unfold add_tags_to_monitor, add_tag_to_monitor, call_opt.
  exits_one_auto; apply reauth_exits_one.
Qed.

Lemma update_monitor_tags_exits_one (reset_tags : bool) (m : Monitor)
      (tag_id kind_tag_id : option Z) :
  exits_one (update_monitor_tags reset_tags reauth m tag_id kind_tag_id).
Proof.
  unfold update_monitor_tags, reset_monitor_tags, remove_all_tags, remove_tag,
    check_monitor_tags.
  exits_one_auto; try apply reauth_exits_one; apply add_tags_exits_one.
Qed.

Lemma create_monitor_exits_one {S} (cfg : MonitorConfig) (tags_to_add : list (option Z))
      (created unchanged : S) :
  exits_one (create_monitor reauth cfg tags_to_add created unchanged).
Proof.
  unfold create_monitor. exits_one_auto; apply add_tags_exits_one.
Qed.

Lemma prune_monitors_exits_one (ignore_patterns : list string) (monitors : list Monitor) :
  exits_one (prune_monitors ignore_patterns monitors).
Proof. unfold prune_monitors, delete_one. exits_one_auto. Qed.

Lemma process_traefik_exits_one (ignore_patterns : list string) (reset_tags : bool)
      (monitors : list Monitor) (traefik_tag_id : option Z) (traefik_info : Server)
      (vars : list string * Z) :
  exits_one (process_traefik ignore_patterns reset_tags reauth monitors traefik_tag_id
                             traefik_info vars).
Proof.
  unfold process_traefik. cbv zeta.
  apply exits_one_bind; [apply extract_hosts_exits_one | intros hosts].
  destruct hosts as [|h0 hosts0]; [exits_one_auto|].
  apply exits_one_bind.
  { destruct (PyStr.truthy _); [apply get_or_create_tag_exits_one | apply exits_one_ret]. }
  intros tag_id. apply exits_one_bind.
  { destruct (truthy_id tag_id); [|apply exits_one_ret].
    apply exits_one_for_each. intros host.
    destruct (find _ monitors);
      [apply update_monitor_tags_exits_one | apply exits_one_ret]. }
  intros _. apply exits_one_for_fold. intros host vars'.
  apply create_monitor_exits_one.
Qed.

Lemma process_docker_exits_one (reset_tags : bool) (monitors : list Monitor)
      (docker_info : Server) (total_created : Z) :
  exits_one (process_docker reset_tags reauth monitors docker_info total_created).
Proof.
  unfold process_docker. cbv zeta.
  apply exits_one_bind; [apply extract_containers_exits_one | intros cs].
  destruct cs as [|c0 cs0]; [exits_one_auto|].
  apply exits_one_bind.
  { destruct (PyStr.truthy _); [apply get_or_create_tag_exits_one | apply exits_one_ret]. }
  intros tag_id.
  apply exits_one_bind; [apply get_or_create_tag_exits_one | intros dt].
  apply exits_one_bind; [apply get_docker_host_id_exits_one | intros dh].
  destruct (negb (truthy_id dh)); [exits_one_auto|].
  apply exits_one_bind.
  { destruct (_ || _); [|apply exits_one_ret].
    apply exits_one_for_each. intros name.
    destruct (find _ monitors);
      [apply update_monitor_tags_exits_one | apply exits_one_ret]. }
  intros _. apply exits_one_for_fold. intros name total.
  apply create_monitor_exits_one.
Qed.

Lemma sync_groups_exits_one (traefik_servers docker_servers : list Server)
      (ignore_patterns : list string) (reset_tags : bool) (monitors : list Monitor) :
  exits_one (sync_groups traefik_servers docker_servers ignore_patterns reset_tags
                         reauth monitors).
Proof.
  unfold sync_groups. cbv zeta.
  apply exits_one_bind; [apply get_or_create_tag_exits_one | intros t].
  apply exits_one_bind; [destruct (negb _); exits_one_auto | intros _].
  apply exits_one_bind.
  { apply exits_one_for_fold. intros info vars. apply process_traefik_exits_one. }
  intros vars. apply exits_one_bind; [|intros; apply exits_one_print].
  apply exits_one_for_fold. intros info total. apply process_docker_exits_one.
Qed.

Lemma sync_body_exits_one (traefik_servers docker_servers : list Server)
      (ignore_patterns : list string) (reset_tags : bool) :
  exits_one (sync_body uptime_url traefik_servers docker_servers username password
                       ignore_patterns reset_tags).
Proof.
  unfold sync_body. cbv zeta.
  apply exits_one_bind; [exits_one_auto | intros _].
  apply exits_one_bind; [exits_one_auto | intros ms].
  apply exits_one_bind; [apply prune_monitors_exits_one | intros ms'].
  apply sync_groups_exits_one.
Qed.

End ExitStatus.

(** ** The lookup of a Docker host *)

Lemma same_service_frame : frame same_service.
Proof. split; try (intros; now repeat split). intros a b c. unfold same_service. intuition congruence. Qed.

Lemma lookup_docker_host_result (name : string) (w : World) (id : Z) :
  fst (lookup_docker_host name w) = Return (Some id) ->
  exists host,
    find (fun host => String.eqb (dockerhost_name host) name) (srv_docker_hosts w)
    = Some host
    /\ dockerhost_id host = id.
Proof.
  destruct w as [ms ts dh nid nt fs cs out].
  unfold lookup_docker_host, bind, api_get_docker_hosts, api_call, print, ret. simpl.
  destruct fs as [|[e|] rest]; simpl; try discriminate;
    destruct (find _ dh) as [host|]; simpl; try discriminate;
    intros H; inversion H; eauto.
Qed.


Lemma get_docker_host_id_no_raise (name : string) (ensure_auth_fn : option (M unit)) :
  no_raise (call_opt ensure_auth_fn) ->
  no_raise (get_docker_host_id name ensure_auth_fn).
Proof.
  intros Hea. unfold get_docker_host_id.
  apply no_raise_bind.
  - apply no_raise_for_in. intros attempt. apply no_raise_try_except. intros e.
    destruct (_ && _).
    + apply no_raise_bind; [exact Hea | intros; apply no_raise_ret].
    + apply no_raise_bind; [apply no_raise_print | intros; apply no_raise_ret].
  - intros [r|]; apply no_raise_ret.
Qed.

(** A Docker host that the lookup finds is a Docker host of the service. *)
Lemma get_docker_host_id_found (url u p name : string) (w : World) (id : Z) :
  fst (get_docker_host_id name (Some (ensure_authenticated url u p)) w)
  = Return (Some id) ->
  exists host,
    find (fun host => String.eqb (dockerhost_name host) name) (srv_docker_hosts w)
    = Some host
    /\ dockerhost_id host = id.
Proof.
  rewrite get_docker_host_id_attempts.
  pose proof (lookup_docker_host_result name w) as L1.
  destruct (lookup_docker_host name w) as [[t|e1|c] w1] eqn:E1; simpl in *.
  - intros H. inversion H; subst. now apply L1.
  - destruct (session_expired (PyStr.lower e1)); simpl; [|discriminate].
    assert (K1 : same_service w w1).
    { assert (K : steps same_service (lookup_docker_host name)).
      { unfold lookup_docker_host. repeat frame_step same_service_frame. }
      specialize (K w). now rewrite E1 in K. }
    pose proof (reauth_keeps same_service same_service_frame url u p w1) as K2.
    destruct (ensure_authenticated url u p w1) as [[[]|e|c] w2]; simpl in *;
      try discriminate.
    pose proof (lookup_docker_host_result name w2) as L2.
    destruct (lookup_docker_host name w2) as [[t|e2|c] w3]; simpl in *;
      try discriminate.
    intros H. inversion H; subst.
    destruct (L2 id eq_refl) as [host [Hf Hi]]. exists host. split; [|exact Hi].
    destruct K1 as [_ [_ [D1 _]]]. destruct K2 as [_ [_ [D2 _]]]. congruence.
  - discriminate.
Qed.

(** X9.  The lookup of a Docker host changes nothing in the service and
    never ends in an exception; it ends the process only when the
    re-authentication does, with status 1.  When it yields an identifier,
    that is the identifier of the first Docker host of the service with the
    given name. *)
Theorem get_docker_host_id_reads_only
        (uptime_url username password name : string) (w : World) :
  let r := get_docker_host_id name
             (Some (ensure_authenticated uptime_url username password)) w in
  same_service w (snd r)
  /\ (forall e, fst r <> Raise e)
  /\ (forall c, fst r = SysExit c -> c = 1)
  /\ (forall id,
         fst r = Return (Some id) ->
         exists host,
           find (fun host => String.eqb (dockerhost_name host) name) (srv_docker_hosts w)
           = Some host
           /\ dockerhost_id host = id).
Proof.
  cbv zeta. split; [|split; [|split]].
  - apply (get_docker_host_id_keeps same_service same_service_frame).
  - apply get_docker_host_id_no_raise. simpl. apply ensure_authenticated_no_raise.
  - apply get_docker_host_id_exits_one.
  - apply get_docker_host_id_found.
Qed.

(** ** The re-authentication *)


(** ** What a run keeps of the monitors *)

Lemma monitors_kept_frame : frame monitors_kept.
Proof.
  split.
  - intros w. exists []. now rewrite app_nil_r.
  - intros a b c [l1 H1] [l2 H2]. exists (l1 ++ l2).
    now rewrite H2, H1, app_assoc.
  - intros fs w. exists []. now rewrite app_nil_r.
  - intros o w. exists []. now rewrite app_nil_r.
  - intros c w. exists []. now rewrite app_nil_r.
Qed.

Lemma attach_tag_identity (id : Z) (t : TagRef) (m : Monitor) :
  monitor_identity (attach_tag id t m) = monitor_identity m.
Proof. unfold attach_tag. now destruct (monitor_id m =? id). Qed.

Lemma detach_tag_identity (id : Z) (t : TagRef) (m : Monitor) :
  monitor_identity (detach_tag id t m) = monitor_identity m.
Proof. unfold detach_tag. now destruct (monitor_id m =? id). Qed.

Lemma monitors_kept_add_tag (name color : string) :
  steps monitors_kept (api_add_tag name color).
Proof.
  apply (frame_api_call _ monitors_kept_frame). intros w.
  exists []. now rewrite app_nil_r.
Qed.

Lemma monitors_kept_attach (tag_id : option Z) (monitor_id : Z) (value : string) :
  steps monitors_kept (api_add_monitor_tag tag_id monitor_id value).
Proof.
  apply (frame_api_call _ monitors_kept_frame). intros w.
  exists []. rewrite app_nil_r. destruct tag_id; [|reflexivity]. simpl.
  rewrite map_map. apply map_ext. intros m. apply attach_tag_identity.
Qed.

Lemma monitors_kept_detach (tag_id monitor_id : Z) (value : string) :
  steps monitors_kept (api_delete_monitor_tag tag_id monitor_id value).
Proof.
  apply (frame_api_call _ monitors_kept_frame). intros w.
  exists []. rewrite app_nil_r. simpl.
  rewrite map_map. apply map_ext. intros m. apply detach_tag_identity.
Qed.

Lemma monitors_kept_add_monitor (cfg : MonitorConfig) :
  steps monitors_kept (api_add_monitor cfg).
Proof.
  apply (frame_api_call _ monitors_kept_frame). intros w.
  eexists. simpl. rewrite map_app. reflexivity.
Qed.

(** X7.  Without ignore patterns a run deletes no monitor and alters none
    but for its tags, in either tag mode and whatever fails on the way: the
    monitors of the service are afterwards the ones it had, in the same
    order, with the same identifier, name, type, URL and Docker host,
    followed by the ones the run created. *)
Theorem monitors_survive_without_patterns
        (uptime_url username password : string)
        (traefik_servers docker_servers : list Server) (reset_tags : bool) (w : World) :
  monitors_kept w (snd (sync_monitors uptime_url traefik_servers docker_servers
                                      username password [] reset_tags w)).
Proof.
  apply (sync_monitors_keeps monitors_kept monitors_kept_frame).
  - intros name. apply (frame_lookup_or_create_tag _ monitors_kept_frame).
    apply monitors_kept_add_tag.
  - apply monitors_kept_attach.
  - apply monitors_kept_add_monitor.
  - intros _. apply monitors_kept_detach.
  - intros H. now destruct H.
Qed.

(** ** What an additive run keeps of the tags *)

Lemma tags_extended_refl (m : Monitor) : tags_extended m m.
Proof. split; [reflexivity|]. exists []. now rewrite app_nil_r. Qed.

Lemma tags_extended_trans (a b c : Monitor) :
  tags_extended a b -> tags_extended b c -> tags_extended a c.
Proof.
  intros [I1 [l1 T1]] [I2 [l2 T2]]. split; [congruence|].
  exists (l1 ++ l2). now rewrite T2, T1, app_assoc.
Qed.

Lemma Forall2_tags_extended_refl (ms : list Monitor) : Forall2 tags_extended ms ms.
Proof. induction ms; constructor; [apply tags_extended_refl | assumption]. Qed.

Lemma Forall2_tags_extended_trans (a b c : list Monitor) :
  Forall2 tags_extended a b -> Forall2 tags_extended b c -> Forall2 tags_extended a c.
Proof.
  intros H. revert c. induction H as [|x y a b Hxy Hab IH]; intros c Hc.
  - inversion Hc. constructor.
  - inversion Hc as [|? z ? c' Hyz Hbc]; subst. constructor.
    + eapply tags_extended_trans; eauto.
    + now apply IH.
Qed.

Lemma tags_kept_same (w w' : World) : srv_monitors w' = srv_monitors w -> tags_kept w w'.
Proof.
  intros E. exists (srv_monitors w), []. rewrite app_nil_r.
  split; [exact E | apply Forall2_tags_extended_refl].
Qed.

Lemma tags_kept_frame : frame tags_kept.
Proof.
  split; try (intros; now apply tags_kept_same).
  intros a b c [o1 [l1 [E1 H1]]] [o2 [l2 [E2 H2]]].
  rewrite E1 in H2. apply Forall2_app_inv_l in H2.
  destruct H2 as [o21 [o22 [H21 [H22 ->]]]].
  exists o21, (o22 ++ l2). split; [now rewrite E2, app_assoc|].
  eapply Forall2_tags_extended_trans; eauto.
Qed.

Lemma tags_kept_add_tag (name color : string) :
  steps tags_kept (api_add_tag name color).
Proof.
  apply (frame_api_call _ tags_kept_frame). intros w. now apply tags_kept_same.
Qed.

Lemma tags_kept_attach (tag_id : option Z) (id : Z) (value : string) :
  steps tags_kept (api_add_monitor_tag tag_id id value).
Proof.
  apply (frame_api_call _ tags_kept_frame). intros w.
  destruct tag_id as [t|]; [|now apply tags_kept_same]. simpl.
  exists (map (attach_tag id (mkTagRef t value)) (srv_monitors w)), [].
  rewrite app_nil_r. split; [reflexivity|].
  induction (srv_monitors w) as [|m ms IH]; simpl; constructor; [|exact IH].
  split; [apply attach_tag_identity|].
  unfold attach_tag. destruct (monitor_id m =? id); simpl.
  - eauto.
  - exists []. now rewrite app_nil_r.
Qed.

Lemma tags_kept_add_monitor (cfg : MonitorConfig) :
  steps tags_kept (api_add_monitor cfg).
Proof.
  apply (frame_api_call _ tags_kept_frame). intros w. simpl.
  eexists (srv_monitors w), _. split; [reflexivity|].
  apply Forall2_tags_extended_refl.
Qed.

(** X8.  In additive mode and without ignore patterns a run only adds:
    afterwards the service has the monitors it had, in the same order, each
    with the tags it had, in the same order, possibly followed by new
    tags; the monitors the run created come after them. *)
Theorem additive_run_keeps_tags
        (uptime_url username password : string)
        (traefik_servers docker_servers : list Server) (w : World) :
  tags_kept w (snd (sync_monitors uptime_url traefik_servers docker_servers
                                  username password [] false w)).
Proof.
  apply (sync_monitors_keeps tags_kept tags_kept_frame).
  - intros name. apply (frame_lookup_or_create_tag _ tags_kept_frame).
    apply tags_kept_add_tag.
  - apply tags_kept_attach.
  - apply tags_kept_add_monitor.
  - discriminate.
  - intros H. now destruct H.
Qed.

(** ** What a run keeps of the tags of the service *)

Lemma tags_grow_same (w w' : World) : srv_tags w' = srv_tags w -> tags_grow w w'.
Proof.
  intros E. exists []. rewrite app_nil_r.
  split; [exact E|]. split; [constructor | intros name []].
Qed.

Lemma tags_grow_frame : frame tags_grow.
Proof.
  split; try (intros; now apply tags_grow_same).
  intros a b c [l1 [E1 [D1 N1]]] [l2 [E2 [D2 N2]]].
  exists (l1 ++ l2). split; [now rewrite E2, E1, app_assoc|].
  rewrite E1, map_app in N2. rewrite map_app. split.
  - apply NoDup_app; [exact D1 | exact D2 |].
    intros name H1 H2. apply (N2 name H2). apply in_or_app. now right.
  - intros name H. apply in_app_or in H. destruct H as [H|H]; [now apply N1|].
    intros Ha. apply (N2 name H). apply in_or_app. now left.
Qed.

Lemma find_tag_none (tag_name : string) (tags : list Tag) :
  find (fun tag => String.eqb (tagrec_name tag) tag_name) tags = None ->
  ~ In tag_name (map tagrec_name tags).
Proof.
  intros H Hin. apply in_map_iff in Hin. destruct Hin as [tag [E Ht]].
  apply (find_none _ _ H) in Ht. rewrite E, String.eqb_refl in Ht. discriminate.
Qed.

Lemma tags_grow_created (tag_name color : string) (w w' : World) :
  srv_tags w' = srv_tags w ++ [mkTag (srv_next_id w) tag_name color] ->
  ~ In tag_name (map tagrec_name (srv_tags w)) ->
  tags_grow w w'.
Proof.
  intros E N. eexists. split; [exact E|]. simpl. split.
  - constructor; [intros [] | constructor].
  - intros name [<-|[]]. exact N.
Qed.

Lemma tags_grow_distinct (w w' : World) :
  tags_grow w w' -> tag_names_distinct w -> tag_names_distinct w'.
Proof.
  intros [created [E [D N]]] Hw. unfold tag_names_distinct in *.
  rewrite E, map_app. apply NoDup_app; [exact Hw | exact D |].
  intros name H1 H2. exact (N name H2 H1).
Qed.

(** The resolver creates a tag only under a name that the service does
    not have. *)
Lemma tags_grow_resolve (tag_name : string) :
  steps tags_grow (lookup_or_create_tag tag_name).
Proof.
  intros w. destruct w as [ms ts dh nid nt fs cs out].
  unfold lookup_or_create_tag, bind, api_get_tags, api_add_tag, api_call, ret. simpl.
  destruct fs as [|[e|] rest]; simpl.
  - destruct (find _ ts) eqn:Ef; simpl; [now apply tags_grow_same|].
    apply (tags_grow_created tag_name "#4299e1"); [reflexivity|].
    now apply find_tag_none.
  - now apply tags_grow_same.
  - destruct (find _ ts) eqn:Ef; simpl; [now apply tags_grow_same|].
    destruct rest as [|[e|] rest']; simpl.
    + apply (tags_grow_created tag_name "#4299e1"); [reflexivity|].
      now apply find_tag_none.
    + now apply tags_grow_same.
    + apply (tags_grow_created tag_name "#4299e1"); [reflexivity|].
      now apply find_tag_none.
Qed.

Lemma tags_grow_api {A} (c : Call) (op : M A) :
  (forall w, srv_tags (snd (op w)) = srv_tags w) ->
  steps tags_grow (api_call c op).
Proof.
  intros H. apply (frame_api_call _ tags_grow_frame). intros w.
  apply tags_grow_same, H.
Qed.

(** X27.  A run keeps the tags of the service and never creates a tag
    under a name that is taken: afterwards the service has its former tags,
    unchanged and in the same order, followed by the ones the run created,
    whose names differ from one another and from the former ones.  So if
    no two tags had the same name before the run, no two have after it.
    This holds in either tag mode, with or without ignore patterns, and
    whatever fails on the way. *)
Theorem tag_names_stay_distinct
        (uptime_url username password : string)
        (traefik_servers docker_servers : list Server)
        (ignore_patterns : list string) (reset_tags : bool) (w : World) :
  let w' := snd (sync_monitors uptime_url traefik_servers docker_servers
                               username password ignore_patterns reset_tags w) in
  tags_grow w w'
  /\ (tag_names_distinct w -> tag_names_distinct w').
Proof.
  cbv zeta.
  assert (H : tags_grow w
                (snd (sync_monitors uptime_url traefik_servers docker_servers
                                    username password ignore_patterns reset_tags w)));
    [|split; [exact H | now apply tags_grow_distinct]].
  apply (sync_monitors_keeps tags_grow tags_grow_frame).
  - apply tags_grow_resolve.
  - intros tag_id id value. apply tags_grow_api. intros w'. now destruct tag_id.
  - intros cfg. apply tags_grow_api. reflexivity.
  - intros _ tag_id id value. apply tags_grow_api. reflexivity.
  - intros _ id. apply tags_grow_api. reflexivity.
Qed.

(** ** The session of a run *)

Lemma api_disconnect_calls (w : World) :
  calls (snd (api_disconnect w)) = calls w ++ [CDisconnect].
Proof.
  destruct w as [ms ts dh nid nt fs cs out].
  unfold api_disconnect, api_call, ret. simpl.
  destruct fs as [|[e|] rest]; reflexivity.
Qed.

Lemma api_connect_cases (url : string) (w : World) :
  (exists e, fst (api_connect url w) = Raise e
             /\ calls (snd (api_connect url w)) = calls w ++ [CConnect url])
  \/ (fst (api_connect url w) = Return tt
      /\ calls (snd (api_connect url w)) = calls w ++ [CConnect url]).
Proof.
  destruct w as [ms ts dh nid nt fs cs out].
  unfold api_connect, api_call, ret. simpl.
  destruct fs as [|[e|] rest]; simpl; eauto.
Qed.

Section Session.

Variables uptime_url username password : string.
Let reauth := ensure_authenticated uptime_url username password.

Lemma sync_body_emits_any (traefik_servers docker_servers : list Server)
      (ignore_patterns : list string) (reset_tags : bool) :
  emits (fun _ => True)
        (sync_body uptime_url traefik_servers docker_servers username password
                   ignore_patterns reset_tags).
Proof.
  unfold sync_body. cbv zeta.
  apply emits_bind; [now apply emits_api_login | intros _].
  apply emits_bind; [now apply emits_api_get_monitors | intros ms].
  apply emits_bind; [apply prune_monitors_emits; auto | intros ms'].
  apply sync_groups_emits; auto.
Qed.

(** X10.  A run always closes its session.  Either the first connection
    fails, and that failure is the outcome of the run, with nothing else
    asked of the service; or the run returns or ends the process with
    status 1, and in both cases the last thing it asks of the service is
    to disconnect. *)
Theorem sync_monitors_closes_the_session
        (traefik_servers docker_servers : list Server)
        (ignore_patterns : list string) (reset_tags : bool) (w : World) :
  let r := sync_monitors uptime_url traefik_servers docker_servers username password
                         ignore_patterns reset_tags w in
  (exists e, fst r = Raise e /\ calls (snd r) = calls w ++ [CConnect uptime_url])
  \/ ((fst r = Return tt \/ fst r = SysExit 1)
      /\ exists l, calls (snd r) = calls w ++ CConnect uptime_url :: l ++ [CDisconnect]).
Proof.
  cbv zeta. unfold sync_monitors. rewrite bind_run.
  destruct (api_connect_cases uptime_url w) as [[e [Ho Hc]]|[Ho Hc]];
    destruct (api_connect uptime_url w) as [o w1]; simpl in Ho, Hc; subst o.
  { left. exists e. split; [reflexivity | exact Hc]. }
  right. unfold try_finally.
  set (body := try_except _ _).
  assert (Hr : no_raise body).
  { apply no_raise_try_except. intros e.
    apply no_raise_bind; [apply no_raise_print | intros; apply no_raise_sys_exit]. }
  assert (Hx : exits_one body).
  { apply exits_one_try_except; [apply sync_body_exits_one | intros e].
    apply exits_one_bind; [apply exits_one_print | intros; apply exits_one_sys_exit]. }
  assert (He : emits (fun _ => True) body).
  { apply emits_try_except; [apply sync_body_emits_any | intros e].
    apply emits_bind; [apply emits_print | intros; apply emits_sys_exit]. }
  specialize (Hr w1). specialize (Hx w1). specialize (He w1).
  destruct (body w1) as [o w2]. simpl in Hr, Hx, He.
  destruct He as [l [Hl _]].
  pose proof (api_disconnect_calls w2) as Hd.
  unfold try_pass. destruct (api_disconnect w2) as [o3 w3]. simpl in Hd. simpl.
  split.
  - destruct o as [[]|e|c]; [now left | now destruct (Hr e) | right].
    now rewrite (Hx c eq_refl).
  - exists l. rewrite Hd, Hl, Hc, <- !app_assoc. reflexivity.
Qed.

(** X11.  When the login fails the run ends with status 1 at once: it
    prints the error, reads nothing, changes nothing, and disconnects. *)
Theorem failed_login_ends_the_run
        (traefik_servers docker_servers : list Server)
        (ignore_patterns : list string) (reset_tags : bool)
        (w : World) (e : string) (rest : list (option string)) :
  faults w = None :: Some e :: rest ->
  let r := sync_monitors uptime_url traefik_servers docker_servers username password
                         ignore_patterns reset_tags w in
  fst r = SysExit 1
  /\ calls (snd r)
     = calls w ++ [CConnect uptime_url; CLogin username password; CDisconnect]
  /\ stdout (snd r) = stdout w ++ [ErrorLine e]
  /\ same_service w (snd r).
Proof.
  destruct w as [ms ts dh nid nt fs cs out]. simpl. intros ->.
  unfold sync_monitors, sync_body, try_finally, try_except, try_pass, bind,
    api_connect, api_login, api_disconnect, api_call, print, sys_exit, ret.
  simpl. destruct rest as [|[e'|] rest']; simpl;
    rewrite <- !app_assoc; repeat split.
Qed.

End Session.

(** ** Groups that are skipped *)

Lemma same_monitors_frame : frame same_monitors.
Proof.
  split; try (intros; now split).
  intros a b c. unfold same_monitors. intuition congruence.
Qed.

Lemma same_monitors_add_tag (name color : string) :
  steps same_monitors (api_add_tag name color).
Proof. apply (frame_api_call _ same_monitors_frame). intros w. now split. Qed.

(** X12.  A Docker group whose Docker host, [<group>-docker], is not
    configured in the service is skipped before anything is done to a
    monitor: no monitor is created, none is retagged, and the count of
    created monitors is returned as it was, unless a re-authentication
    ends the process with status 1.  The tags of the group may have been
    created by then. *)
Theorem docker_group_without_host_is_skipped
        (uptime_url username password : string) (reset_tags : bool)
        (monitors : list Monitor) (docker_info : Server) (total_created : Z)
        (w : World) :
  (forall host, In host (srv_docker_hosts w) ->
                dockerhost_name host <> (server_group docker_info ++ "-docker")%string) ->
  let r := process_docker reset_tags
                          (ensure_authenticated uptime_url username password)
                          monitors docker_info total_created w in
  same_monitors w (snd r)
  /\ (fst r = Return total_created \/ fst r = SysExit 1).
Proof.
  intros Hno. cbv zeta.
  set (reauth := ensure_authenticated uptime_url username password).
  assert (Hreauth : no_raise (call_opt (Some reauth))).
  { simpl. apply ensure_authenticated_no_raise. }
  assert (Htag : forall name, steps same_monitors (get_or_create_tag name (Some reauth))).
  { intros name.
    apply (get_or_create_tag_keeps same_monitors same_monitors_frame).
    intros tag_name. apply (frame_lookup_or_create_tag _ same_monitors_frame).
    apply same_monitors_add_tag. }
  unfold process_docker. cbv zeta. rewrite bind_run.
  pose proof (extract_containers_keeps same_monitors same_monitors_frame
                (server_url docker_info) w) as K0.
  destruct (extract_containers_returns (server_url docker_info) w) as [cs Hcs].
  destruct (extract_containers_from_docker (server_url docker_info) w) as [o w0].
  simpl in K0, Hcs. subst o.
  destruct cs as [|c0 cs0].
  { unfold bind, print, ret. simpl. split; [exact K0 | now left]. }
  rewrite bind_run.
  set (group_tag := if PyStr.truthy (server_group docker_info)
                    then get_or_create_tag (server_group docker_info) (Some reauth)
                    else ret None).
  assert (K1 : steps same_monitors group_tag).
  { unfold group_tag. destruct (PyStr.truthy _);
      [apply Htag | apply steps_ret, (frame_refl _ same_monitors_frame)]. }
  assert (R1 : no_raise group_tag).
  { unfold group_tag. destruct (PyStr.truthy _);
      [now apply get_or_create_tag_no_raise | apply no_raise_ret]. }
  assert (X1 : exits_one group_tag).
  { unfold group_tag. destruct (PyStr.truthy _);
      [apply get_or_create_tag_exits_one | apply exits_one_ret]. }
  specialize (K1 w0). specialize (R1 w0). specialize (X1 w0).
  destruct (group_tag w0) as [[tag_id|e|c] w1]; simpl in K1, R1, X1.
  2: now destruct (R1 e).
  2: { rewrite (X1 c eq_refl). split; [|now right].
       eapply (frame_trans _ same_monitors_frame); eauto. }
  rewrite bind_run.
  pose proof (Htag "docker" w1) as K2.
  pose proof (get_or_create_tag_no_raise "docker" (Some reauth) Hreauth w1) as R2.
  pose proof (get_or_create_tag_exits_one uptime_url username password "docker" w1)
    as X2.
  fold reauth in X2.
  destruct (get_or_create_tag "docker" (Some reauth) w1) as [[docker_tag_id|e|c] w2];
    simpl in K2, R2, X2.
  2: now destruct (R2 e).
  2: { rewrite (X2 c eq_refl). split; [|now right].
       eapply (frame_trans _ same_monitors_frame); [exact K0|].
       eapply (frame_trans _ same_monitors_frame); eauto. }
  assert (K02 : same_monitors w w2).
  { eapply (frame_trans _ same_monitors_frame); [exact K0|].
    eapply (frame_trans _ same_monitors_frame); eauto. }
  rewrite bind_run.
  set (docker_host := (server_group docker_info ++ "-docker")%string) in *.
  pose proof (get_docker_host_id_keeps same_monitors same_monitors_frame
                uptime_url username password docker_host w2) as K3.
  pose proof (get_docker_host_id_no_raise docker_host (Some reauth) Hreauth w2) as R3.
  pose proof (get_docker_host_id_exits_one uptime_url username password docker_host w2)
    as X3.
  pose proof (get_docker_host_id_found uptime_url username password docker_host w2)
    as S3.
  fold reauth in K3, X3, S3.
  destruct (get_docker_host_id docker_host (Some reauth) w2) as [[dh|e|c] w3];
    simpl in K3, R3, X3, S3.
  2: now destruct (R3 e).
  2: { rewrite (X3 c eq_refl). split; [|now right].
       eapply (frame_trans _ same_monitors_frame); eauto. }
  assert (K03 : same_monitors w w3).
  { eapply (frame_trans _ same_monitors_frame); eauto. }
  destruct dh as [id|].
  { exfalso. destruct (S3 id eq_refl) as [host [Hf _]].
    apply find_some in Hf. destruct Hf as [Hin Hname].
    apply String.eqb_eq in Hname.
    destruct K02 as [_ D]. rewrite D in Hin. exact (Hno host Hin Hname). }
  simpl. unfold bind, print, ret. simpl. split; [exact K03 | now left].
Qed.

Lemma extract_hosts_failure (traefik_url : string) (w : World) :
  fetch_failed (net w (traefik_url ++ "/api/rawdata")%string) ->
  exists e,
    extract_hosts_from_traefik traefik_url w
    = (Return [], log_output (ErrorFetchingTraefik traefik_url e) w).
Proof.
  unfold extract_hosts_from_traefik, try_except, bind, requests_get,
    raise_for_status, response_json, raise, ret, print, fetch_failed.
  destruct (net w _) as [e|status body]; simpl; [eauto|].
  destruct ((400 <=? status) && (status <? 600)) eqn:E; simpl; [eauto|].
  assert (Hs : ~ (400 <= status < 600)).
  { apply andb_false_iff in E. destruct E as [E|E].
    - apply Z.leb_gt in E. lia.
    - apply Z.ltb_ge in E. lia. }
  destruct body as [|routers|cs]; simpl; intros [H|[H|[rs H]]];
    try contradiction; try discriminate; eauto.
Qed.

(** X13.  A Traefik group whose router list cannot be fetched or decoded
    is skipped: two lines are printed, the error and the notice that no
    host was found, and that is all.  The service is not contacted and the
    known URLs and the count of created monitors are returned as they
    were, so the run goes on with the next group. *)
Theorem traefik_group_that_fails_is_skipped
        (ignore_patterns : list string) (reset_tags : bool) (reauth : M unit)
        (monitors : list Monitor) (traefik_tag_id : option Z) (traefik_info : Server)
        (vars : list string * Z) (w : World) :
  fetch_failed (net w (server_url traefik_info ++ "/api/rawdata")%string) ->
  exists e,
    process_traefik ignore_patterns reset_tags reauth monitors traefik_tag_id
                    traefik_info vars w
    = (Return vars,
       log_output (NoHosts (server_url traefik_info))
         (log_output (ErrorFetchingTraefik (server_url traefik_info) e) w)).
Proof.
  intros H. destruct (extract_hosts_failure _ w H) as [e E]. exists e.
  unfold process_traefik. cbv zeta. rewrite bind_run, E. reflexivity.
Qed.


(** ** The count of created monitors *)

Lemma same_count_frame : frame same_count.
Proof.
  split; try (intros; reflexivity).
  intros a b c. unfold same_count. congruence.
Qed.

Lemma same_count_add_tag (name color : string) :
  steps same_count (api_add_tag name color).
Proof. apply (frame_api_call _ same_count_frame). intros w. reflexivity. Qed.

Lemma same_count_attach (tag_id : option Z) (id : Z) (value : string) :
  steps same_count (api_add_monitor_tag tag_id id value).
Proof.
  apply (frame_api_call _ same_count_frame). intros w.
  destruct tag_id; [|reflexivity]. unfold same_count. simpl. apply length_map.
Qed.

Lemma same_count_detach (tag_id id : Z) (value : string) :
  steps same_count (api_delete_monitor_tag tag_id id value).
Proof.
  apply (frame_api_call _ same_count_frame). intros w.
  unfold same_count. simpl. apply length_map.
Qed.

Lemma grown_by_zero (w w' : World) : same_count w w' -> grown_by 0 w w'.
Proof. unfold same_count, grown_by. intros ->. lia. Qed.

Lemma grown_by_trans (j k : Z) (a b c : World) :
  grown_by j a b -> grown_by k b c -> grown_by (j + k) a c.
Proof. unfold grown_by. lia. Qed.

Section Count.

Variables uptime_url username password : string.
Let reauth := ensure_authenticated uptime_url username password.

Lemma add_tags_same_count (id : Z) (tag_ids : list (option Z)) :
  steps same_count (add_tags_to_monitor id tag_ids (Some reauth)).
Proof.
  apply (add_tags_keeps _ same_count_frame). apply same_count_attach.
Qed.

Lemma get_or_create_tag_same_count (name : string) :
  steps same_count (get_or_create_tag name (Some reauth)).
Proof.
  apply (get_or_create_tag_keeps _ same_count_frame).
  intros tag_name. apply (frame_lookup_or_create_tag _ same_count_frame).
  apply same_count_add_tag.
Qed.

Lemma update_monitor_tags_same_count (reset_tags : bool) (m : Monitor)
      (tag_id kind_tag_id : option Z) :
  steps same_count (update_monitor_tags reset_tags reauth m tag_id kind_tag_id).
Proof.
  apply (update_monitor_tags_keeps _ same_count_frame).
  - apply same_count_attach.
  - intros _. apply same_count_detach.
Qed.

(** The creation of one monitor: when it returns, the local variables
    have gone from [unchanged] to the value returned, and the service has
    gained as many monitors as [count] has grown by. *)
Lemma create_monitor_counts {S} (count : S -> Z) (cfg : MonitorConfig)
      (tags_to_add : list (option Z)) (created unchanged s : S) (w w' : World) :
  count created = count unchanged + 1 ->
  create_monitor reauth cfg tags_to_add created unchanged w = (Return s, w') ->
  grown_by (count s - count unchanged) w w'.
Proof.
  intros Hc. unfold create_monitor, try_except. rewrite bind_run.
  assert (Hadd : (exists w1, api_add_monitor cfg w = (Return (Some (srv_next_id w)), w1)
                             /\ grown_by 1 w w1)
                 \/ (exists e w1, api_add_monitor cfg w = (Raise e, w1)
                                  /\ same_count w w1)).
  { destruct w as [ms ts dh nid nt fs cs out].
    unfold api_add_monitor, api_call, same_count, grown_by. simpl.
    destruct fs as [|[e|] rest]; simpl.
    - left. eexists. split; [reflexivity|]. simpl. rewrite length_app. simpl. lia.
    - right. exists e. eexists. split; reflexivity.
    - left. eexists. split; [reflexivity|]. simpl. rewrite length_app. simpl. lia. }
  destruct Hadd as [[w1 [E G]]|[e [w1 [E G]]]]; rewrite E.
  - rewrite bind_run.
    set (tagging := if truthy_id (Some (srv_next_id w))
                    then add_tags_to_monitor (srv_next_id w) tags_to_add (Some reauth)
                    else ret tt).
    assert (Ht : steps same_count tagging).
    { unfold tagging. destruct (truthy_id _);
        [apply add_tags_same_count | apply steps_ret, (frame_refl _ same_count_frame)]. }
    assert (Hr : no_raise tagging).
    { unfold tagging. destruct (truthy_id _); [|apply no_raise_ret].
      apply add_tags_to_monitor_no_raise. simpl. apply ensure_authenticated_no_raise. }
    specialize (Ht w1). specialize (Hr w1).
    destruct (tagging w1) as [[[]|e|c] w2]; simpl in *.
    + intros H. inversion H; subst. rewrite Hc.
      replace (count unchanged + 1 - count unchanged) with (1 + 0) by lia.
      eapply grown_by_trans; [exact G | now apply grown_by_zero].
    + now destruct (Hr e).
    + discriminate.
  - unfold bind, print, ret. simpl. intros H. inversion H; subst.
    rewrite Z.sub_diag. now apply grown_by_zero.
Qed.

(** A loop whose iterations count what they create counts what it
    creates. *)
Lemma for_fold_counts {A S} (count : S -> Z) (xs : list A) (body : A -> S -> M S) :
  (forall x s w s' w',
      body x s w = (Return s', w') -> grown_by (count s' - count s) w w') ->
  forall s w s' w',
    for_fold xs s body w = (Return s', w') -> grown_by (count s' - count s) w w'.
Proof.
  intros Hb. induction xs as [|x xs IH]; intros s w s' w'.
  - simpl. unfold ret. intros H. inversion H; subst.
    rewrite Z.sub_diag. apply grown_by_zero. reflexivity.
  - rewrite for_fold_cons. destruct (body x s w) as [[s1|e|c] w1] eqn:E;
      try discriminate.
    intros H. apply Hb in E. apply IH in H.
    replace (count s' - count s) with ((count s1 - count s) + (count s' - count s1))
      by lia.
    eapply grown_by_trans; eauto.
Qed.

Lemma process_traefik_counts (ignore_patterns : list string) (reset_tags : bool)
      (monitors : list Monitor) (traefik_tag_id : option Z) (traefik_info : Server)
      (vars vars' : list string * Z) (w w' : World) :
  process_traefik ignore_patterns reset_tags reauth monitors traefik_tag_id
                  traefik_info vars w = (Return vars', w') ->
  grown_by (snd vars' - snd vars) w w'.
Proof.
  unfold process_traefik. cbv zeta. rewrite bind_run.
  pose proof (extract_hosts_keeps _ same_count_frame (server_url traefik_info) w) as K0.
  destruct (extract_hosts_from_traefik (server_url traefik_info) w)
    as [[hosts|e|c] w0]; simpl in K0; try discriminate.
  destruct hosts as [|h0 hosts0].
  { unfold bind, print, ret. simpl. intros H. inversion H; subst.
    rewrite Z.sub_diag. now apply grown_by_zero. }
  rewrite bind_run.
  set (group_tag := if PyStr.truthy (server_group traefik_info)
                    then get_or_create_tag (server_group traefik_info) (Some reauth)
                    else ret None).
  assert (K1 : steps same_count group_tag).
  { unfold group_tag. destruct (PyStr.truthy _);
      [apply get_or_create_tag_same_count
      | apply steps_ret, (frame_refl _ same_count_frame)]. }
  specialize (K1 w0).
  destruct (group_tag w0) as [[tag_id|e|c] w1]; simpl in K1; try discriminate.
  rewrite bind_run.
  set (tagging := if truthy_id tag_id then _ else ret tt).
  assert (K2 : steps same_count tagging).
  { unfold tagging. destruct (truthy_id tag_id);
      [|apply steps_ret, (frame_refl _ same_count_frame)].
    apply (steps_for_each _ (frame_refl _ same_count_frame)
                          (frame_trans _ same_count_frame)).
    intros host _. destruct (find _ monitors);
      [apply update_monitor_tags_same_count
      | apply steps_ret, (frame_refl _ same_count_frame)]. }
  specialize (K2 w1).
  destruct (tagging w1) as [[[]|e|c] w2]; simpl in K2; try discriminate.
  intros H.
  apply (for_fold_counts (S := list string * Z) snd) in H.
  - replace (snd vars' - snd vars) with (0 + (snd vars' - snd vars)) by lia.
    eapply grown_by_trans; [|exact H]. apply grown_by_zero.
    unfold same_count in *. congruence.
  - intros host s wa s' wb Hb.
    apply (create_monitor_counts (S := list string * Z) snd) in Hb; [exact Hb|].
    reflexivity.
Qed.

Lemma process_docker_counts (reset_tags : bool) (monitors : list Monitor)
      (docker_info : Server) (total_created total : Z) (w w' : World) :
  process_docker reset_tags reauth monitors docker_info total_created w
  = (Return total, w') ->
  grown_by (total - total_created) w w'.
Proof.
  unfold process_docker. cbv zeta. rewrite bind_run.
  pose proof (extract_containers_keeps _ same_count_frame (server_url docker_info) w)
    as K0.
  destruct (extract_containers_from_docker (server_url docker_info) w)
    as [[cs|e|c] w0]; simpl in K0; try discriminate.
  destruct cs as [|c0 cs0].
  { unfold bind, print, ret. simpl. intros H. inversion H; subst.
    rewrite Z.sub_diag. now apply grown_by_zero. }
  rewrite bind_run.
  set (group_tag := if PyStr.truthy (server_group docker_info)
                    then get_or_create_tag (server_group docker_info) (Some reauth)
                    else ret None).
  assert (K1 : steps same_count group_tag).
  { unfold group_tag. destruct (PyStr.truthy _);
      [apply get_or_create_tag_same_count
      | apply steps_ret, (frame_refl _ same_count_frame)]. }
  specialize (K1 w0).
  destruct (group_tag w0) as [[tag_id|e|c] w1]; simpl in K1; try discriminate.
  rewrite bind_run.
  pose proof (get_or_create_tag_same_count "docker" w1) as K2.
  destruct (get_or_create_tag "docker" (Some reauth) w1) as [[docker_tag_id|e|c] w2];
    simpl in K2; try discriminate.
  rewrite bind_run.
  pose proof (get_docker_host_id_keeps _ same_count_frame uptime_url username password
                (server_group docker_info ++ "-docker")%string w2) as K3.
  fold reauth in K3.
  destruct (get_docker_host_id _ (Some reauth) w2) as [[dh|e|c] w3];
    simpl in K3; try discriminate.
  assert (K03 : same_count w w3) by (unfold same_count in *; congruence).
  destruct (negb (truthy_id dh)).
  { unfold bind, print, ret. simpl. intros H. inversion H; subst.
    rewrite Z.sub_diag. now apply grown_by_zero. }
  rewrite bind_run.
  set (tagging := if truthy_id tag_id || truthy_id docker_tag_id then _ else ret tt).
  assert (K4 : steps same_count tagging).
  { unfold tagging. destruct (_ || _);
      [|apply steps_ret, (frame_refl _ same_count_frame)].
    apply (steps_for_each _ (frame_refl _ same_count_frame)
                          (frame_trans _ same_count_frame)).
    intros name _. destruct (find _ monitors);
      [apply update_monitor_tags_same_count
      | apply steps_ret, (frame_refl _ same_count_frame)]. }
  specialize (K4 w3).
  destruct (tagging w3) as [[[]|e|c] w4]; simpl in K4; try discriminate.
  intros H.
  apply (for_fold_counts (S := Z) (fun n => n)) in H.
  - replace (total - total_created) with (0 + (total - total_created)) by lia.
    eapply grown_by_trans; [|exact H]. apply grown_by_zero.
    unfold same_count in *. congruence.
  - intros name s wa s' wb Hb.
    apply (create_monitor_counts (S := Z) (fun n => n)) in Hb; [exact Hb|].
    reflexivity.
Qed.

(** X15.  The count that a run reports is the number of monitors it
    created.  When the part of the run that follows the pruning (the
    Traefik groups, then the Docker groups) returns, the last line printed
    is the report of a count [n], and the service has [n] more monitors
    than before. *)
Theorem reported_count_is_the_number_created
        (traefik_servers docker_servers : list Server)
        (ignore_patterns : list string) (reset_tags : bool)
        (monitors : list Monitor) (w : World) :
  let r := sync_groups traefik_servers docker_servers ignore_patterns reset_tags
                       reauth monitors w in
  fst r = Return tt ->
  exists n lines,
    stdout (snd r) = lines ++ [SyncComplete n]
    /\ Z.of_nat (List.length (srv_monitors (snd r)))
       = Z.of_nat (List.length (srv_monitors w)) + n.
Proof.
  cbv zeta. unfold sync_groups. cbv zeta. rewrite bind_run.
  pose proof (get_or_create_tag_same_count "traefik" w) as K0.
  destruct (get_or_create_tag "traefik" (Some reauth) w) as [[traefik_tag_id|e|c] w0];
    simpl in K0; try discriminate.
  rewrite bind_run.
  set (warn := if negb (truthy_id traefik_tag_id) then print WarnNoTraefikTag else ret tt).
  assert (K1 : steps same_count warn).
  { unfold warn. destruct (negb _);
      [apply steps_print, (frame_output _ same_count_frame)
      | apply steps_ret, (frame_refl _ same_count_frame)]. }
  specialize (K1 w0).
  destruct (warn w0) as [[[]|e|c] w1]; simpl in K1; try discriminate.
  rewrite bind_run.
  destruct (for_fold traefik_servers _ _ w1) as [[vars|e|c] w2] eqn:E2;
    try discriminate.
  apply (for_fold_counts (S := list string * Z) snd) in E2.
  2: { intros info s wa s' wb Hb. now apply process_traefik_counts in Hb. }
  rewrite bind_run.
  destruct (for_fold docker_servers _ _ w2) as [[total|e|c] w3] eqn:E3;
    try discriminate.
  apply (for_fold_counts (S := Z) (fun n => n)) in E3.
  2: { intros info s wa s' wb Hb. now apply process_docker_counts in Hb. }
  intros _. exists total, (stdout w3). split; [reflexivity|].
  simpl in *. unfold grown_by, same_count in *. simpl. lia.
Qed.

End Count.

(** ** Tagging in a session without faults *)

Lemma with_tags_cons (id : Z) (tag : TagRef) (tags : list TagRef) (ms : list Monitor) :
  map (with_tags id (tag :: tags)) ms = map (with_tags id tags) (map (attach_tag id tag) ms).
Proof. now rewrite map_map. Qed.

Lemma with_tags_identity (id : Z) (tags : list TagRef) (m : Monitor) :
  monitor_identity (with_tags id tags m) = monitor_identity m.
Proof.
  unfold with_tags. revert m. induction tags as [|t tags IH]; intros m; simpl.
  - reflexivity.
  - now rewrite IH, attach_tag_identity.
Qed.

Lemma with_tags_tags (id : Z) (tags : list TagRef) (m : Monitor) :
  monitor_id m = id -> monitor_tags (with_tags id tags m) = monitor_tags m ++ tags.
Proof.
  unfold with_tags. revert m. induction tags as [|t tags IH]; intros m Hid; simpl.
  - now rewrite app_nil_r.
  - rewrite IH.
    + unfold attach_tag. rewrite Hid, Z.eqb_refl. simpl. now rewrite <- app_assoc.
    + unfold attach_tag. now destruct (monitor_id m =? id).
Qed.

Lemma with_tags_other (id : Z) (tags : list TagRef) (m : Monitor) :
  monitor_id m <> id -> with_tags id tags m = m.
Proof.
  intros Hid. unfold with_tags. induction tags as [|t tags IH]; simpl; [reflexivity|].
  unfold attach_tag at 2. apply Z.eqb_neq in Hid. now rewrite Hid.
Qed.

(** With no fault pending, [add_tags_to_monitor] returns after one call
    for each identifier that is present, and the service has attached
    those tags. *)
Lemma add_tags_without_faults (id : Z) (tag_ids : list (option Z))
      (ensure_auth_fn : option (M unit)) (w : World) :
  faults w = [] ->
  add_tags_to_monitor id tag_ids ensure_auth_fn w
  = (Return tt,
     mkWorld (map (with_tags id (present_tags tag_ids)) (srv_monitors w))
             (srv_tags w) (srv_docker_hosts w) (srv_next_id w) (net w) []
             (calls w ++ tag_calls id (present_tags tag_ids)) (stdout w)).
Proof.
  unfold add_tags_to_monitor. revert w.
  induction tag_ids as [|tag_id tag_ids IH]; intros w Hf.
  - destruct w as [ms ts dh nid nt fs cs out]. simpl in Hf. subst fs.
    simpl. unfold ret. now rewrite map_id, app_nil_r.
  - cbn [for_each]. rewrite bind_run.
    destruct (truthy_id tag_id) eqn:T.
    + destruct tag_id as [t|]; [|discriminate].
      assert (E : add_tag_to_monitor id ensure_auth_fn (Some t) w
                  = (Return tt,
                     mkWorld (map (attach_tag id (mkTagRef t "")) (srv_monitors w))
                             (srv_tags w) (srv_docker_hosts w) (srv_next_id w) (net w) []
                             (calls w ++ [CAddMonitorTag (Some t) id ""]) (stdout w))).
      { unfold add_tag_to_monitor. rewrite T.
        destruct w as [ms ts dh nid nt fs cs out]. simpl in Hf. subst fs. reflexivity. }
      rewrite E, IH by reflexivity. cbn [srv_monitors srv_tags srv_docker_hosts srv_next_id
                                         net calls stdout].
      unfold present_tags. cbn [flat_map]. rewrite T.
      fold (present_tags tag_ids). cbn [app].
      rewrite with_tags_cons. unfold tag_calls. cbn [map tagref_tag_id tagref_value].
      now rewrite <- app_assoc.
    + unfold add_tag_to_monitor. rewrite T. cbn [negb]. unfold ret at 1.
      rewrite IH by exact Hf.
      unfold present_tags. cbn [flat_map]. now rewrite T.
Qed.

Lemma with_tags_own (id : Z) (tags : list TagRef) (name : string) (type : MonitorType)
      (url : option string) (docker_host : option Z) (l : list TagRef) :
  with_tags id tags (mkMonitor id name type url docker_host l)
  = mkMonitor id name type url docker_host (l ++ tags).
Proof.
  unfold with_tags. revert l. induction tags as [|t tags IH]; intros l; simpl.
  - now rewrite app_nil_r.
  - unfold attach_tag at 2. simpl. rewrite Z.eqb_refl, IH. now rewrite <- app_assoc.
Qed.

Lemma map_with_tags_others (id : Z) (tags : list TagRef) (ms : list Monitor) :
  (forall m, In m ms -> monitor_id m <> id) ->
  map (with_tags id tags) ms = ms.
Proof.
  intros H. rewrite <- (map_id ms) at 2. apply map_ext_in.
  intros m Hm. apply with_tags_other. now apply H.
Qed.

(** X16.  The creation of a monitor in a session without faults, when the
    service gives the new monitor an identifier that is not 0 and that no
    other monitor has: the monitor is added with the configured name,
    type, URL and Docker host, it gets one tag for each tag identifier that
    is present, in their order, by one call each, and the local variables
    are updated. *)
Theorem create_monitor_without_faults
        {S} (ensure_authenticated : M unit) (cfg : MonitorConfig)
        (tags_to_add : list (option Z)) (created unchanged : S) (w : World) :
  faults w = [] ->
  srv_next_id w <> 0 ->
  (forall m, In m (srv_monitors w) -> monitor_id m <> srv_next_id w) ->
  let r := create_monitor ensure_authenticated cfg tags_to_add created unchanged w in
  fst r = Return created
  /\ srv_monitors (snd r)
     = srv_monitors w
       ++ [mkMonitor (srv_next_id w) (cfg_name cfg) (cfg_type cfg) (cfg_url cfg)
                     (cfg_docker_host cfg) (present_tags tags_to_add)]
  /\ calls (snd r)
     = calls w ++ CAddMonitor cfg :: tag_calls (srv_next_id w) (present_tags tags_to_add)
  /\ stdout (snd r) = stdout w.
Proof.
  intros Hf Hid Hfresh. cbv zeta.
  unfold create_monitor, try_except. rewrite bind_run.
  assert (E : api_add_monitor cfg w
              = (Return (Some (srv_next_id w)),
                 mkWorld (srv_monitors w
                          ++ [mkMonitor (srv_next_id w) (cfg_name cfg) (cfg_type cfg)
                                        (cfg_url cfg) (cfg_docker_host cfg) []])
                         (srv_tags w) (srv_docker_hosts w) (srv_next_id w + 1) (net w) []
                         (calls w ++ [CAddMonitor cfg]) (stdout w))).
  { destruct w as [ms ts dh nid nt fs cs out]. simpl in Hf. subst fs. reflexivity. }
  rewrite E, bind_run.
  assert (T : truthy_id (Some (srv_next_id w)) = true).
  { simpl. now apply negb_true_iff, Z.eqb_neq. }
  rewrite T, add_tags_without_faults by reflexivity.
  cbn [fst snd ret srv_monitors srv_tags srv_docker_hosts srv_next_id net calls stdout].
  split; [reflexivity|]. split; [|split; [|reflexivity]].
  - rewrite map_app, (map_with_tags_others _ _ _ Hfresh). simpl.
    now rewrite with_tags_own.
  - now rewrite <- app_assoc.
Qed.

Lemma missing_tags_after (monitor_tags : list TagRef) (tag_id kind_tag_id : option Z) :
  missing_tags
    (monitor_tags ++ present_tags (missing_tags monitor_tags tag_id kind_tag_id))
    tag_id kind_tag_id = [].
Proof.
  unfold missing_tags.
  set (has := fun (i : option Z) (l : list TagRef) =>
                existsb (fun tag => option_Z_eqb (Some (tagref_tag_id tag)) i) l).
  change (existsb (fun tag => option_Z_eqb (Some (tagref_tag_id tag)) tag_id))
    with (has tag_id).
  change (existsb (fun tag => option_Z_eqb (Some (tagref_tag_id tag)) kind_tag_id))
    with (has kind_tag_id).
  assert (Happ : forall i l l', has i (l ++ l') = has i l || has i l').
  { intros. apply existsb_app. }
  assert (Hown : forall i, truthy_id i = true -> has i (present_tags [i]) = true).
  { intros [z|] T; [|discriminate]. unfold present_tags. cbn [flat_map].
    rewrite T. unfold has. simpl. now rewrite Z.eqb_refl. }
  assert (Hsplit : forall x y : list (option Z),
             present_tags (x ++ y) = present_tags x ++ present_tags y).
  { intros. unfold present_tags. apply flat_map_app. }
  rewrite Hsplit, !Happ.
  destruct (has tag_id monitor_tags) eqn:G, (has kind_tag_id monitor_tags) eqn:K;
    destruct (truthy_id tag_id) eqn:Ta, (truthy_id kind_tag_id) eqn:Tb;
    cbn [negb andb orb app];
    rewrite ?Hown by assumption;
    rewrite ?orb_true_r, ?andb_false_r; cbn [negb andb orb app]; reflexivity.
Qed.

(** X17.  In normal mode and a session without faults, the check of a
    monitor attaches the tags it lacks among the two wanted ones, and
    leaves nothing to do: the monitor as the service then has it lacks
    none of them, so that a second check of it would make no call. *)
Theorem check_leaves_nothing_missing
        (ensure_authenticated : M unit) (monitor_to_check : Monitor)
        (tag_id kind_tag_id : option Z) (w : World) :
  faults w = [] ->
  let id := monitor_id monitor_to_check in
  let added := present_tags (missing_tags (monitor_tags monitor_to_check)
                                          tag_id kind_tag_id) in
  let r := check_monitor_tags ensure_authenticated monitor_to_check
                              tag_id kind_tag_id w in
  fst r = Return tt
  /\ srv_monitors (snd r) = map (with_tags id added) (srv_monitors w)
  /\ calls (snd r) = calls w ++ tag_calls id added
  /\ monitor_tags (with_tags id added monitor_to_check)
     = monitor_tags monitor_to_check ++ added
  /\ missing_tags (monitor_tags (with_tags id added monitor_to_check))
                  tag_id kind_tag_id = [].
Proof.
  intros Hf. cbv zeta.
  assert (E : check_monitor_tags ensure_authenticated monitor_to_check
                                 tag_id kind_tag_id w
              = add_tags_to_monitor (monitor_id monitor_to_check)
                  (missing_tags (monitor_tags monitor_to_check) tag_id kind_tag_id)
                  (Some ensure_authenticated) w).
  { unfold check_monitor_tags. cbv zeta. destruct (missing_tags _ _ _); reflexivity. }
  rewrite E, add_tags_without_faults by exact Hf.
  cbn [fst snd srv_monitors calls].
  rewrite with_tags_tags by reflexivity.
  repeat split. apply missing_tags_after.
Qed.

Lemma without_tags_cons (id : Z) (tag : TagRef) (tags : list TagRef) (ms : list Monitor) :
  map (without_tags id (tag :: tags)) ms
  = map (without_tags id tags) (map (detach_tag id tag) ms).
Proof. now rewrite map_map. Qed.

Lemma without_tags_id (id : Z) (tags : list TagRef) (m : Monitor) :
  monitor_id (without_tags id tags m) = monitor_id m.
Proof.
  unfold without_tags. revert m. induction tags as [|t tags IH]; intros m; simpl.
  - reflexivity.
  - now rewrite IH, detach_tag_id.
Qed.

(** With no fault pending, the removal loop returns with the flag as it
    was, after one call for each tag, and the service has detached them. *)
Lemma remove_tags_without_faults (ensure_authenticated : M unit) (id : Z)
      (tags : list TagRef) (failed0 : bool) (w : World) :
  faults w = [] ->
  for_fold tags failed0 (fun tag failed =>
    f <- remove_tag ensure_authenticated id tag ;;
    ret (failed || f)) w
  = (Return failed0,
     mkWorld (map (without_tags id tags) (srv_monitors w))
             (srv_tags w) (srv_docker_hosts w) (srv_next_id w) (net w) []
             (calls w ++ untag_calls id tags) (stdout w)).
Proof.
  revert failed0 w. induction tags as [|tag tags IH]; intros failed0 w Hf.
  - destruct w as [ms ts dh nid nt fs cs out]. simpl in Hf. subst fs.
    simpl. unfold ret, without_tags. simpl. now rewrite map_id, app_nil_r.
  - rewrite for_fold_cons, bind_run.
    assert (E : remove_tag ensure_authenticated id tag w
                = (Return false,
                   mkWorld (map (detach_tag id tag) (srv_monitors w))
                           (srv_tags w) (srv_docker_hosts w) (srv_next_id w) (net w) []
                           (calls w ++ [removal_call id tag]) (stdout w))).
    { destruct w as [ms ts dh nid nt fs cs out]. simpl in Hf. subst fs.
      destruct tag as [t v]. reflexivity. }
    rewrite E. cbn [ret]. rewrite IH by reflexivity.
    cbn [srv_monitors srv_tags srv_docker_hosts srv_next_id net calls stdout].
    rewrite without_tags_cons, orb_false_r. unfold untag_calls. cbn [map].
    now rewrite <- app_assoc.
Qed.

(** X18.  In reset mode and a session without faults, a monitor ends up
    with exactly the wanted tags: the service is asked to detach each of
    the tags the monitor had, then to attach one tag for each wanted
    identifier that is present, in that order, and the monitor, if it had
    no other tags than the ones detached, has those and no other. *)
Theorem reset_without_faults
        (ensure_authenticated : M unit) (monitor_to_check : Monitor)
        (tags_to_add : list (option Z)) (w : World) :
  faults w = [] ->
  let id := monitor_id monitor_to_check in
  let old := monitor_tags monitor_to_check in
  let new := present_tags tags_to_add in
  let r := reset_monitor_tags ensure_authenticated monitor_to_check tags_to_add w in
  fst r = Return tt
  /\ srv_monitors (snd r)
     = map (fun m => with_tags id new (without_tags id old m)) (srv_monitors w)
  /\ calls (snd r) = calls w ++ untag_calls id old ++ tag_calls id new
  /\ monitor_tags (with_tags id new (without_tags id old monitor_to_check)) = new.
Proof.
  intros Hf. cbv zeta.
  assert (Hlast : monitor_tags
                    (with_tags (monitor_id monitor_to_check) (present_tags tags_to_add)
                       (without_tags (monitor_id monitor_to_check)
                          (monitor_tags monitor_to_check) monitor_to_check))
                  = present_tags tags_to_add).
  { rewrite with_tags_tags by apply without_tags_id.
    now rewrite without_own_tags. }
  unfold reset_monitor_tags. cbv zeta.
  destruct (monitor_tags monitor_to_check) as [|t0 ts0] eqn:Et.
  - cbn [List.length Nat.ltb Nat.leb]. rewrite add_tags_without_faults by exact Hf.
    cbn [fst snd srv_monitors calls]. unfold untag_calls, without_tags at 1. simpl.
    repeat split. exact Hlast.
  - cbn [List.length Nat.ltb Nat.leb]. rewrite bind_run.
    unfold remove_all_tags. rewrite remove_tags_without_faults by exact Hf.
    cbn [negb]. rewrite add_tags_without_faults by reflexivity.
    cbn [fst snd srv_monitors calls]. rewrite map_map, <- app_assoc.
    repeat split. exact Hlast.
Qed.

(* ====================================================================== *)
(** * The configuration and [main] *)
(* ====================================================================== *)

(** ** The names of the numbered variables *)

Lemma str_of_nat_inj (i j : nat) : str_of_nat i = str_of_nat j -> i = j.
Proof.
  unfold str_of_nat. intros H.
  apply (f_equal NilEmpty.uint_of_string) in H. rewrite !NilEmpty.usu in H.
  inversion H. now apply Unsigned.to_uint_inj.
Qed.

Lemma append_inj_l (p a b : string) : (p ++ a = p ++ b)%string -> a = b.
Proof. induction p as [|c p IH]; simpl; intros H; [exact H|]. inversion H. auto. Qed.

Lemma length_append (a b : string) :
  String.length (a ++ b) = (String.length a + String.length b)%nat.
Proof. induction a as [|c a IH]; simpl; [reflexivity | now rewrite IH]. Qed.

Lemma append_inj_r (s a b : string) : (a ++ s = b ++ s)%string -> a = b.
Proof.
  intros H.
  assert (L : String.length a = String.length b).
  { apply (f_equal String.length) in H. rewrite !length_append in H. lia. }
  revert b H L. induction a as [|c a IH]; intros [|d b] H L; simpl in *;
    try discriminate; [reflexivity|].
  inversion H. f_equal. apply IH; [assumption | lia].
Qed.

Lemma variable_name_inj (prefix suffix : string) (i j : nat) :
  (prefix ++ str_of_nat i ++ suffix = prefix ++ str_of_nat j ++ suffix)%string -> i = j.
Proof.
  intros H. apply append_inj_l, append_inj_r in H. now apply str_of_nat_inj.
Qed.

Lemma getenv_In (environ : list (string * string)) (key value : string) :
  getenv environ key = Some value -> In key (map fst environ).
Proof.
  induction environ as [|[name v] rest IH]; simpl; [discriminate|].
  destruct (String.eqb name key) eqn:E.
  - apply String.eqb_eq in E. now left.
  - intros H. right. now apply IH.
Qed.

(** ** The loops end *)

(** A loop that runs out of fuel has found a URL under every number it
    tried. *)
Lemma load_servers_out_of_fuel (environ : list (string * string)) (prefix label : string)
      (fuel i : nat) (servers : list Server) :
  load_servers environ prefix label fuel i servers = None ->
  forall j, (i <= j < i + fuel)%nat ->
            In (prefix ++ str_of_nat j ++ "_URL")%string (map fst environ).
Proof.
  revert i servers. induction fuel as [|fuel IH]; intros i servers H j Hj; [lia|].
  simpl in H.
  destruct (getenv environ (prefix ++ str_of_nat i ++ "_URL")) as [url|] eqn:E;
    simpl in H; [|discriminate].
  destruct (PyStr.truthy url); simpl in H; [|discriminate].
  destruct (Nat.eq_dec j i) as [->|N].
  - eapply getenv_In; eauto.
  - eapply IH; [exact H | lia].
Qed.

Lemma numbered_names_NoDup (prefix suffix : string) (i n : nat) :
  NoDup (map (fun j => (prefix ++ str_of_nat j ++ suffix)%string) (seq i n)).
Proof.
  revert i. induction n as [|n IH]; intros i; simpl; constructor; [|apply IH].
  rewrite in_map_iff. intros [j [E Hj]]. apply variable_name_inj in E.
  apply in_seq in Hj. lia.
Qed.

Lemma load_servers_ends (environ : list (string * string)) (prefix label : string)
      (fuel i : nat) (servers : list Server) :
  (List.length environ < fuel)%nat ->
  exists result, load_servers environ prefix label fuel i servers = Some result.
Proof.
  intros Hfuel.
  destruct (load_servers environ prefix label fuel i servers) as [result|] eqn:E;
    [eauto|].
  exfalso.
  pose proof (load_servers_out_of_fuel _ _ _ _ _ _ E) as Hall.
  assert (Hincl : incl (map (fun j => (prefix ++ str_of_nat j ++ "_URL")%string)
                            (seq i fuel))
                       (map fst environ)).
  { intros name Hn. apply in_map_iff in Hn. destruct Hn as [j [<- Hj]].
    apply Hall. apply in_seq in Hj. lia. }
  apply NoDup_incl_length in Hincl; [|apply numbered_names_NoDup].
  rewrite !length_map, length_seq in Hincl. lia.
Qed.

(** More fuel than needed changes nothing. *)
Lemma load_servers_more_fuel (environ : list (string * string)) (prefix label : string)
      (fuel fuel' i : nat) (servers result : list Server) :
  load_servers environ prefix label fuel i servers = Some result ->
  (fuel <= fuel')%nat ->
  load_servers environ prefix label fuel' i servers = Some result.
Proof.
  revert fuel' i servers. induction fuel as [|fuel IH]; intros fuel' i servers H L;
    [discriminate|].
  destruct fuel' as [|fuel']; [lia|]. simpl in *.
  destruct (negb (truthy_opt (getenv environ (prefix ++ str_of_nat i ++ "_URL"))));
    [exact H|].
  apply IH; [exact H | lia].
Qed.

(** ** What the loops read *)

Lemma load_servers_result (environ : list (string * string)) (prefix label : string)
      (fuel i : nat) (acc servers : list Server) :
  load_servers environ prefix label fuel i acc = Some servers ->
  exists new,
    servers = acc ++ new
    /\ (forall k, (k < List.length new)%nat ->
          exists url,
            getenv environ (prefix ++ str_of_nat (i + k) ++ "_URL") = Some url
            /\ url <> EmptyString
            /\ nth_error new k
               = Some (mkServer url
                         (getenv_default environ
                            (prefix ++ str_of_nat (i + k) ++ "_GROUP")
                            (label ++ str_of_nat (i + k)))))
    /\ truthy_opt (getenv environ
                     (prefix ++ str_of_nat (i + List.length new) ++ "_URL")) = false.
Proof.
  revert i acc. induction fuel as [|fuel IH]; intros i acc H; [discriminate|].
  simpl in H.
  destruct (truthy_opt (getenv environ (prefix ++ str_of_nat i ++ "_URL"))) eqn:T;
    simpl in H.
  - apply IH in H. destruct H as [new [E [Hk Hstop]]].
    destruct (getenv environ (prefix ++ str_of_nat i ++ "_URL")) as [url|] eqn:G;
      [|discriminate].
    simpl in T. apply truthy_nonempty in T.
    exists (mkServer url (getenv_default environ
                            (prefix ++ str_of_nat i ++ "_GROUP")
                            (label ++ str_of_nat i)) :: new).
    split; [now rewrite E, <- app_assoc|]. split.
    + intros [|k] L.
      * rewrite Nat.add_0_r. exists url. auto.
      * simpl in L. replace (i + S k)%nat with (S i + k)%nat by lia.
        apply Hk. lia.
    + simpl List.length. now replace (i + S (List.length new))%nat
        with (S i + List.length new)%nat by lia.
  - inversion H; subst. exists []. rewrite app_nil_r, Nat.add_0_r.
    split; [reflexivity|]. split; [intros k L; simpl in L; lia | exact T].
Qed.

(** X19.  The loops that read the numbered servers end, although they are
    written [while True]: the environment has finitely many variables and
    the names tried are all different, so after at most as many iterations
    as there are variables a name is missing.  Any number of iterations
    above the number of variables gives the same list, which has at most as
    many servers as the environment has variables. *)
Theorem load_servers_terminates (environ : list (string * string))
        (prefix label : string) (fuel : nat) :
  (List.length environ < fuel)%nat ->
  exists servers,
    load_servers environ prefix label fuel 1 [] = Some servers
    /\ load_servers environ prefix label (S (List.length environ)) 1 [] = Some servers
    /\ (List.length servers <= List.length environ)%nat.
Proof.
  intros Hfuel.
  destruct (load_servers_ends environ prefix label (S (List.length environ)) 1 []
              (Nat.lt_succ_diag_r _)) as [servers E].
  exists servers. split; [|split; [exact E|]].
  - eapply load_servers_more_fuel; [exact E | lia].
  - destruct (load_servers_result _ _ _ _ _ _ _ E) as [new [-> [Hk _]]]. simpl.
    assert (Hincl : incl (map (fun j => (prefix ++ str_of_nat j ++ "_URL")%string)
                              (seq 1 (List.length new)))
                         (map fst environ)).
    { intros name Hn. apply in_map_iff in Hn. destruct Hn as [j [<- Hj]].
      apply in_seq in Hj. destruct (Hk (j - 1)%nat) as [url [G _]]; [lia|].
      replace (1 + (j - 1))%nat with j in G by lia.
      eapply getenv_In; eauto. }
    apply NoDup_incl_length in Hincl; [|apply numbered_names_NoDup].
    now rewrite !length_map, length_seq in Hincl.
Qed.

(** X20.  The servers read are those numbered 1, 2, 3, ... without a gap:
    the server of rank [k] has the URL of the variable numbered [k], which
    is set and not empty, and the group of the variable numbered [k], or
    the default group when that variable is not set (an empty group is
    kept as it is); and the variable that would give the next URL is not
    set or is empty.  So a server numbered after a gap is not read. *)
Theorem load_servers_reads_consecutive_numbers
        (environ : list (string * string)) (prefix label : string) (fuel : nat)
        (servers : list Server) :
  load_servers environ prefix label fuel 1 [] = Some servers ->
  (forall k, (k < List.length servers)%nat ->
     exists url,
       getenv environ (prefix ++ str_of_nat (S k) ++ "_URL") = Some url
       /\ url <> EmptyString
       /\ nth_error servers k
          = Some (mkServer url
                    (getenv_default environ
                       (prefix ++ str_of_nat (S k) ++ "_GROUP")
                       (label ++ str_of_nat (S k)))))
  /\ truthy_opt (getenv environ
                   (prefix ++ str_of_nat (S (List.length servers)) ++ "_URL")) = false.
Proof.
  intros H. destruct (load_servers_result _ _ _ _ _ _ _ H) as [new [-> [Hk Hstop]]].
  simpl. split; [|exact Hstop]. intros k L. exact (Hk k L).
Qed.

(** ** The ignore patterns of the configuration *)

(** X21.  The ignore patterns read from the configuration are the pieces
    between commas, trimmed, the blank ones left out: each is trimmed, not
    empty and without a comma.  Trimming them when they are read changes
    nothing in what is ignored: an identifier is ignored under them
    exactly when it is under the raw pieces. *)
Theorem parse_ignore_patterns_spec (ignore_patterns_str : string) :
  (forall p, In p (parse_ignore_patterns ignore_patterns_str) ->
             PyStr.strip p = p /\ p <> EmptyString /\ comma_free p)
  /\ (forall url,
         should_ignore url (parse_ignore_patterns ignore_patterns_str)
         = should_ignore url (split_commas ignore_patterns_str)).
Proof.
  unfold parse_ignore_patterns. split.
  - intros p Hp. apply in_map_iff in Hp. destruct Hp as [q [<- Hq]].
    apply filter_In in Hq. destruct Hq as [Hq T].
    split; [apply strip_idempotent|]. split; [now apply truthy_nonempty|].
    apply strip_comma_free. eapply split_commas_comma_free; eauto.
  - intros url. rewrite !should_ignore_unfold. apply should_ignore_loop_trimmed.
Qed.

(** ** [main] *)

(** X22.  Without an environment file [main] cannot run the
    synchronisation, whatever the command line gives: the servers come
    from the environment file only, so the process ends with status 1
    after one error line (the URL is required, or no server is
    configured), without a prompt and without contacting the service. *)
Theorem main_without_env_file (fuel : nat) (args : Args) (p : Process) :
  path_exists p (args_env_file args) = false ->
  main fuel args p
  = Some (SysExit 1,
          notify (if truthy_opt (args_uptime_url args)
                  then ErrorNoServer else ErrorUrlRequired) p).
Proof.
  intros H. unfold main. rewrite H. cbv zeta. simpl.
  destruct (args_uptime_url args) as [url|]; simpl; [|reflexivity].
  destruct (PyStr.truthy url) eqn:T; simpl; [now rewrite T | reflexivity].
Qed.

Lemma input_world (prompt : string) (p : Process) :
  world (snd (input prompt p)) = world p.
Proof. unfold input. simpl. destruct (stdin p); reflexivity. Qed.

Lemma get_uptime_credentials_world (username password : option string) (p : Process) :
  world (snd (get_uptime_credentials username password p)) = world p.
Proof.
  unfold get_uptime_credentials.
  set (first := match username with
                | Some u => if PyStr.truthy u then (Return u, p)
                            else input "Uptime Kuma username: " p
                | None => input "Uptime Kuma username: " p
                end).
  assert (H1 : world (snd first) = world p).
  { unfold first. destruct username as [u|]; [destruct (PyStr.truthy u)|];
      try reflexivity; apply input_world. }
  destruct first as [[u|e|c] p1]; simpl in H1; try exact H1.
  set (second := match password with
                 | Some pw => if PyStr.truthy pw then (Return pw, p1)
                              else input "Uptime Kuma password: " p1
                 | None => input "Uptime Kuma password: " p1
                 end).
  assert (H2 : world (snd second) = world p1).
  { unfold second. destruct password as [pw|]; [destruct (PyStr.truthy pw)|];
      try reflexivity; apply input_world. }
  destruct second as [[pw|e|c] p2]; simpl in *; congruence.
Qed.

(** X23.  [main] asks nothing of the service unless the configuration is
    complete: when it leaves the service, the network or the client's log
    other than they were, the environment file exists, a URL that is not
    empty is given on the command line or else in the environment, and at
    least one Traefik or Docker server is configured. *)
Theorem main_contacts_the_service_only_when_configured
        (fuel : nat) (args : Args) (p p' : Process) (o : Outcome unit) :
  main fuel args p = Some (o, p') ->
  world p' <> world p ->
  path_exists p (args_env_file args) = true
  /\ exists config url,
      read_config (environ (load_dotenv p)) fuel = Some config
      /\ py_or (args_uptime_url args) (config_uptime_url config) = Some url
      /\ url <> EmptyString
      /\ (config_traefik_servers config <> [] \/ config_docker_servers config <> []).
Proof.
  unfold main. destruct (path_exists p (args_env_file args)) eqn:Hex.
  - unfold load_config_from_env.
    destruct (read_config (environ (load_dotenv p)) fuel) as [config|] eqn:Hc;
      [|discriminate].
    cbv zeta. intros H Hw. inversion H as [H']. clear H.
    split; [reflexivity|]. exists config.
    destruct (py_or (args_uptime_url args) (config_uptime_url config)) as [url|] eqn:Hu.
    2: { inversion H'; subst. now destruct Hw. }
    exists url. split; [reflexivity|]. split; [reflexivity|].
    destruct (PyStr.truthy url) eqn:T; simpl in H'.
    2: { inversion H'; subst. now destruct Hw. }
    split; [now apply truthy_nonempty|].
    destruct (config_traefik_servers config) as [|t ts] eqn:Ht;
      [destruct (config_docker_servers config) as [|d ds] eqn:Hd|].
    + inversion H'; subst. now destruct Hw.
    + right. discriminate.
    + left. discriminate.
  - cbv zeta. intros H Hw. exfalso. simpl in H.
    destruct (py_or (args_uptime_url args) None) as [url|];
      [destruct (PyStr.truthy url)|]; simpl in H; inversion H; subst;
      now destruct Hw.
Qed.

Lemma load_dotenv_length (p : Process) :
  (List.length (environ (load_dotenv p))
   <= List.length (environ p) + List.length (dotenv p))%nat.
Proof.
  unfold load_dotenv. simpl. rewrite length_app.
  pose proof (filter_length_le
                (fun kv => negb (is_some (getenv (environ p) (fst kv)))) (dotenv p)).
  lia.
Qed.

Lemma read_config_ends (environ : list (string * string)) (fuel : nat) :
  (List.length environ < fuel)%nat ->
  exists config,
    read_config environ fuel = Some config
    /\ read_config environ (S (List.length environ)) = Some config.
Proof.
  intros Hfuel. unfold read_config.
  destruct (load_servers_ends environ "TRAEFIK_" "Traefik " (S (List.length environ))
              1 [] (Nat.lt_succ_diag_r _)) as [ts Et].
  destruct (load_servers_ends environ "DOCKER_" "Docker " (S (List.length environ))
              1 [] (Nat.lt_succ_diag_r _)) as [ds Ed].
  rewrite Et, Ed.
  rewrite (load_servers_more_fuel _ _ _ _ fuel _ _ _ Et) by lia.
  rewrite (load_servers_more_fuel _ _ _ _ fuel _ _ _ Ed) by lia.
  eauto.
Qed.

(** X24.  [main] ends: any number of iterations above the number of
    variables of the environment and of the environment file together is
    enough for the loops of the configuration, and gives the same outcome
    as that number plus one. *)
Theorem main_terminates (fuel : nat) (args : Args) (p : Process) :
  (List.length (environ p) + List.length (dotenv p) < fuel)%nat ->
  exists r,
    main fuel args p = Some r
    /\ main (S (List.length (environ p) + List.length (dotenv p))) args p = Some r.
Proof.
  intros Hfuel. unfold main.
  destruct (path_exists p (args_env_file args)); [|cbv zeta; eauto].
  unfold load_config_from_env. pose proof (load_dotenv_length p) as Hl.
  destruct (read_config_ends (environ (load_dotenv p)) fuel) as [c1 [E1 E0]]; [lia|].
  destruct (read_config_ends (environ (load_dotenv p))
              (S (List.length (environ p) + List.length (dotenv p))))
    as [c2 [E2 E0']]; [lia|].
  assert (c2 = c1) by congruence. subst c2.
  rewrite E1, E2. cbv zeta. eauto.
Qed.

(** ** The theorems at concrete inputs *)

(** C1 at work: the session expires on the tag lookup and again on the
    second lookup; the resolver gives up with [None]. *)
Lemma auth_expired_retried_once_witness :
  let reauth := ensure_authenticated "http://kuma" "admin" "secret" in
  let w := mkWorld [] [] [] 1 edge_net
                   [Some "Not logged in"; None; None; None; Some "Unauthorized"]
                   [] [] in
  fst (get_or_create_tag "edge" (Some reauth) w) = Return None
  /\ calls (snd (get_or_create_tag "edge" (Some reauth) w))
     = [CGetTags; CDisconnect; CConnect "http://kuma"; CLogin "admin" "secret"; CGetTags].
Proof.
  cbv zeta.
  set (reauth := ensure_authenticated "http://kuma" "admin" "secret").
  set (w := mkWorld [] [] [] 1 edge_net
                    [Some "Not logged in"; None; None; None; Some "Unauthorized"]
                    [] []).
  set (w1 := snd (lookup_or_create_tag "edge" w)).
  set (w2 := snd (reauth w1)).
  set (w3 := snd (lookup_or_create_tag "edge" w2)).
  assert (L1 : lookup_or_create_tag "edge" w = (Raise "Not logged in", w1))
    by (vm_compute; reflexivity).
  assert (S1 : session_expired (PyStr.lower "Not logged in") = true)
    by (vm_compute; reflexivity).
  assert (R : reauth w1 = (Return tt, w2)) by (vm_compute; reflexivity).
  assert (L2 : lookup_or_create_tag "edge" w2 = (Raise "Unauthorized", w3))
    by (vm_compute; reflexivity).
  pose proof (proj1 (auth_expired_retried_once "http://kuma" "admin" "secret") "edge"
                    w _ _ L1 S1) as H.
  fold reauth in H. rewrite R, L2 in H. destruct H as [E _]. rewrite E.
  vm_compute. split; reflexivity.
Defined.

(** C3 at work: one of two monitors matches by URL; its deletion fails,
    is reported, and the monitor list is read again. *)
Lemma pruning_spec_witness :
  let monitors := [ mkMonitor 1 "test" HTTP (Some "https://test.example.com") None [];
                    mkMonitor 2 "app" HTTP (Some "https://app.example.com") None [] ] in
  let w := mkWorld monitors [] [] 3 edge_net [Some "boom"] [] [] in
  let r := prune_monitors ["test.*"] monitors w in
  calls (snd r) = [CDeleteMonitor 1; CGetMonitors]
  /\ stdout (snd r) = [RemoveFailed 1 "boom"].
Proof.
  cbv zeta.
  destruct (pruning_spec "http://kuma" "admin" "secret" [] [] ["test.*"] false
              [ mkMonitor 1 "test" HTTP (Some "https://test.example.com") None [];
                mkMonitor 2 "app" HTTP (Some "https://app.example.com") None [] ]
              (mkWorld
                 [ mkMonitor 1 "test" HTTP (Some "https://test.example.com") None [];
                   mkMonitor 2 "app" HTTP (Some "https://app.example.com") None [] ]
                 [] [] 3 edge_net [Some "boom"] [] []))
    as [_ [C [O _]]].
  rewrite C, O. split; vm_compute; reflexivity.
Defined.

(** C5 at work: of the desired identifiers [A] and [B], only [B] is to be
    created when a monitor has the URL [A]. *)
Lemma natural_key_matching_witness :
  missing_hosts ["https://a.example.com"; "https://b.example.com"]
                (collect_existing_urls
                   [mkMonitor 1 "a" HTTP (Some "https://a.example.com") None []])
  = ["https://b.example.com"].
Proof.
  apply (proj2 (proj2 (proj2 natural_key_matching))).
  - discriminate.
  - discriminate.
  - eexists. split; [now left | reflexivity].
  - intros m [<-|[]]. discriminate.
Defined.

(** C6 at work: a host that matches an ignore pattern is never created,
    whatever else the run does. *)
Lemma ignored_hosts_never_created_witness :
  let r := sync_monitors "http://kuma"
                         [mkServer "http://traefik-a" "edge"] [] "admin" "secret"
                         ["A.EXAMPLE.*"] false twin_traefik_world in
  ~ In (CAddMonitor (http_monitor_config "https://a.example.com")) (calls (snd r)).
Proof.
  cbv zeta.
  destruct (ignored_hosts_never_created "http://kuma" "admin" "secret"
              [mkServer "http://traefik-a" "edge"] [] ["A.EXAMPLE.*"] false
              twin_traefik_world) as [_ [_ [l [C F]]]].
  rewrite C. simpl. intros H. rewrite Forall_forall in F.
  destruct (F _ H _ eq_refl eq_refl) as [host [E S]].
  assert (Eh : host = "https://a.example.com").
  { assert (Eu : cfg_url (http_monitor_config "https://a.example.com")
                 = cfg_url (http_monitor_config host)) by now rewrite E.
    simpl in Eu. now inversion Eu. }
  subst host.
  assert (St : should_ignore "https://a.example.com" ["A.EXAMPLE.*"] = true)
    by (vm_compute; reflexivity).
  rewrite St in S. discriminate.
Defined.

(** C7 at work: the first of two removals fails, so nothing is added and
    the function returns. *)
Lemma reset_removes_before_adding_witness :
  let m := mkMonitor 3 "a.example.com" HTTP (Some "https://a.example.com") None
                     [mkTagRef 5 ""; mkTagRef 6 ""] in
  let w := mkWorld [m] [] [] 10 edge_net [Some "timeout"] [] [] in
  let reauth := ensure_authenticated "http://kuma" "admin" "secret" in
  reset_monitor_tags reauth m [Some 1; Some 2] w
  = (Return tt, snd (remove_all_tags reauth 3 [mkTagRef 5 ""; mkTagRef 6 ""] w)).
Proof.
  cbv zeta.
  destruct (reset_removes_before_adding "http://kuma" "admin" "secret"
              (mkMonitor 3 "a.example.com" HTTP (Some "https://a.example.com") None
                         [mkTagRef 5 ""; mkTagRef 6 ""])
              [Some 1; Some 2]
              (mkWorld [mkMonitor 3 "a.example.com" HTTP (Some "https://a.example.com")
                                  None [mkTagRef 5 ""; mkTagRef 6 ""]]
                       [] [] 10 edge_net [Some "timeout"] [] []))
    as [_ [_ H]].
  cbv zeta in H. simpl monitor_tags in H. simpl monitor_id in H.
  destruct (H ltac:(discriminate)) as [l [o [l' [_ [_ [_ [_ [_ R]]]]]]]].
  assert (Ef : fst (remove_all_tags (ensure_authenticated "http://kuma" "admin" "secret")
                                    3 [mkTagRef 5 ""; mkTagRef 6 ""]
                                    (mkWorld [mkMonitor 3 "a.example.com" HTTP
                                                        (Some "https://a.example.com")
                                                        None
                                                        [mkTagRef 5 ""; mkTagRef 6 ""]]
                                             [] [] 10 edge_net [Some "timeout"] [] []))
                = Return true) by (vm_compute; reflexivity).
  destruct R as [[_ [_ [_ E]]]|[[E _]|[E _]]].
  - exact E.
  - rewrite Ef in E. discriminate.
  - rewrite Ef in E. discriminate.
Defined.

(** C9 at work: the scenario of the specification. *)
Lemma extract_hosts_from_traefik_spec_witness :
  let routers :=
    [ ("r1", mkRouter (Some ["https"]) (Some "Host(`a.example.com`)"));
      ("r2", mkRouter (Some ["http"]) (Some "Host(`b.example.com`)")) ] in
  let w := mkWorld [] [] [] 1 (fun _ => Reply 200 (RawData (Some routers))) [] [] [] in
  exists hosts,
    fst (extract_hosts_from_traefik "http://traefik" w) = Return hosts
    /\ In "https://a.example.com" hosts
    /\ ~ In "https://b.example.com" hosts.
Proof.
  cbv zeta.
  destruct (extract_hosts_from_traefik_spec "http://traefik"
              (mkWorld [] [] [] 1
                 (fun _ => Reply 200 (RawData (Some
                    [ ("r1", mkRouter (Some ["https"]) (Some "Host(`a.example.com`)"));
                      ("r2", mkRouter (Some ["http"]) (Some "Host(`b.example.com`)")) ])))
                 [] [] []))
    as [hosts [E [_ [_ [H _]]]]].
  exists hosts. split; [exact E|].
  specialize (H 200 _ eq_refl ltac:(lia)). split.
  - apply H. exists "r1", (mkRouter (Some ["https"]) (Some "Host(`a.example.com`)")).
    split; [now left|]. split.
    + exists ["https"]. split; [reflexivity | now left].
    + exists "Host(`a.example.com`)", "a.example.com".
      split; [reflexivity|]. split; [|reflexivity].
      apply re_search_host_iff. vm_compute. reflexivity.
  - intros Hb. apply H in Hb.
    destruct Hb as [n [c [[Hc|[Hc|[]]] [[l [El Hl]] [r [name [Er [Fp En]]]]]]]];
      inversion Hc; subst; simpl in *.
    + inversion Er; subst r. apply re_search_host_iff in Fp.
      assert (Es : re_search_host "Host(`a.example.com`)" = Some "a.example.com")
        by (vm_compute; reflexivity).
      rewrite Es in Fp. inversion Fp; subst name. discriminate.
    + inversion El; subst l. destruct Hl as [Hl|[]]. discriminate.
Defined.

(** X2 at work: the pattern is trimmed and case is ignored on both
    sides. *)
Lemma should_ignore_literal_witness :
  should_ignore "https://App.Example.com/status" [" app.example.COM "] = true.
Proof.
  apply (should_ignore_literal "https://App.Example.com/status" " app.example.COM "
                               "app.example.com").
  - vm_compute. reflexivity.
  - discriminate.
  - simpl. repeat split; discriminate.
  - left. vm_compute. reflexivity.
Defined.

(** X3 at work: a suffix pattern and a host under that suffix. *)
Lemma should_ignore_one_star_witness :
  should_ignore "https://db.internal.example.com" ["*.Internal.example.com"] = true.
Proof.
  apply (should_ignore_one_star "https://db.internal.example.com"
                                "*.Internal.example.com" "" ".internal.example.com").
  - vm_compute. reflexivity.
  - exact I.
  - simpl. repeat split; discriminate.
  - left. exists "db". vm_compute. reflexivity.
Defined.

(** X4 at work: the names come out in ascending order, the container
    without names contributes nothing, and all the leading slashes of a
    name go. *)
Lemma extract_containers_from_docker_sorted_witness :
  exists names,
    extract_containers_from_docker "tcp://docker:2375" fleet_world
    = (Return names, fleet_world)
    /\ Permutation names ["web"; "api"; "db"]
    /\ StronglySorted str_le names.
Proof.
  apply (extract_containers_from_docker_sorted
           "tcp://docker:2375" fleet_world 200
           [mkContainer (Some ["/web"; "/web-alias"]); mkContainer (Some ["/api"]);
            mkContainer None; mkContainer (Some ["//db"])]).
  - vm_compute. reflexivity.
  - lia.
Defined.

(** X6 at work. *)
Lemma docker_tcp_address_is_fetched_over_http_witness :
  fst (extract_containers_from_docker "tcp://docker:2375" fleet_world)
  = fst (extract_containers_from_docker "http://docker:2375" fleet_world).
Proof.
  apply (docker_tcp_address_is_fetched_over_http "docker:2375" fleet_world).
  vm_compute. reflexivity.
Defined.

(** X11 at work. *)
Lemma failed_login_ends_the_run_witness :
  let r := sync_monitors "http://kuma" [mkServer "http://traefik" "edge"] []
                         "admin" "wrong" [] false refused_login_world in
  fst r = SysExit 1
  /\ calls (snd r)
     = calls refused_login_world
       ++ [CConnect "http://kuma"; CLogin "admin" "wrong"; CDisconnect]
  /\ stdout (snd r)
     = stdout refused_login_world ++ [ErrorLine "Incorrect username or password"]
  /\ same_service refused_login_world (snd r).
Proof.
  apply (failed_login_ends_the_run "http://kuma" "admin" "wrong"
           [mkServer "http://traefik" "edge"] [] [] false refused_login_world
           "Incorrect username or password" []).
  reflexivity.
Defined.

(** X12 at work: the service knows [prod-docker] only, and the group is
    [staging]. *)
Lemma docker_group_without_host_is_skipped_witness :
  let r := process_docker false (ensure_authenticated "http://kuma" "admin" "secret")
                          [] (mkServer "tcp://docker:2375" "staging") 0 fleet_world in
  same_monitors fleet_world (snd r)
  /\ (fst r = Return 0 \/ fst r = SysExit 1).
Proof.
  apply (docker_group_without_host_is_skipped
           "http://kuma" "admin" "secret" false []
           (mkServer "tcp://docker:2375" "staging") 0 fleet_world).
  intros host [<-|[]]. simpl. discriminate.
Defined.

(** X13 at work: nothing answers at the address of the group. *)
Lemma traefik_group_that_fails_is_skipped_witness :
  exists e,
    process_traefik [] false (ensure_authenticated "http://kuma" "admin" "secret")
                    [] (Some 1) (mkServer "http://nowhere" "edge") ([], 0)
                    twin_traefik_world
    = (Return ([], 0),
       log_output (NoHosts "http://nowhere")
         (log_output (ErrorFetchingTraefik "http://nowhere" e) twin_traefik_world)).
Proof.
  apply (traefik_group_that_fails_is_skipped
           [] false (ensure_authenticated "http://kuma" "admin" "secret")
           [] (Some 1) (mkServer "http://nowhere" "edge") ([], 0) twin_traefik_world).
  vm_compute. exact I.
Defined.


(** X15 at work: two Traefik groups that route the same host. *)
Lemma reported_count_is_the_number_created_witness :
  let r := sync_groups [mkServer "http://traefik-a" "edge";
                        mkServer "http://traefik-b" "internal"] []
                       [] false (ensure_authenticated "http://kuma" "admin" "secret")
                       [] twin_traefik_world in
  exists n lines,
    stdout (snd r) = lines ++ [SyncComplete n]
    /\ Z.of_nat (List.length (srv_monitors (snd r)))
       = Z.of_nat (List.length (srv_monitors twin_traefik_world)) + n.
Proof.
  apply (reported_count_is_the_number_created
           "http://kuma" "admin" "secret"
           [mkServer "http://traefik-a" "edge"; mkServer "http://traefik-b" "internal"]
           [] [] false [] twin_traefik_world).
  vm_compute. reflexivity.
Defined.

(** X16 at work. *)
Lemma create_monitor_without_faults_witness :
  let r := create_monitor (ensure_authenticated "http://kuma" "admin" "secret")
                          (http_monitor_config "https://b.example.com")
                          [Some 2; None] true false tagged_world in
  fst r = Return true
  /\ srv_monitors (snd r)
     = srv_monitors tagged_world
       ++ [mkMonitor 4 "b.example.com" HTTP (Some "https://b.example.com") None
                     [mkTagRef 2 ""]]
  /\ calls (snd r)
     = [CAddMonitor (http_monitor_config "https://b.example.com");
        CAddMonitorTag (Some 2) 4 ""]
  /\ stdout (snd r) = [].
Proof.
  apply (create_monitor_without_faults
           (ensure_authenticated "http://kuma" "admin" "secret")
           (http_monitor_config "https://b.example.com")
           [Some 2; None] true false tagged_world).
  - reflexivity.
  - discriminate.
  - intros m [<-|[]]. discriminate.
Defined.

(** X17 at work: the monitor has the tag 1 and lacks the tag 2. *)
Lemma check_leaves_nothing_missing_witness :
  let r := check_monitor_tags (ensure_authenticated "http://kuma" "admin" "secret")
                              tagged_monitor (Some 2) (Some 1) tagged_world in
  fst r = Return tt
  /\ srv_monitors (snd r) = map (with_tags 3 [mkTagRef 2 ""]) [tagged_monitor]
  /\ calls (snd r) = [CAddMonitorTag (Some 2) 3 ""]
  /\ monitor_tags (with_tags 3 [mkTagRef 2 ""] tagged_monitor)
     = [mkTagRef 1 ""; mkTagRef 2 ""]
  /\ missing_tags (monitor_tags (with_tags 3 [mkTagRef 2 ""] tagged_monitor))
                  (Some 2) (Some 1) = [].
Proof.
  apply (check_leaves_nothing_missing
           (ensure_authenticated "http://kuma" "admin" "secret")
           tagged_monitor (Some 2) (Some 1) tagged_world).
  reflexivity.
Defined.

(** X18 at work: the tag 1 goes, the tags 2 and 5 come. *)
Lemma reset_without_faults_witness :
  let r := reset_monitor_tags (ensure_authenticated "http://kuma" "admin" "secret")
                              tagged_monitor [Some 2; Some 5] tagged_world in
  fst r = Return tt
  /\ srv_monitors (snd r)
     = map (fun m => with_tags 3 [mkTagRef 2 ""; mkTagRef 5 ""]
                       (without_tags 3 [mkTagRef 1 ""] m)) [tagged_monitor]
  /\ calls (snd r)
     = [CDeleteMonitorTag 1 3 ""; CAddMonitorTag (Some 2) 3 "";
        CAddMonitorTag (Some 5) 3 ""]
  /\ monitor_tags (with_tags 3 [mkTagRef 2 ""; mkTagRef 5 ""]
                     (without_tags 3 [mkTagRef 1 ""] tagged_monitor))
     = [mkTagRef 2 ""; mkTagRef 5 ""].
Proof.
  apply (reset_without_faults
           (ensure_authenticated "http://kuma" "admin" "secret")
           tagged_monitor [Some 2; Some 5] tagged_world).
  reflexivity.
Defined.

(** X19 at work. *)
Lemma load_servers_terminates_witness :
  exists servers,
    load_servers gapped_environ "TRAEFIK_" "Traefik " 7 1 [] = Some servers
    /\ load_servers gapped_environ "TRAEFIK_" "Traefik " 5 1 [] = Some servers
    /\ (List.length servers <= 4)%nat.
Proof.
  apply (load_servers_terminates gapped_environ "TRAEFIK_" "Traefik " 7).
  simpl. lia.
Defined.

(** X20 at work: the server numbered 4 comes after a gap and is not
    read. *)
Lemma load_servers_reads_consecutive_numbers_witness :
  load_servers gapped_environ "TRAEFIK_" "Traefik " 5 1 []
  = Some [mkServer "http://traefik-a" "Traefik 1";
          mkServer "http://traefik-b" "internal"]
  /\ truthy_opt (getenv gapped_environ "TRAEFIK_3_URL") = false.
Proof.
  split; [vm_compute; reflexivity|].
  apply (load_servers_reads_consecutive_numbers
           gapped_environ "TRAEFIK_" "Traefik " 5
           [mkServer "http://traefik-a" "Traefik 1";
            mkServer "http://traefik-b" "internal"]).
  vm_compute. reflexivity.
Defined.

(** X22 at work: the URL is given on the command line, and the process
    still ends with status 1, for want of a server. *)
Lemma main_without_env_file_witness :
  main 3 (mkArgs (Some "http://kuma") None None ".env") bare_process
  = Some (SysExit 1, notify ErrorNoServer bare_process).
Proof.
  apply (main_without_env_file 3 (mkArgs (Some "http://kuma") None None ".env")
                               bare_process).
  reflexivity.
Defined.

(** X23 at work: a run that reaches the service. *)
Lemma main_contacts_the_service_only_when_configured_witness :
  path_exists configured_process ".env" = true
  /\ exists config url,
      read_config (environ (load_dotenv configured_process)) 8 = Some config
      /\ py_or None (config_uptime_url config) = Some url
      /\ url <> EmptyString
      /\ (config_traefik_servers config <> [] \/ config_docker_servers config <> []).
Proof.
  set (r := match main 8 (mkArgs None None None ".env") configured_process with
            | Some r => r
            | None => (Return tt, configured_process)
            end).
  apply (main_contacts_the_service_only_when_configured
           8 (mkArgs None None None ".env") configured_process (snd r) (fst r)).
  - vm_compute. reflexivity.
  - assert (C : calls (world (snd r))
                = [CConnect "http://kuma"; CLogin "admin" "secret"; CGetMonitors;
                   CGetTags; CAddTag "traefik" "#4299e1";
                   CGetTags; CAddTag "edge" "#4299e1";
                   CAddMonitor (http_monitor_config "https://a.example.com");
                   CAddMonitorTag (Some 2) 3 ""; CAddMonitorTag (Some 1) 3 "";
                   CDisconnect])
      by (vm_compute; reflexivity).
    intros E. rewrite E in C. discriminate C.
Defined.

(** X24 at work. *)
Lemma main_terminates_witness :
  exists r,
    main 8 (mkArgs None None None ".env") configured_process = Some r
    /\ main 7 (mkArgs None None None ".env") configured_process = Some r.
Proof.
  apply (main_terminates 8 (mkArgs None None None ".env") configured_process).
  simpl. lia.
Defined.
